(** * The job queue of claudecodeui: store, process adapter and project workers

    A shallow embedding of the three modules of the server that make up
    its job queue,
    - [server/database/db.js] (source file [src/unnamed/part_000]): the
      object [jobDb], over the [jobs] table of [server/database/init.sql];
    - [server/claude-cli.js] (source file [src/unnamed/part_001]): the
      event handlers that [spawnClaude] installs on the child process;
    - the class [JobWorker] (in source file [src/server/projects.js], from
      [import { EventEmitter } from 'events'] on),
    followed by the properties of the job queue that are proved of it.

    Conventions of the embedding.
    - A JavaScript call that may raise returns an [outcome]: [Return v] or
      [Throw e]; [try]/[catch] is a [match] on it.
    - Mutable state is passed explicitly: the database file is a
      [JobDb.Database], the [JobWorker] singleton a [JobWorker.State], one
      call of [spawnClaude] a [ClaudeCli.Process].
    - Clock readings ([CURRENT_TIMESTAMP], [new Date()], [Date.now()]) are
      arguments named [now]; an instant is the number of milliseconds since
      the epoch.  The two TEXT encodings the code stores are fixed-width, so
      SQLite's comparison of the texts is the comparison of the instants.
    - [console.log] and [console.error] are left out. *)

From Stdlib Require Import ZArith List String Ascii Bool Lia.
From Stdlib Require Import Decimal DecimalString DecimalZ DecimalFacts.
From Stdlib Require Import Permutation Sorted Finite.
Import ListNotations.
Local Open Scope string_scope.

(* ===================================================================== *)
(** * Part I: definitions *)
(* ===================================================================== *)

(** ** JavaScript values and exceptions *)

(** An exception object; only [error.message] is ever read by the code. *)
Record Error := { message : string }.

Inductive outcome (A : Type) : Type :=
| Return (a : A)
| Throw (e : Error).
Arguments Return {A} a.
Arguments Throw {A} e.

Definition bind {A B : Type} (m : outcome A) (k : A -> outcome B) : outcome B :=
  match m with
  | Return a => k a
  | Throw e => Throw e
  end.

(** ** Numbers

    The Numbers of JavaScript are the double-precision floating-point
    numbers.  What the code does with a Number is to write it into a JSON
    text and to read it from one; both are modelled here on decimal
    texts, with exact integer arithmetic. *)
Module Number.
Local Open Scope Z_scope.

Definition digit_value (c : ascii) : option Z :=
  let n := nat_of_ascii c in
  if Nat.leb 48 n && Nat.leb n 57 then Some (Z.of_nat (n - 48)) else None.

(** A run of digits, read in front of [s] onto the number [acc]: the
    number read, how many digits it took, and what follows them. *)
Fixpoint scan_digits (s : string) (acc : Z) (count : nat) : Z * nat * string :=
  match s with
  | EmptyString => (acc, count, s)
  | String c r =>
      match digit_value c with
      | Some d => scan_digits r (10 * acc + d) (S count)
      | None => (acc, count, s)
      end
  end.

(** The number [(-1)^negative * coefficient * 10^exponent]. *)
Record Scientific : Type := {
  negative : bool;
  coefficient : Z;
  exponent : Z
}.

(** The exponent part of a number token, after its [e]. *)
Definition read_exponent (s : string) : option Z :=
  let (minus, body) := match s with
                       | String c r =>
                           if Ascii.eqb c "-" then (true, r)
                           else if Ascii.eqb c "+" then (false, r)
                           else (false, s)
                       | EmptyString => (false, s)
                       end in
  match scan_digits body 0 0 with
  | (x, S _, EmptyString) => Some (if minus then - x else x)
  | _ => None
  end.

(** A whole token of the JSON grammar of numbers: an optional minus
    sign, an integer part without a leading zero, an optional fraction
    and an optional exponent. *)
Definition read_decimal (t : string) : option Scientific :=
  let (neg, body) := match t with
                     | String c r => if Ascii.eqb c "-" then (true, r) else (false, t)
                     | EmptyString => (false, t)
                     end in
  let leading_zero := match body with
                      | String c _ => Ascii.eqb c "0"
                      | EmptyString => false
                      end in
  match scan_digits body 0 0 with
  | (_, O, _) => None
  | (i, S n, r1) =>
      if leading_zero && negb (Nat.eqb n 0) then None
      else
        let fraction :=
          match r1 with
          | String c r =>
              if Ascii.eqb c "." then
                match scan_digits r i 0 with
                | (_, O, _) => None
                | (f, S m, r2) => Some (f, - Z.of_nat (S m), r2)
                end
              else Some (i, 0, r1)
          | EmptyString => Some (i, 0, r1)
          end in
        match fraction with
        | None => None
        | Some (f, q, EmptyString) =>
            Some {| negative := neg; coefficient := f; exponent := q |}
        | Some (f, q, String c r) =>
            if Ascii.eqb c "e" || Ascii.eqb c "E" then
              match read_exponent r with
              | Some x => Some {| negative := neg; coefficient := f; exponent := q + x |}
              | None => None
              end
            else None
        end
  end.

(** *** The Number nearest to a decimal

    A positive finite Number is [m * 2^e] with [m < 2^53] and
    [-1074 <= e <= 971]; [m >= 2^52] unless [e = -1074]. *)

(** [a / b * 2^(-e)] as a fraction. *)
Definition scaled (a b e : Z) : Z * Z :=
  if 0 <=? e then (a, b * 2 ^ e) else (a * 2 ^ (- e), b).

(** The positive fraction [a / b], rounded to the nearest Number, ties to
    even: [Some (m, e)], or [None] when it rounds to infinity. *)
Definition round_ratio (a b : Z) : option (Z * Z) :=
  let l := Z.log2 a - Z.log2 b in
  let e0 := l - 52 in
  let e1 := (let (n, d) := scaled a b e0 in if 2 ^ 52 <=? n / d then e0 else e0 - 1) in
  let e := Z.max e1 (-1074) in
  let (n, d) := scaled a b e in
  let q := n / d in
  let r := n mod d in
  let m := match 2 * r ?= d with
           | Lt => q
           | Gt => q + 1
           | Eq => if Z.even q then q else q + 1
           end in
  let (m', e') := if m =? 2 ^ 53 then (2 ^ 52, e + 1) else (m, e) in
  if 971 <? e' then None else Some (m', e').

(** [c * 10^q] as a fraction. *)
Definition ratio (c q : Z) : Z * Z :=
  if 0 <=? q then (c * 10 ^ q, 1) else (c, 10 ^ (- q)).

(** The Number nearest to [c * 10^q], for [c > 0]. *)
Definition round_decimal (c q : Z) : option (Z * Z) :=
  let (a, b) := ratio c q in round_ratio a b.

Definition same_double (x : option (Z * Z)) (m e : Z) : bool :=
  match x with
  | Some (m', e') => (m' =? m) && (e' =? e)
  | None => false
  end.

(** *** Number::toString *)

(** [a / b] compared with [10^n]. *)
Definition compare_pow10 (a b n : Z) : comparison :=
  if 0 <=? n then a ?= b * 10 ^ n else a * 10 ^ (- n) ?= b.

(** The [n] with [10^(n-1) <= a/b < 10^n], from an estimate. *)
Fixpoint adjust_up (fuel : nat) (a b n : Z) : Z :=
  match fuel with
  | O => n
  | S f => match compare_pow10 a b n with
           | Lt => n
           | _ => adjust_up f a b (n + 1)
           end
  end.

Fixpoint adjust_down (fuel : nat) (a b n : Z) : Z :=
  match fuel with
  | O => n
  | S f => match compare_pow10 a b (n - 1) with
           | Lt => adjust_down f a b (n - 1)
           | _ => n
           end
  end.

Definition magnitude (a b : Z) : Z :=
  let estimate := (Z.log2 a - Z.log2 b) * 30103 / 100000 in
  adjust_down 8 a b (adjust_up 8 a b estimate).

(** The decimals of [k] digits next to [m * 2^e]: the one below and the
    one above, and which of them is nearer ([Eq]: neither). *)
Definition neighbours (a b n : Z) (k : Z) : Z * Z * comparison :=
  let q := n - k in
  let (num, den) := if 0 <=? q then (a, b * 10 ^ q) else (a * 10 ^ (- q), b) in
  (num / den, q, 2 * (num mod den) ?= den).

(** The shortest decimal that reads as the Number [m * 2^e], and among
    the shortest ones the nearest (the even one, of two equally near):
    its digits [s] and exponent [q], for the decimal [s * 10^q]. *)
Fixpoint shortest_from (ks : list Z) (a b n m e : Z) : option (Z * Z) :=
  match ks with
  | [] => None
  | k :: rest =>
      let '(lo, q, side) := neighbours a b n k in
      let hi := lo + 1 in
      let lo_ok := same_double (round_decimal lo q) m e in
      let hi_ok := same_double (round_decimal hi q) m e in
      match lo_ok, hi_ok with
      | true, true =>
          match side with
          | Lt => Some (lo, q)
          | Gt => Some (hi, q)
          | Eq => Some (if Z.even lo then lo else hi, q)
          end
      | true, false => Some (lo, q)
      | false, true => Some (hi, q)
      | false, false => shortest_from rest a b n m e
      end
  end.

Definition shortest (m e : Z) : option (Z * Z) :=
  let (a, b) := scaled m 1 (- e) in
  shortest_from (map Z.of_nat (seq 1 17)) a b (magnitude a b) m e.

(** Trailing zeros moved from the digits to the exponent. *)
Fixpoint strip_zeros (fuel : nat) (s q : Z) : Z * Z :=
  match fuel with
  | O => (s, q)
  | S f => if (s mod 10 =? 0) && negb (s =? 0) then strip_zeros f (s / 10) (q + 1)
           else (s, q)
  end.

Definition digits_text (n : Z) : string :=
  NilEmpty.string_of_int (Z.to_int n).

Fixpoint zeros (n : nat) : string :=
  match n with
  | O => ""
  | S k => String "0" (zeros k)
  end.

(** The text of the positive Number whose shortest decimal has the
    digits [ds] and the decimal point after the first [n] of them. *)
Definition format (ds : string) (n : Z) : string :=
  let k := Z.of_nat (String.length ds) in
  if (k <=? n) && (n <=? 21) then ds ++ zeros (Z.to_nat (n - k))
  else if (0 <? n) && (n <=? 21) then
    substring 0 (Z.to_nat n) ds ++ "." ++ substring (Z.to_nat n) (Z.to_nat (k - n)) ds
  else if (-6 <? n) && (n <=? 0) then "0." ++ zeros (Z.to_nat (- n)) ++ ds
  else
    let e := n - 1 in
    let sign := if e <? 0 then "-" else "+" in
    let mantissa := if k =? 1 then ds
                    else substring 0 1 ds ++ "." ++ substring 1 (Z.to_nat (k - 1)) ds in
    mantissa ++ "e" ++ sign ++ digits_text (Z.abs e).

(** [Number::toString] of the positive Number [m * 2^e]. *)
Definition to_text (m e : Z) : option string :=
  match shortest m e with
  | Some (s, q) =>
      let (s', q') := strip_zeros 20 s q in
      let ds := digits_text s' in
      Some (format ds (Z.of_nat (String.length ds) + q'))
  | None => None
  end.

(** The numeral of the Number that a token of the JSON grammar denotes;
    [None] for a text that is no such token, and for a token that
    denotes negative zero or is too large for a finite Number. *)
Definition numeral_of (t : string) : option string :=
  match read_decimal t with
  | None => None
  | Some d =>
      let zero := if negative d then None else Some "0" in
      if coefficient d =? 0 then zero
      else
        let size := Z.of_nat (String.length (digits_text (coefficient d))) + exponent d in
        if 400 <? size then None
        else if size <? -400 then zero
        else match round_decimal (coefficient d) (exponent d) with
             | None => None
             | Some (m, e) =>
                 if m =? 0 then zero
                 else match to_text m e with
                      | Some text => Some (if negative d then "-" ++ text else text)
                      | None => None
                      end
             end
  end.

Definition number_char (c : ascii) : bool :=
  match digit_value c with
  | Some _ => true
  | None => Ascii.eqb c "-" || Ascii.eqb c "+" || Ascii.eqb c "."
            || Ascii.eqb c "e" || Ascii.eqb c "E"
  end.

Fixpoint number_chars (t : string) : bool :=
  match t with
  | EmptyString => true
  | String c r => number_char c && number_chars r
  end.

Definition option_string_eqb (a : option string) (b : string) : bool :=
  match a with
  | Some x => String.eqb x b
  | None => false
  end.

(** The text is the numeral of a Number. *)
Definition is_numeral (t : string) : bool :=
  number_chars t && option_string_eqb (numeral_of t) t.

(** A Number.  A finite Number other than negative zero is given by the
    text [Number::toString] writes for it, its numeral: the Number
    [1e21] is the one with the numeral [1e+21], one tenth the one with
    the numeral [0.1]; no Number has the numeral
    [1000000000000000000000]. *)
Inductive number : Type :=
| Finite (numeral : string) (canonical : is_numeral numeral = true)
| NegZero
| NaN
| Infinity (negative : bool).

(** The finite Number that a token denotes.  (The test always succeeds:
    the text [Number::toString] writes reads as the Number it was written
    for.  That fact of floating-point arithmetic is used nowhere
    below.) *)
Definition read (t : string) : option number :=
  match numeral_of t with
  | Some c =>
      match bool_dec (is_numeral c) true with
      | left canonical => Some (Finite c canonical)
      | right _ => None
      end
  | None => None
  end.

(** The Number that a text denotes, for the texts of finite Numbers, as
    [Number(t)]. *)
Definition literal (t : string) : number :=
  match read t with
  | Some x => x
  | None => NaN
  end.

Definition zero : number := Finite "0" eq_refl.

(** The Number of an integer, as of an exit code.  ([zero] stands for
    the integers that no finite Number is near: those of more than three
    hundred digits.) *)
Definition of_Z (n : Z) : number :=
  match read (digits_text n) with
  | Some x => x
  | None => zero
  end.

(** A Number that can be written down: finite, and not negative zero. *)
Definition printable (x : number) : bool :=
  match x with
  | Finite _ _ => true
  | NegZero | NaN | Infinity _ => false
  end.

(** ToBoolean of a Number. *)
Definition nonzero (x : number) : bool :=
  match x with
  | Finite t _ => negb (String.eqb t "0")
  | NegZero | NaN => false
  | Infinity _ => true
  end.

(** What [JSON.stringify] writes for a Number: its numeral, [0] for
    negative zero, and [null] for a Number that is not finite. *)
Definition json_text (x : number) : string :=
  match x with
  | Finite t _ => t
  | NegZero => "0"
  | NaN | Infinity _ => "null"
  end.

End Number.

(** The values an [options] blob or an output record is made of.  [JObj]
    lists the own enumerable properties of a plain object in enumeration
    order: in an object the keys are pairwise distinct, and the keys that
    are array indices come first, in ascending order (see
    [representable]). *)
#[warnings="-register-all"]
Inductive jsval : Type :=
| JUndefined
| JNull
| JBool (b : bool)
| JNum (x : Number.number)
| JStr (s : string)
| JArr (elems : list jsval)
| JObj (props : list (string * jsval)).

(** JavaScript's ToBoolean, as used by [if (x)], [!x], [a && b], [a || b]. *)
Definition truthy (v : jsval) : bool :=
  match v with
  | JUndefined | JNull => false
  | JBool b => b
  | JNum x => Number.nonzero x
  | JStr s => negb (String.eqb s "")
  | JArr _ | JObj _ => true
  end.

(** [if (s)] for a value that is [null] or a string. *)
Definition truthy_text (s : option string) : bool :=
  match s with
  | Some t => negb (String.eqb t "")
  | None => false
  end.

(** [if (n)] for a value that is [null] or a number. *)
Definition truthy_number (n : option Z) : bool :=
  match n with
  | Some z => negb (Z.eqb z 0)
  | None => false
  end.

(** ** JSON.stringify and JSON.parse

    The texts are the compact ones [JSON.stringify(value)] writes (no
    white space); [parse] reads that fragment of JSON, with the numbers
    in every spelling of the JSON grammar, and raises a [SyntaxError]
    elsewhere.  A string is a sequence of bytes; [\u] escapes are read
    for code points below 256. *)
Module JSON.

Definition dquote : ascii := Eval compute in ascii_of_nat 34.
Definition backslash : ascii := Eval compute in ascii_of_nat 92.

Definition hex_digit (n : nat) : ascii :=
  nth n (list_ascii_of_string "0123456789abcdef") "0"%char.

(** QuoteJSONString, one code unit. *)
Definition escape_char (c : ascii) : string :=
  if Ascii.eqb c dquote then String backslash (String dquote "")
  else if Ascii.eqb c backslash then String backslash (String backslash "")
  else if Ascii.eqb c (ascii_of_nat 8) then String backslash "b"
  else if Ascii.eqb c (ascii_of_nat 12) then String backslash "f"
  else if Ascii.eqb c (ascii_of_nat 10) then String backslash "n"
  else if Ascii.eqb c (ascii_of_nat 13) then String backslash "r"
  else if Ascii.eqb c (ascii_of_nat 9) then String backslash "t"
  else if Nat.ltb (nat_of_ascii c) 32 then
    String backslash ("u00" ++ String (hex_digit (nat_of_ascii c / 16))
                                 (String (hex_digit (nat_of_ascii c mod 16)) ""))
  else String c "".

Fixpoint escape (s : string) : string :=
  match s with
  | EmptyString => ""
  | String c r => escape_char c ++ escape r
  end.

Definition quote (s : string) : string :=
  String dquote (escape s ++ String dquote "").

(** [String(n)] for an integer [n] of at most 21 digits. *)
Definition number_text (n : Z) : string :=
  NilEmpty.string_of_int (Z.to_int n).

Fixpoint join (sep : string) (parts : list string) : string :=
  match parts with
  | [] => ""
  | [p] => p
  | p :: rest => p ++ sep ++ join sep rest
  end.

(** SerializeJSONProperty: [None] is the result [undefined].  An
    [undefined] array element is written [null]; a property whose value
    is [undefined] is left out. *)
Fixpoint stringify (v : jsval) : option string :=
  match v with
  | JUndefined => None
  | JNull => Some "null"
  | JBool true => Some "true"
  | JBool false => Some "false"
  | JNum x => Some (Number.json_text x)
  | JStr s => Some (quote s)
  | JArr elems =>
      Some ("[" ++ join "," (map (fun x => match stringify x with
                                           | Some t => t
                                           | None => "null"
                                           end) elems) ++ "]")
  | JObj props =>
      Some ("{" ++ join "," (flat_map (fun p => match stringify (snd p) with
                                                | Some t => [quote (fst p) ++ ":" ++ t]
                                                | None => []
                                                end) props) ++ "}")
  end.

Definition hex_value (c : ascii) : option nat :=
  let n := nat_of_ascii c in
  if Nat.leb 48 n && Nat.leb n 57 then Some (n - 48)
  else if Nat.leb 97 n && Nat.leb n 102 then Some (n - 87)
  else if Nat.leb 65 n && Nat.leb n 70 then Some (n - 55)
  else None.

Definition unicode_escape (a b c d : ascii) : option ascii :=
  match hex_value a, hex_value b, hex_value c, hex_value d with
  | Some 0, Some 0, Some h, Some l => Some (ascii_of_nat (16 * h + l))
  | _, _, _, _ => None
  end.

Definition simple_escape (e : ascii) : option ascii :=
  if Ascii.eqb e dquote then Some dquote
  else if Ascii.eqb e backslash then Some backslash
  else if Ascii.eqb e "/" then Some "/"%char
  else if Ascii.eqb e "b" then Some (ascii_of_nat 8)
  else if Ascii.eqb e "f" then Some (ascii_of_nat 12)
  else if Ascii.eqb e "n" then Some (ascii_of_nat 10)
  else if Ascii.eqb e "r" then Some (ascii_of_nat 13)
  else if Ascii.eqb e "t" then Some (ascii_of_nat 9)
  else None.

Definition cons_char (c : ascii) (r : option (string * string)) : option (string * string) :=
  match r with
  | Some (s, rest) => Some (String c s, rest)
  | None => None
  end.

(** The characters of a string literal after its opening quote, up to and
    including the closing one: the decoded string and the text after it. *)
Fixpoint parse_chars (s : string) : option (string * string) :=
  match s with
  | EmptyString => None
  | String c r =>
      if Ascii.eqb c dquote then Some ("", r)
      else if Ascii.eqb c backslash then
        match r with
        | EmptyString => None
        | String e r1 =>
            match simple_escape e with
            | Some x => cons_char x (parse_chars r1)
            | None =>
                if Ascii.eqb e "u" then
                  match r1 with
                  | String h3 (String h2 (String h1 (String h0 r2))) =>
                      match unicode_escape h3 h2 h1 h0 with
                      | Some x => cons_char x (parse_chars r2)
                      | None => None
                      end
                  | _ => None
                  end
                else None
            end
        end
      else if Nat.ltb (nat_of_ascii c) 32 then None
      else cons_char c (parse_chars r)
  end.

(** The longest run of characters of a number in front of [s], and what
    follows it. *)
Fixpoint scan_number (s : string) : string * string :=
  match s with
  | EmptyString => ("", s)
  | String c r =>
      if Number.number_char c
      then let (t, rest) := scan_number r in (String c t, rest)
      else ("", s)
  end.

(** A number: a token of the JSON grammar, read as the Number nearest to
    it.  A token that denotes negative zero, and one too large for a
    finite Number (which [JSON.parse] reads as [-0] and as [Infinity]),
    is outside the fragment. *)
Definition parse_number (s : string) : option (jsval * string) :=
  let (t, rest) := scan_number s in
  match Number.read t with
  | Some x => Some (JNum x, rest)
  | None => None
  end.

Fixpoint expect (lit s : string) : option string :=
  match lit, s with
  | EmptyString, _ => Some s
  | String a lit', String b s' => if Ascii.eqb a b then expect lit' s' else None
  | String _ _, EmptyString => None
  end.

Fixpoint lookup (k : string) (ps : list (string * jsval)) : option jsval :=
  match ps with
  | [] => None
  | (k', v) :: rest => if String.eqb k k' then Some v else lookup k rest
  end.

Definition remove_key (k : string) (ps : list (string * jsval)) : list (string * jsval) :=
  filter (fun p => negb (String.eqb k (fst p))) ps.

(** The array index that a property key is: the decimal numeral, with
    no leading zero, of an integer below 2^32 - 1. *)
Definition array_index (k : string) : option Z :=
  match Number.scan_digits k 0 0 with
  | (i, S n, EmptyString) =>
      let leading_zero := match k with
                          | String c _ => Ascii.eqb c "0"
                          | EmptyString => false
                          end in
      if (leading_zero && negb (Nat.eqb n 0)) || (4294967294 <? i)%Z then None
      else Some i
  | _ => None
  end.

(** The enumeration of the properties of an object: the array indices
    first, in ascending order, then the other keys in the order of their
    definition.  [before_key k k'] says that the key [k] comes before the
    key [k'] that was defined after it. *)
Definition before_key (k k' : string) : bool :=
  match array_index k, array_index k' with
  | Some i, Some j => (i <=? j)%Z
  | Some _, None => true
  | None, Some _ => false
  | None, None => true
  end.

(** The property [k : v] at its place among the properties [later],
    which were defined after it. *)
Fixpoint place (k : string) (v : jsval) (later : list (string * jsval))
  : list (string * jsval) :=
  match later with
  | [] => [(k, v)]
  | (k', v') :: rest =>
      if before_key k (fst (k', v')) then (k, v) :: later
      else (k', v') :: place k v rest
  end.

(** The member [k : v] of an object text, with the properties [later]
    that the members after it define: a later member with the same key
    overwrites the value, and the property keeps the place of the first
    definition. *)
Definition define_prop (k : string) (v : jsval) (later : list (string * jsval)) :=
  match lookup k later with
  | Some v' => place k v' (remove_key k later)
  | None => place k v later
  end.

(** Recursive descent; [fuel] bounds the nesting and the number of
    elements, and [parse] below supplies more than any text can use. *)
Fixpoint parse_value (fuel : nat) (s : string) {struct fuel} : option (jsval * string) :=
  match fuel with
  | O => None
  | S f =>
      match s with
      | EmptyString => None
      | String c r =>
          if Ascii.eqb c "n" then option_map (pair JNull) (expect "ull" r)
          else if Ascii.eqb c "t" then option_map (pair (JBool true)) (expect "rue" r)
          else if Ascii.eqb c "f" then option_map (pair (JBool false)) (expect "alse" r)
          else if Ascii.eqb c dquote then
            match parse_chars r with
            | Some (str, rest) => Some (JStr str, rest)
            | None => None
            end
          else if Ascii.eqb c "[" then
            match r with
            | EmptyString => None
            | String c' rest =>
                if Ascii.eqb c' "]" then Some (JArr [], rest)
                else match parse_elements f r with
                     | Some (vs, rest') => Some (JArr vs, rest')
                     | None => None
                     end
            end
          else if Ascii.eqb c "{" then
            match r with
            | EmptyString => None
            | String c' rest =>
                if Ascii.eqb c' "}" then Some (JObj [], rest)
                else match parse_members f r with
                     | Some (ms, rest') => Some (JObj ms, rest')
                     | None => None
                     end
            end
          else parse_number s
      end
  end
with parse_elements (fuel : nat) (s : string) {struct fuel} : option (list jsval * string) :=
  match fuel with
  | O => None
  | S f =>
      match parse_value f s with
      | Some (v, String c r) =>
          if Ascii.eqb c "," then
            match parse_elements f r with
            | Some (vs, rest) => Some (v :: vs, rest)
            | None => None
            end
          else if Ascii.eqb c "]" then Some ([v], r)
          else None
      | _ => None
      end
  end
with parse_members (fuel : nat) (s : string) {struct fuel} : option (list (string * jsval) * string) :=
  match fuel with
  | O => None
  | S f =>
      match s with
      | String q r =>
          if Ascii.eqb q dquote then
            match parse_chars r with
            | Some (k, String colon r1) =>
                if Ascii.eqb colon ":" then
                  match parse_value f r1 with
                  | Some (v, String c r2) =>
                      if Ascii.eqb c "," then
                        match parse_members f r2 with
                        | Some (ms, rest) => Some (define_prop k v ms, rest)
                        | None => None
                        end
                      else if Ascii.eqb c "}" then Some ([(k, v)], r2)
                      else None
                  | _ => None
                  end
                else None
            | _ => None
            end
          else None
      | EmptyString => None
      end
  end.

Definition SyntaxError : Error := {| message := "Unexpected token in JSON" |}.

Definition parse (text : string) : outcome jsval :=
  match parse_value (S (String.length text)) text with
  | Some (v, EmptyString) => Return v
  | _ => Throw SyntaxError
  end.

(** What [parse (stringify v)] is, read off [v]: [stringify] followed by
    [parse] turns an [undefined] element into [null], drops a property
    whose value is [undefined], turns a Number that is not finite into
    [null] and negative zero into zero, and leaves everything else as it
    is. *)
Fixpoint read_back (v : jsval) : jsval :=
  match v with
  | JNum Number.NegZero => JNum Number.zero
  | JNum Number.NaN | JNum (Number.Infinity _) => JNull
  | JArr elems =>
      JArr (map (fun x => match x with
                          | JUndefined => JNull
                          | _ => read_back x
                          end) elems)
  | JObj props =>
      JObj (fold_right (fun p later => match snd p with
                                       | JUndefined => later
                                       | _ => define_prop (fst p) (read_back (snd p)) later
                                       end) [] props)
  | _ => v
  end.

Fixpoint distinct (keys : list string) : bool :=
  match keys with
  | [] => true
  | k :: rest => negb (existsb (String.eqb k) rest) && distinct rest
  end.

(** The keys are in the order of an enumeration. *)
Fixpoint enumerated (keys : list string) : bool :=
  match keys with
  | [] => true
  | k :: rest => forallb (before_key k) rest && enumerated rest
  end.

(** The values JSON can carry: no [undefined] anywhere inside, every
    Number finite and not negative zero, and every object a real one (its
    keys pairwise distinct, and listed as the object enumerates them). *)
Fixpoint representable (v : jsval) : bool :=
  match v with
  | JUndefined => false
  | JNum x => Number.printable x
  | JArr elems => forallb representable elems
  | JObj props => forallb (fun p => representable (snd p)) props
                  && distinct (map fst props)
                  && enumerated (map fst props)
  | _ => true
  end.

(** *** Auxiliary notions for the proofs about [parse] *)

(** Induction on a value with the hypothesis for every element and every
    property value. *)
Section jsval_induction.
Variable P : jsval -> Prop.
Hypothesis Hundef : P JUndefined.
Hypothesis Hnull : P JNull.
Hypothesis Hbool : forall b, P (JBool b).
Hypothesis Hnum : forall n, P (JNum n).
Hypothesis Hstr : forall s, P (JStr s).
Hypothesis Harr : forall elems, Forall P elems -> P (JArr elems).
Hypothesis Hobj : forall props, Forall (fun p => P (snd p)) props -> P (JObj props).

Fixpoint jsval_nested_ind (v : jsval) : P v :=
  match v with
  | JUndefined => Hundef
  | JNull => Hnull
  | JBool b => Hbool b
  | JNum n => Hnum n
  | JStr s => Hstr s
  | JArr elems =>
      Harr elems ((fix go (l : list jsval) : Forall P l :=
                     match l with
                     | [] => Forall_nil P
                     | x :: r => Forall_cons x (jsval_nested_ind x) (go r)
                     end) elems)
  | JObj props =>
      Hobj props ((fix go (l : list (string * jsval)) : Forall (fun p => P (snd p)) l :=
                     match l with
                     | [] => Forall_nil _
                     | p :: r => Forall_cons p (jsval_nested_ind (snd p)) (go r)
                     end) props)
  end.
End jsval_induction.

(** What may follow a number in a text: nothing, or a character that is
    none of a number. *)
Definition no_number_start (rest : string) : Prop :=
  match rest with
  | EmptyString => True
  | String c _ => Number.number_char c = false
  end.

(** What follows a value inside an array or an object, or at the end. *)
Definition delimited (rest : string) : Prop :=
  match rest with
  | EmptyString => True
  | String c _ => c = ","%char \/ c = "]"%char \/ c = "}"%char
  end.

(** The text [stringify] writes for an array element. *)
Definition element_text (x : jsval) : string :=
  match stringify x with
  | Some t => t
  | None => "null"
  end.

(** The text of a value that has one, the empty text otherwise. *)
Definition json_text_of (x : jsval) : string :=
  match stringify x with
  | Some t => t
  | None => ""
  end.

(** The texts [stringify] writes for a property: one, or none. *)
Definition member_texts (p : string * jsval) : list string :=
  match stringify (snd p) with
  | Some t => [quote (fst p) ++ ":" ++ t]
  | None => []
  end.

(** [read_back], for an array element. *)
Definition revive (x : jsval) : jsval :=
  match x with
  | JUndefined => JNull
  | _ => read_back x
  end.

(** [read_back], for the properties of an object. *)
Definition read_back_props (props : list (string * jsval)) : list (string * jsval) :=
  fold_right (fun p later => match snd p with
                             | JUndefined => later
                             | _ => define_prop (fst p) (read_back (snd p)) later
                             end) [] props.

(** [parse_value] reads [v] back from its text, whatever follows it. *)
Definition parses (v : jsval) : Prop :=
  forall t, stringify v = Some t ->
  forall fuel rest, String.length t < fuel -> delimited rest ->
  parse_value fuel (t ++ rest) = Some (read_back v, rest).

Definition element_parses (x : jsval) : Prop :=
  forall fuel rest, String.length (element_text x) < fuel -> delimited rest ->
  parse_value fuel (element_text x ++ rest) = Some (revive x, rest).

End JSON.

(** ** server/database/db.js ([src/unnamed/part_000]): the [jobs] table and [jobDb] *)
Module JobDb.
Local Open Scope Z_scope.

(** Column [status]; the code writes and compares these four texts only. *)
Inductive Status : Set := pending | running | completed | failed.

Definition Status_eqb (a b : Status) : bool :=
  match a, b with
  | pending, pending | running, running
  | completed, completed | failed, failed => true
  | _, _ => false
  end.

(** A job, with the columns of [CREATE TABLE jobs].  [O] is what
    [options] holds: the TEXT in a stored row, the parsed value in the
    object a query hands to its caller. *)
Record JobOf (O : Type) : Type := mkJob {
  id : Z;
  project_name : string;
  session_id : option string;
  command : string;
  options : O;
  status : Status;
  priority : Z;
  created_at : Z;
  started_at : option Z;
  completed_at : option Z;
  error_message : option string;
  user_id : option Z
}.
Arguments mkJob {O}.
Arguments id {O} j.
Arguments project_name {O} j.
Arguments session_id {O} j.
Arguments command {O} j.
Arguments options {O} j.
Arguments status {O} j.
Arguments priority {O} j.
Arguments created_at {O} j.
Arguments started_at {O} j.
Arguments completed_at {O} j.
Arguments error_message {O} j.
Arguments user_id {O} j.

Abbreviation Row := (JobOf string).
Abbreviation Job := (JobOf jsval).

(** [{ ...row, options: o }] *)
Definition with_options {A B : Type} (row : JobOf A) (o : B) : JobOf B :=
  mkJob (id row) (project_name row) (session_id row) (command row) o
        (status row) (priority row) (created_at row) (started_at row)
        (completed_at row) (error_message row) (user_id row).

(** The database file behind the connection [db]: the rows of [jobs] in
    rowid order, the AUTOINCREMENT counter of the table, and the condition
    of the connection ([Some e] while every statement raises [e]: a closed
    handle, a locked or damaged file, a full disk). *)
Record Database : Type := {
  jobs : list Row;
  sequence : Z;
  fault : option Error
}.

Definition with_jobs (db : Database) (rows : list Row) : Database :=
  {| jobs := rows; sequence := sequence db; fault := fault db |}.

(** [ORDER BY]: a stable insertion sort; [before a b] says that [a] sorts
    no later than [b].  Rows that tie keep their rowid order. *)
Fixpoint insert_by {A : Type} (before : A -> A -> bool) (x : A) (l : list A) : list A :=
  match l with
  | [] => [x]
  | y :: rest => if before x y then x :: l else y :: insert_by before x rest
  end.

Definition order_by {A : Type} (before : A -> A -> bool) (l : list A) : list A :=
  fold_right (insert_by before) [] l.

(** [LIMIT n] *)
Definition limit {A : Type} (n : nat) (l : list A) : list A := firstn n l.

Definition in_status (allowed : list Status) (r : Row) : bool :=
  existsb (Status_eqb (status r)) allowed.

(** [JSON.stringify(undefined)] is [undefined], which better-sqlite3
    binds as NULL; the column [options TEXT NOT NULL] refuses it. *)
Definition NotNullError : Error :=
  {| message := "NOT NULL constraint failed: jobs.options" |}.

Definition largest_rowid (rows : list Row) : Z :=
  fold_right (fun r m => Z.max (id r) m) 0 rows.

(** [addJob]: the INSERT.  [status] and [created_at] take their column
    defaults; under AUTOINCREMENT the new id is one more than the largest
    id the table has ever held.  The table [users] is not part of
    [Database]: the INSERT of a job whose [user_id] is the id of no user,
    which the FOREIGN KEY of the column refuses, is outside this model,
    and what is proved of [addJob] is proved of the calls that return, or
    of jobs without a user. *)
Definition addJob (projectName : string) (sessionId : option string)
    (command : string) (options : jsval) (userId : option Z) (priority : Z)
    (now : Z) (db : Database) : outcome (Z * Database) :=
  match fault db with
  | Some e => Throw e
  | None =>
      match JSON.stringify options with
      | None => Throw NotNullError
      | Some text =>
          let lastInsertRowid :=
            Z.max (sequence db) (largest_rowid (jobs db)) + 1 in
          let row := mkJob lastInsertRowid projectName sessionId command text
                           pending priority now None None None userId in
          Return (lastInsertRowid,
                  {| jobs := jobs db ++ [row];
                     sequence := lastInsertRowid;
                     fault := fault db |})
      end
  end.

(** First statement of [getNextJobForProject]: the session ids that are
    running in the project. *)
Definition runningSessions (projectName : string) (rows : list Row) : list string :=
  flat_map (fun r =>
              if String.eqb (project_name r) projectName
                 && Status_eqb (status r) running
              then match session_id r with
                   | Some s => [s]
                   | None => []
                   end
              else []) rows.

(** WHERE clause of the query used when no session is running. *)
Definition retryable (projectName : string) (r : Row) : bool :=
  String.eqb (project_name r) projectName && in_status [pending; failed] r.

(** WHERE clause of the query used when some session is running. *)
Definition retryable_outside (sessions : list string) (projectName : string) (r : Row) : bool :=
  String.eqb (project_name r) projectName
  && in_status [pending; failed] r
  && match session_id r with
     | None => true
     | Some s => negb (existsb (String.eqb s) sessions)
     end.

(** [CASE WHEN status = 'pending' THEN 0 ELSE 1 END] *)
Definition retry_rank (r : Row) : Z :=
  match status r with
  | pending => 0
  | _ => 1
  end.

(** [ORDER BY CASE ... END, priority DESC, created_at ASC] *)
Definition claim_before (a b : Row) : bool :=
  (retry_rank a <? retry_rank b)
  || ((retry_rank a =? retry_rank b)
      && ((priority b <? priority a)
          || ((priority a =? priority b) && (created_at a <=? created_at b)))).

Definition parse_row (row : Row) : outcome Job :=
  bind (JSON.parse (options row)) (fun o => Return (with_options row o)).

(** [rows.map(row => ({ ...row, options: JSON.parse(row.options) }))] *)
Fixpoint parse_rows (rows : list Row) : outcome (list Job) :=
  match rows with
  | [] => Return []
  | row :: rest =>
      bind (parse_row row) (fun j =>
      bind (parse_rows rest) (fun js => Return (j :: js)))
  end.

(** The row the second statement of [getNextJobForProject] selects. *)
Definition nextRow (projectName : string) (rows : list Row) : option Row :=
  let sessions := runningSessions projectName rows in
  let selected :=
    if (0 <? List.length sessions)%nat
    then filter (retryable_outside sessions projectName) rows
    else filter (retryable projectName) rows in
  hd_error (limit 1 (order_by claim_before selected)).

Definition getNextJobForProject (projectName : string) (db : Database)
  : outcome (option Job) :=
  match fault db with
  | Some e => Throw e
  | None =>
      match nextRow projectName (jobs db) with
      | Some row => bind (parse_row row) (fun job => Return (Some job))
      | None => Return None
      end
  end.

(** The SET clause that [updateJobStatus] builds. *)
Definition updated (newStatus : Status) (errorMessage : option string) (now : Z)
    (r : Row) : Row :=
  mkJob (id r) (project_name r) (session_id r) (command r) (options r)
        newStatus (priority r) (created_at r)
        match newStatus with
        | running => Some now
        | _ => started_at r
        end
        match newStatus with
        | completed | failed => Some now
        | _ => completed_at r
        end
        (if truthy_text errorMessage then errorMessage else error_message r)
        (user_id r).

(** [updateJobStatus(jobId, status, errorMessage = null)]: UPDATE ... WHERE id = ? *)
Definition updateJobStatus (jobId : Z) (newStatus : Status)
    (errorMessage : option string) (now : Z) (db : Database) : outcome Database :=
  match fault db with
  | Some e => Throw e
  | None =>
      Return (with_jobs db
                (map (fun r => if id r =? jobId
                               then updated newStatus errorMessage now r
                               else r) (jobs db)))
  end.

(** [ORDER BY project_name, priority DESC, created_at ASC] *)
Definition active_before (a b : Row) : bool :=
  String.ltb (project_name a) (project_name b)
  || (String.eqb (project_name a) (project_name b)
      && ((priority b <? priority a)
          || ((priority a =? priority b) && (created_at a <=? created_at b)))).

Definition getActiveJobs (db : Database) : outcome (list Job) :=
  match fault db with
  | Some e => Throw e
  | None =>
      parse_rows (order_by active_before
                    (filter (in_status [pending; running]) (jobs db)))
  end.

(** [ORDER BY created_at DESC] *)
Definition newest_first (a b : Row) : bool := created_at b <=? created_at a.

Definition getJobsForProject (projectName : string) (limit_ : nat) (db : Database)
  : outcome (list Job) :=
  match fault db with
  | Some e => Throw e
  | None =>
      parse_rows (limit limit_
                    (order_by newest_first
                       (filter (fun r => String.eqb (project_name r) projectName)
                               (jobs db))))
  end.

(** SQLite sorts NULL before every value, so last under DESC. *)
Definition null_first (a b : option Z) : bool :=
  match a, b with
  | None, _ => true
  | Some _, None => false
  | Some x, Some y => x <=? y
  end.

(** [ORDER BY completed_at DESC] *)
Definition completed_last_first (a b : Row) : bool :=
  null_first (completed_at b) (completed_at a).

Definition finished_in (projectName : string) (r : Row) : bool :=
  String.eqb (project_name r) projectName && in_status [completed; failed] r.

(** The sub-select of the DELETE: the ids of the 100 finished jobs of the
    project that completed last. *)
Definition retained_ids (projectName : string) (rows : list Row) : list Z :=
  map id (limit 100 (order_by completed_last_first
                       (filter (finished_in projectName) rows))).

(** The DELETE statement of [cleanupOldJobs], for one project. *)
Definition delete_old (projectName : string) (rows : list Row) : list Row :=
  let keep := retained_ids projectName rows in
  filter (fun r => negb (finished_in projectName r
                         && negb (existsb (Z.eqb (id r)) keep))) rows.

(** [SELECT DISTINCT project_name FROM jobs] *)
Fixpoint distinct_projects (rows : list Row) : list string :=
  match rows with
  | [] => []
  | r :: rest =>
      project_name r
      :: filter (fun p => negb (String.eqb p (project_name r))) (distinct_projects rest)
  end.

(** [cleanupOldJobs(projectName = null)]: [if (projectName)] takes the
    one-project branch for a non-empty name only. *)
Definition cleanupOldJobs (projectName : option string) (db : Database)
  : outcome Database :=
  match fault db with
  | Some e => Throw e
  | None =>
      match projectName with
      | Some p =>
          if truthy_text projectName
          then Return (with_jobs db (delete_old p (jobs db)))
          else Return (with_jobs db
                         (fold_left (fun rows q => delete_old q rows)
                                    (distinct_projects (jobs db)) (jobs db)))
      | None =>
          Return (with_jobs db
                    (fold_left (fun rows q => delete_old q rows)
                               (distinct_projects (jobs db)) (jobs db)))
      end
  end.

End JobDb.

(** ** server/claude-cli.js ([src/unnamed/part_001]): the handlers [spawnClaude] installs

    One call of [spawnClaude(command, options, ws)] is a [Process]: the
    variables its closures share, the messages handed to [ws.send] so far,
    and the state of the promise the call returned.  The construction of
    the command line, the temporary image files and the registry
    [activeClaudeProcesses] are not part of this state: nothing below
    reads them. *)
Module ClaudeCli.

Definition TypeError : Error :=
  {| message := "Cannot read properties of null" |}.

(** The property read [v.k], for a key that no prototype defines. *)
Definition get (v : jsval) (k : string) : outcome jsval :=
  match v with
  | JUndefined | JNull => Throw TypeError
  | JObj props =>
      Return match JSON.lookup k props with
             | Some x => x
             | None => JUndefined
             end
  | _ => Return JUndefined
  end.

Record Process : Type := {
  command : string;
  sessionId : jsval;               (* [options.sessionId] *)
  capturedSessionId : jsval;
  sessionCreatedSent : bool;
  sent : list jsval;               (* arguments of [JSON.stringify] in
                                      [ws.send(JSON.stringify(m))], oldest first *)
  settled : option (outcome unit)  (* [None]: the promise is pending *)
}.

(** The start of the executor: [const { sessionId, ... } = options].  It
    raises when [options] is [null]; the promise then stays pending. *)
Definition spawn (command_ : string) (options : jsval) : outcome Process :=
  bind (get options "sessionId") (fun sid =>
  Return {| command := command_;
            sessionId := sid;
            capturedSessionId := sid;
            sessionCreatedSent := false;
            sent := [];
            settled := None |}).

Definition send (m : jsval) (p : Process) : Process :=
  {| command := command p;
     sessionId := sessionId p;
     capturedSessionId := capturedSessionId p;
     sessionCreatedSent := sessionCreatedSent p;
     sent := sent p ++ [m];
     settled := settled p |}.

Definition capture (sid : jsval) (p : Process) : Process :=
  {| command := command p;
     sessionId := sessionId p;
     capturedSessionId := sid;
     sessionCreatedSent := sessionCreatedSent p;
     sent := sent p;
     settled := settled p |}.

Definition mark_session_created (p : Process) : Process :=
  {| command := command p;
     sessionId := sessionId p;
     capturedSessionId := capturedSessionId p;
     sessionCreatedSent := true;
     sent := sent p;
     settled := settled p |}.

(** [resolve()] and [reject(e)]: the first call settles the promise, the
    later ones do nothing. *)
Definition settle (r : outcome unit) (p : Process) : Process :=
  {| command := command p;
     sessionId := sessionId p;
     capturedSessionId := capturedSessionId p;
     sessionCreatedSent := sessionCreatedSent p;
     sent := sent p;
     settled := match settled p with
                | None => Some r
                | Some first => Some first
                end |}.

(** [{ type: t, ...fields }] *)
Definition message_of (type : string) (fields : list (string * jsval)) : jsval :=
  JObj (("type", JStr type) :: fields).

Definition session_created (sid : jsval) : jsval :=
  message_of "session-created" [("sessionId", sid)].

Definition claude_response (response : jsval) : jsval :=
  message_of "claude-response" [("data", response)].

Definition claude_output (line : string) : jsval :=
  message_of "claude-output" [("data", JStr line)].

Definition claude_error (text : string) : jsval :=
  message_of "claude-error" [("error", JStr text)].

Definition exit_code_value (code : option Z) : jsval :=
  match code with
  | Some n => JNum (Number.of_Z n)
  | None => JNull
  end.

Definition claude_complete (code : option Z) (isNewSession : bool) : jsval :=
  message_of "claude-complete"
             [("exitCode", exit_code_value code); ("isNewSession", JBool isNewSession)].

(** The [type] of a message. *)
Definition message_type (m : jsval) : option string :=
  match m with
  | JObj props =>
      match JSON.lookup "type" props with
      | Some (JStr t) => Some t
      | _ => None
      end
  | _ => None
  end.

(** The message is a session-created announcement. *)
Definition announces_session (m : jsval) : bool :=
  match message_type m with
  | Some t => String.eqb t "session-created"
  | None => false
  end.


(** [s.split('\n')] *)
Fixpoint split_lines (s : string) : list string :=
  match s with
  | EmptyString => [""]
  | String c r =>
      if Ascii.eqb c (ascii_of_nat 10) then "" :: split_lines r
      else match split_lines r with
           | first :: others => String c first :: others
           | [] => [String c ""]
           end
  end.

(** The code units below 256 that [trim] strips. *)
Definition is_space (c : ascii) : bool :=
  let n := nat_of_ascii c in
  (Nat.leb 9 n && Nat.leb n 13) || Nat.eqb n 32 || Nat.eqb n 160.

(** [!line.trim()] *)
Fixpoint blank (line : string) : bool :=
  match line with
  | EmptyString => true
  | String c r => is_space c && blank r
  end.



(** The output of the child: its chunks, one after the other. *)
Definition output_of (chunks : list string) : string :=
  fold_right String.append "" chunks.

Section Handlers.

(** [JSON.parse] as the handlers see it.  It is a parameter here, so that
    what is proved of the handlers does not depend on which texts the
    fragment of [JSON.parse] above accepts. *)
Variable JSON_parse : string -> outcome jsval.

(** The body of [for (const line of lines)]: the [catch] branch is taken
    when [JSON.parse] raises, and also when reading [response.session_id]
    does. *)
Definition on_line (line : string) (p : Process) : Process :=
  match bind (JSON_parse line) (fun response =>
        bind (get response "session_id") (fun sid => Return (response, sid))) with
  | Return (response, sid) =>
      let p1 :=
        if truthy sid && negb (truthy (capturedSessionId p)) then
          let p' := capture sid p in
          if negb (truthy (sessionId p')) && negb (sessionCreatedSent p')
          then send (session_created sid) (mark_session_created p')
          else p'
        else p in
      send (claude_response response) p1
  | Throw parseError => send (claude_output line) p
  end.

(** [claudeProcess.stdout.on('data', ...)] *)
Definition on_stdout (data : string) (p : Process) : Process :=
  let lines := filter (fun line => negb (blank line)) (split_lines data) in
  fold_left (fun q line => on_line line q) lines p.

(** [claudeProcess.stderr.on('data', ...)] *)
Definition on_stderr (data : string) (p : Process) : Process :=
  send (claude_error data) p.

Definition exit_code_text (code : option Z) : string :=
  match code with
  | Some n => JSON.number_text n
  | None => "null"
  end.

(** [claudeProcess.on('close', ...)] *)
Definition on_close (code : option Z) (p : Process) : Process :=
  let isNewSession := negb (truthy (sessionId p))
                      && negb (String.eqb (command p) "") in
  let p1 := send (claude_complete code isNewSession) p in
  match code with
  | Some 0%Z => settle (Return tt) p1
  | _ => settle (Throw {| message := "Claude CLI exited with code "
                                     ++ exit_code_text code |}) p1
  end.

(** [claudeProcess.on('error', ...)]: the child could not be spawned (or
    could not be killed, or a message to it failed). *)
Definition on_error (error : Error) (p : Process) : Process :=
  settle (Throw error) (send (claude_error (message error)) p).

Inductive ChildEvent : Type :=
| stdout_data (data : string)
| stderr_data (data : string)
| close (code : option Z)
| error (e : Error).

Definition handle (ev : ChildEvent) (p : Process) : Process :=
  match ev with
  | stdout_data data => on_stdout data p
  | stderr_data data => on_stderr data p
  | close code => on_close code p
  | error e => on_error e p
  end.

Definition run (events : list ChildEvent) (p : Process) : Process :=
  fold_left (fun q ev => handle ev q) events p.

End Handlers.

End ClaudeCli.

(** ** Class [JobWorker] ([src/server/projects.js], second half) *)
Module JobWorker.
Import JobDb.

(** What [this.emit] publishes.  [job-output], which [executeJob] emits
    for the messages of a running child, is not modelled: the execution
    of a job appears below by its result only. *)
Inductive Event : Type :=
| job_queued (jobId : Z) (projectName : string) (sessionId : option string)
             (command : string)
| job_started (jobId : Z) (projectName : string) (sessionId : option string)
              (command : string)
| job_completed (jobId : Z) (projectName : string) (sessionId : option string)
| job_failed (jobId : Z) (projectName : string) (error : string)
| project_worker_stopped (projectName : string)
| jobs_update (activeJobs : list Job) (workingProjects : list string).

(** A worker object.  [currentPromise = Some job] stands for the pending
    promise of [executeJob(job)], on which [processProjectJobs] is
    suspended; the closure that resumes after it holds this [job]. *)
Record Worker : Type := {
  projectName : string;
  isRunning : bool;
  currentJobId : option Z;
  currentPromise : option Job
}.

(** Callbacks handed to [setImmediate]. *)
Inductive Task : Type :=
| StartProjectWorker (projectName : string)
| ProcessProjectJobs (projectName : string).

(** The singleton [jobWorker], the database it works on, the events it
    has emitted (oldest first) and the callbacks it has queued. *)
Record State : Type := {
  db : Database;
  projectWorkers : list (string * Worker);   (* a Map, in insertion order *)
  isShuttingDown : bool;
  maxConcurrentProjects : nat;
  emitted : list Event;
  immediates : list Task
}.

(** *** The Map [projectWorkers] *)

Fixpoint map_get (k : string) (m : list (string * Worker)) : option Worker :=
  match m with
  | [] => None
  | (k', w) :: rest => if String.eqb k k' then Some w else map_get k rest
  end.

Definition map_has (k : string) (m : list (string * Worker)) : bool :=
  match map_get k m with
  | Some _ => true
  | None => false
  end.

Fixpoint map_set (k : string) (w : Worker) (m : list (string * Worker))
  : list (string * Worker) :=
  match m with
  | [] => [(k, w)]
  | (k', w') :: rest =>
      if String.eqb k k' then (k, w) :: rest else (k', w') :: map_set k w rest
  end.

Definition map_delete (k : string) (m : list (string * Worker))
  : list (string * Worker) :=
  filter (fun e => negb (String.eqb k (fst e))) m.

Definition map_keys (m : list (string * Worker)) : list string := map fst m.

(** *** State updates *)

Definition with_db (d : Database) (s : State) : State :=
  {| db := d; projectWorkers := projectWorkers s;
     isShuttingDown := isShuttingDown s;
     maxConcurrentProjects := maxConcurrentProjects s;
     emitted := emitted s; immediates := immediates s |}.

Definition with_workers (m : list (string * Worker)) (s : State) : State :=
  {| db := db s; projectWorkers := m;
     isShuttingDown := isShuttingDown s;
     maxConcurrentProjects := maxConcurrentProjects s;
     emitted := emitted s; immediates := immediates s |}.

Definition emit (e : Event) (s : State) : State :=
  {| db := db s; projectWorkers := projectWorkers s;
     isShuttingDown := isShuttingDown s;
     maxConcurrentProjects := maxConcurrentProjects s;
     emitted := emitted s ++ [e]; immediates := immediates s |}.

Definition setImmediate (t : Task) (s : State) : State :=
  {| db := db s; projectWorkers := projectWorkers s;
     isShuttingDown := isShuttingDown s;
     maxConcurrentProjects := maxConcurrentProjects s;
     emitted := emitted s; immediates := immediates s ++ [t] |}.

(** Assignments to the fields of the worker object of a project; they
    reach the Map only while the object is still in it. *)
Definition set_worker (p : string) (w : Worker) (s : State) : State :=
  if map_has p (projectWorkers s)
  then with_workers (map_set p w (projectWorkers s)) s
  else s.

(** [new JobWorker()], over a given database. *)
Definition create (d : Database) : State :=
  {| db := d; projectWorkers := []; isShuttingDown := false;
     maxConcurrentProjects := 10; emitted := []; immediates := [] |}.

Definition empty_database : Database :=
  {| jobs := []; sequence := 0; fault := None |}.

(** *** processProjectJobs

    The function is [async]: it runs up to [await worker.currentPromise]
    ([processProjectJobs]), and resumes when that promise settles
    ([resumeProjectJobs]).  Both return the state they leave and, as
    [Some e], the error with which the promise of the call rejects. *)

(** The [finally] block. *)
Definition finally_block (p : string) (s : State) : State :=
  set_worker p {| projectName := p; isRunning := false;
                  currentJobId := None; currentPromise := None |} s.

(** The [catch (error)] block, for the worker object [worker]. *)
Definition catch_block (p : string) (worker : Worker) (error : Error) (now : Z)
    (s : State) : outcome State :=
  match currentJobId worker with
  | Some jobId =>
      if truthy_number (currentJobId worker) then
        bind (updateJobStatus jobId failed (Some (message error)) now (db s))
             (fun d => Return (emit (job_failed jobId p (message error)) (with_db d s)))
      else Return s
  | None => Return s
  end.

(** The statements after the [try]: they run unless the [try] returned or
    the [catch] raised. *)
Definition continue (p : string) (s : State) : State :=
  if isShuttingDown s then s else setImmediate (ProcessProjectJobs p) s.

(** [catch], [finally], and what follows. *)
Definition recover (p : string) (worker : Worker) (error : Error) (now : Z)
    (s : State) : State * option Error :=
  match catch_block p worker error now s with
  | Return s' => (continue p (finally_block p s'), None)
  | Throw e => (finally_block p s, Some e)
  end.

Definition processProjectJobs (p : string) (now : Z) (s : State)
  : State * option Error :=
  match map_get p (projectWorkers s) with
  | None => (s, None)
  | Some worker =>
      if isShuttingDown s then (s, None)
      else
        match getNextJobForProject p (db s) with
        | Throw error => recover p worker error now s
        | Return None =>
            (emit (project_worker_stopped p)
                  (with_workers (map_delete p (projectWorkers s)) s), None)
        | Return (Some job) =>
            match updateJobStatus (id job) running None now (db s) with
            | Throw error => recover p worker error now s
            | Return d =>
                (emit (job_started (id job) (project_name job)
                                   (session_id job) (command job))
                      (set_worker p {| projectName := p; isRunning := true;
                                       currentJobId := Some (id job);
                                       currentPromise := Some job |}
                                  (with_db d s)), None)
            end
        end
  end.

(** The rest of [processProjectJobs], once [executeJob(job)] has settled
    with [result].  It is enabled for a worker that is suspended only. *)
Definition resumeProjectJobs (p : string) (result : outcome unit) (now : Z)
    (s : State) : State * option Error :=
  match map_get p (projectWorkers s) with
  | None => (s, None)
  | Some worker =>
      match currentPromise worker with
      | None => (s, None)
      | Some job =>
          match result with
          | Return _ =>
              match updateJobStatus (id job) completed None now (db s) with
              | Return d =>
                  (continue p
                     (finally_block p
                        (emit (job_completed (id job) (project_name job)
                                             (session_id job))
                              (with_db d s))), None)
              | Throw error => recover p worker error now s
              end
          | Throw error => recover p worker error now s
          end
      end
  end.

(** *** The other methods *)

Definition startProjectWorker (p : string) (now : Z) (s : State)
  : State * option Error :=
  if map_has p (projectWorkers s) then (s, None)
  else processProjectJobs p now
         (with_workers
            (map_set p {| projectName := p; isRunning := false;
                          currentJobId := None; currentPromise := None |}
                     (projectWorkers s)) s).

(** [new Set(names)], by first occurrence. *)
Fixpoint unique (names : list string) : list string :=
  match names with
  | [] => []
  | n :: rest => n :: filter (fun m => negb (String.eqb m n)) (unique rest)
  end.

Definition startJobPolling (now : Z) (s : State) : State :=
  if isShuttingDown s then s
  else
    match getActiveJobs (db s) with
    | Throw _ => s
    | Return activeJobs =>
        let projectsWithJobs := unique (map (fun j => project_name j) activeJobs) in
        let s' :=
          fold_left
            (fun q p =>
               if negb (map_has p (projectWorkers q))
                  && Nat.ltb (List.length (projectWorkers q)) (maxConcurrentProjects q)
               then fst (startProjectWorker p now q)
               else q)
            projectsWithJobs s in
        emit (jobs_update activeJobs (map_keys (projectWorkers s'))) s'
    end.

(** [command ? command.substring(0, 100) + '...' : '[Continue/Resume]'] *)
Definition queued_command (command : string) : string :=
  if String.eqb command "" then "[Continue/Resume]"
  else substring 0 100 command ++ "...".

Definition addJob (p : string) (sessionId : option string) (command : string)
    (options : jsval) (userId : option Z) (priority : Z) (now : Z) (s : State)
  : outcome (Z * State) :=
  bind (JobDb.addJob p sessionId command options userId priority now (db s))
       (fun r =>
          let s1 := emit (job_queued (fst r) p sessionId (queued_command command))
                         (with_db (snd r) s) in
          Return (fst r,
                  if negb (map_has p (projectWorkers s1))
                     && Nat.ltb (List.length (projectWorkers s1))
                                (maxConcurrentProjects s1)
                  then setImmediate (StartProjectWorker p) s1
                  else s1)).

Definition new_Date (t : option Z) : Z :=
  match t with
  | Some ms => ms
  | None => 0%Z
  end.

Definition RECOVERY_MESSAGE : string := "Job timeout - marked for recovery".

(** [stuckJobs]: the filter of [recoverStuckJobs]. *)
Definition stuck {O : Type} (now : Z) (job : JobOf O) : bool :=
  Status_eqb (status job) running
  && Z.ltb (new_Date (started_at job)) (now - 30 * 60 * 1000)%Z.

(** The [for] loop of [recoverStuckJobs]; a statement that raises ends it. *)
Fixpoint mark_failed (stuckJobs : list Job) (now : Z) (d : Database) : Database :=
  match stuckJobs with
  | [] => d
  | job :: rest =>
      match updateJobStatus (id job) failed (Some RECOVERY_MESSAGE) now d with
      | Return d' => mark_failed rest now d'
      | Throw _ => d
      end
  end.

Definition recoverStuckJobs (now : Z) (s : State) : State :=
  match getActiveJobs (db s) with
  | Throw _ => s
  | Return activeJobs =>
      with_db (mark_failed (filter (stuck now) activeJobs) now (db s)) s
  end.

(** The callback of [cleanupInterval]. *)
Definition cleanupTick (s : State) : State :=
  match cleanupOldJobs None (db s) with
  | Return d => with_db d s
  | Throw _ => s
  end.

(** [stop()], up to the wait for the workers. *)
Definition stop (s : State) : State :=
  {| db := db s; projectWorkers := projectWorkers s;
     isShuttingDown := true;
     maxConcurrentProjects := maxConcurrentProjects s;
     emitted := emitted s; immediates := immediates s |}.

Record JobStatus : Type := {
  activeJobs : list Job;
  workingProjects : list string;
  totalWorkers : nat;
  maxConcurrentProjects_ : nat
}.

Definition getJobStatus (s : State) : outcome JobStatus :=
  match getActiveJobs (db s) with
  | Return active =>
      Return {| activeJobs := active;
                workingProjects := map_keys (projectWorkers s);
                totalWorkers := List.length (projectWorkers s);
                maxConcurrentProjects_ := maxConcurrentProjects s |}
  | Throw error =>
      Return {| activeJobs := [];
                workingProjects := [];
                totalWorkers := 0;
                maxConcurrentProjects_ := maxConcurrentProjects s |}
  end.

(** *** The runs of the system *)

Fixpoint remove_task (t : Task) (queue : list Task) : list Task :=
  match queue with
  | [] => []
  | u :: rest =>
      match t, u with
      | StartProjectWorker a, StartProjectWorker b
      | ProcessProjectJobs a, ProcessProjectJobs b =>
          if String.eqb a b then rest else u :: remove_task t rest
      | _, _ => u :: remove_task t rest
      end
  end.

Definition dequeue (t : Task) (s : State) : State :=
  {| db := db s; projectWorkers := projectWorkers s;
     isShuttingDown := isShuttingDown s;
     maxConcurrentProjects := maxConcurrentProjects s;
     emitted := emitted s; immediates := remove_task t (immediates s) |}.

Definition run_task (t : Task) (now : Z) (s : State) : State :=
  match t with
  | StartProjectWorker p => fst (startProjectWorker p now (dequeue t s))
  | ProcessProjectJobs p => fst (processProjectJobs p now (dequeue t s))
  end.

(** The promise of [executeJob(job)] settles as the promise of
    [spawnClaude(job.command, job.options, mockWs)] does. *)
Definition settles (job : Job) (events : list ClaudeCli.ChildEvent)
    (result : outcome unit) : Prop :=
  exists child,
    ClaudeCli.spawn (command job) (options job) = Return child /\
    ClaudeCli.settled (ClaudeCli.run JSON.parse events child) = Some result.

(** The states of the server: it starts on an empty table; jobs are
    added through [addJob]; timers fire; queued callbacks run; the child
    of a suspended worker ends; the connection to the database breaks or
    heals; the server process is replaced by a new one on the same file. *)
Inductive reachable : State -> Prop :=
| reach_start :
    reachable (create empty_database)
| reach_addJob s p sessionId command options userId priority now jobId s' :
    reachable s ->
    addJob p sessionId command options userId priority now s = Return (jobId, s') ->
    reachable s'
| reach_poll s now :
    reachable s -> reachable (startJobPolling now s)
| reach_recover s now :
    reachable s -> isShuttingDown s = false -> reachable (recoverStuckJobs now s)
| reach_cleanup s :
    reachable s -> isShuttingDown s = false -> reachable (cleanupTick s)
| reach_immediate s t now :
    reachable s -> In t (immediates s) -> reachable (run_task t now s)
| reach_settle s p worker job events result now :
    reachable s ->
    map_get p (projectWorkers s) = Some worker ->
    currentPromise worker = Some job ->
    settles job events result ->
    reachable (fst (resumeProjectJobs p result now s))
| reach_stop s :
    reachable s -> reachable (stop s)
| reach_fault s condition :
    reachable s ->
    reachable (with_db {| jobs := jobs (db s); sequence := sequence (db s);
                          fault := condition |} s)
| reach_restart s :
    reachable s -> reachable (create (db s)).

End JobWorker.

(** ** The notions the properties are stated with *)
Module Spec.
Import JobDb.
Local Open Scope Z_scope.

(** Some job of the project is running in session [sid]. *)
Definition running_session (p : string) (rows : list Row) (sid : string) : Prop :=
  exists x, In x rows /\ project_name x = p /\ status x = running
            /\ session_id x = Some sid.

(** A candidate of the project: pending or failed and, when some job of
    the project is running in a session, in no session or in one that
    differs from every running one. *)
Definition candidate (p : string) (rows : list Row) (r : Row) : Prop :=
  In r rows /\ project_name r = p
  /\ (status r = pending \/ status r = failed)
  /\ ((exists sid, running_session p rows sid) ->
      session_id r = None
      \/ forall sid, running_session p rows sid -> session_id r <> Some sid).

(** The order of the claim, on pending and failed jobs: pending before
    failed, then the higher priority, then the earlier creation. *)
Definition precedes (a b : Row) : Prop :=
  (status a = pending /\ status b = failed)
  \/ (status a = status b
      /\ (priority a > priority b
          \/ (priority a = priority b /\ created_at a <= created_at b))).

(** The job [j] is the stored row [r] as a query hands it out: column by
    column the value of [r], and for [options] what [JSON.parse] reads
    from the stored text. *)
Definition hands_out (r : Row) (j : Job) : Prop :=
  id j = id r
  /\ project_name j = project_name r
  /\ session_id j = session_id r
  /\ command j = command r
  /\ JSON.parse (options r) = Return (options j)
  /\ status j = status r
  /\ priority j = priority r
  /\ created_at j = created_at r
  /\ started_at j = started_at r
  /\ completed_at j = completed_at r
  /\ error_message j = error_message r
  /\ user_id j = user_id r.

(** Every stored [options] text is one [JSON.parse] reads. *)
Definition options_parse (rows : list Row) : Prop :=
  forall r, In r rows -> exists o, JSON.parse (options r) = Return o.

(** [b] did not complete later than [a], a job that never completed
    counting as the earliest. *)
Definition completed_no_later (b a : Row) : Prop :=
  match completed_at b, completed_at a with
  | None, _ => True
  | Some _, None => False
  | Some x, Some y => x <= y
  end.

(** Completed or failed, and of project [p]. *)
Definition finished_of (p : string) (r : Row) : Prop :=
  project_name r = p /\ (status r = completed \/ status r = failed).

(** No two distinct jobs of one project that share a session are running
    together. *)
Definition session_exclusive_in_project (rows : list Row) : Prop :=
  forall a b sid,
    In a rows -> In b rows -> id a <> id b ->
    project_name a = project_name b ->
    session_id a = Some sid -> session_id b = Some sid ->
    ~ (status a = running /\ status b = running).

(** The same, whatever the projects of the two jobs. *)
Definition session_exclusive (rows : list Row) : Prop :=
  forall a b sid,
    In a rows -> In b rows -> id a <> id b ->
    session_id a = Some sid -> session_id b = Some sid ->
    ~ (status a = running /\ status b = running).

(** The ids of the table are those the AUTOINCREMENT counter has given
    out, each once. *)
Definition ids_ok (d : Database) : Prop :=
  NoDup (map id (jobs d))
  /\ 0 <= sequence d
  /\ forall r, In r (jobs d) -> 1 <= id r <= sequence d.

(** [r] is a job of project [q]. *)
Definition of_project (q : string) (r : Row) : bool :=
  String.eqb (project_name r) q.

(** [r] is a completed or failed job of project [q]. *)
Definition finished_job (q : string) (r : Row) : bool :=
  of_project q r
  && match status r with
     | completed | failed => true
     | pending | running => false
     end.

(** The effect of the retention clean-up of project [q] on a table: what
    is not a completed or failed job of [q] stays as it is and where it
    is; nothing is added; of the completed and failed jobs of [q] the 100
    that completed last remain (all of them if they are fewer); the rows
    that remain are rows of the table before, each as often as it was
    there and in the order of the table. *)
Definition retention (q : string) (before after : list Row) : Prop :=
  filter (fun r => negb (finished_job q r)) after
  = filter (fun r => negb (finished_job q r)) before
  /\ (forall r, In r after -> In r before)
  /\ List.length (filter (finished_job q) after)
     = Nat.min 100 (List.length (filter (finished_job q) before))
  /\ (forall kept gone,
         In kept after -> finished_job q kept = true ->
         In gone before -> finished_job q gone = true -> ~ In gone after ->
         completed_no_later gone kept)
  /\ (exists remains : Row -> bool, after = filter remains before).

(** A change of rows that leaves id, project, session and options alone. *)
Definition keeps_identity (f : Row -> Row) : Prop :=
  forall r, id (f r) = id r /\ project_name (f r) = project_name r
            /\ session_id (f r) = session_id r /\ options (f r) = options r.

(** What the UPDATE of [updateJobStatus] does to a row. *)
Definition set_status_of (jobId : Z) (st : Status) (msg : option string) (now : Z)
    (r : Row) : Row :=
  if id r =? jobId then updated st msg now r else r.

(** What holds of the table in every state of the server. *)
Definition store_ok (d : Database) : Prop :=
  ids_ok d
  /\ session_exclusive_in_project (jobs d)
  /\ options_parse (jobs d).

(** A worker object that, when suspended on a job, holds its id. *)
Definition holds_job_id (w : JobWorker.Worker) : Prop :=
  forall job, JobWorker.currentPromise w = Some job ->
              JobWorker.currentJobId w = Some (id job) /\ 1 <= id job.

(** A worker suspended on a job holds the id of that job. *)
Definition workers_ok (workers : list (string * JobWorker.Worker)) : Prop :=
  forall p w job,
    JobWorker.map_get p workers = Some w ->
    JobWorker.currentPromise w = Some job ->
    JobWorker.currentJobId w = Some (id job) /\ 1 <= id job.

Definition invariant (s : JobWorker.State) : Prop :=
  store_ok (JobWorker.db s) /\ workers_ok (JobWorker.projectWorkers s).

End Spec.

(** ** Sample tables and states, for the examples below *)
Module Samples.
Import JobDb.
Local Open Scope Z_scope.

(** A stored job with empty options. *)
Definition row (i : Z) (p : string) (sid : option string) (st : Status)
    (prio created : Z) : Row :=
  mkJob i p sid "run tests" "{}" st prio created None None None None.

Definition table (rows : list Row) : Database :=
  {| jobs := rows; sequence := Z.of_nat (List.length rows); fault := None |}.

(** The three pending jobs A, B, C of one project, and a failed job of
    higher priority. *)
Definition queue : Database :=
  table [ row 1 "alpha" None pending 0 100;
          row 2 "alpha" None pending 5 200;
          row 3 "alpha" None pending 5 300;
          row 4 "alpha" None failed 9 50 ].

(** A job that failed before, with its diagnostic. *)
Definition failed_before : Database :=
  table [ mkJob 1 "alpha" None "run tests" "{}" running 0 100
                (Some 150) None (Some "first failure") None ].

(** A backlog of 101 completed jobs of one project; job [i] completed at
    [1000 + i]. *)
Definition finished_row (i : nat) : Row :=
  mkJob (Z.of_nat i) "alpha" None "run tests" "{}" completed 0 100
        (Some 150) (Some (1000 + Z.of_nat i)) None None.

Definition backlog : Database := table (map finished_row (seq 1 101)).

(** The backlog, and a job queued for the project with the empty name. *)
Definition backlog_and_unnamed : Database :=
  match addJob "" None "run tests" (JObj []) None 0 5000 backlog with
  | Return (_, d) => d
  | Throw _ => backlog
  end.

(** A run of the server: a job is queued for project alpha and one for
    project beta, both in session ses-1; then the worker of alpha starts
    and claims its job; then the worker of beta does. *)
Definition queued_alpha : JobWorker.State :=
  match JobWorker.addJob "alpha" (Some "ses-1") "run tests" (JObj []) None 0 100
                         (JobWorker.create JobWorker.empty_database) with
  | Return (_, s) => s
  | Throw _ => JobWorker.create JobWorker.empty_database
  end.

Definition queued_both : JobWorker.State :=
  match JobWorker.addJob "beta" (Some "ses-1") "run tests" (JObj []) None 0 200
                         queued_alpha with
  | Return (_, s) => s
  | Throw _ => queued_alpha
  end.

Definition alpha_running : JobWorker.State :=
  JobWorker.run_task (JobWorker.StartProjectWorker "alpha") 300 queued_both.

Definition both_running : JobWorker.State :=
  JobWorker.run_task (JobWorker.StartProjectWorker "beta") 400 alpha_running.

(** A run with a restart.  Job 1 of alpha, of session ses-1, is running
    when the server process is replaced by a new one; then job 2, of
    session ses-2, and job 3, of session ses-1, are queued for alpha; the
    new worker of alpha claims job 2, its child exits with code 0, and
    the worker is about to claim again. *)
Definition alpha_alone_running : JobWorker.State :=
  JobWorker.run_task (JobWorker.StartProjectWorker "alpha") 300 queued_alpha.

Definition restarted : JobWorker.State :=
  JobWorker.create (JobWorker.db alpha_alone_running).

Definition queued_second : JobWorker.State :=
  match JobWorker.addJob "alpha" (Some "ses-2") "run tests" (JObj []) None 0 400
                         restarted with
  | Return (_, s) => s
  | Throw _ => restarted
  end.

Definition queued_third : JobWorker.State :=
  match JobWorker.addJob "alpha" (Some "ses-1") "run tests" (JObj []) None 0 500
                         queued_second with
  | Return (_, s) => s
  | Throw _ => queued_second
  end.

Definition second_running : JobWorker.State :=
  JobWorker.run_task (JobWorker.StartProjectWorker "alpha") 600 queued_third.

Definition second_done : JobWorker.State :=
  fst (JobWorker.resumeProjectJobs "alpha" (Return tt) 700 second_running).

(** The error of a child that could not be started. *)
Definition ENOENT : Error := {| message := "spawn claude ENOENT" |}.

(** A text of [n] characters. *)
Fixpoint padding (n : nat) : string :=
  match n with
  | O => ""
  | S k => String "x" (padding k)
  end.

(** The child of a job with the command "run tests" and empty options. *)
Definition child : ClaudeCli.Process :=
  {| ClaudeCli.command := "run tests";
     ClaudeCli.sessionId := JUndefined;
     ClaudeCli.capturedSessionId := JUndefined;
     ClaudeCli.sessionCreatedSent := false;
     ClaudeCli.sent := [];
     ClaudeCli.settled := None |}.

Definition newline : string := String (ascii_of_nat 10) "".


(** The output of a child in two chunks that end where a line ends, and
    the line [[1,2]] in two chunks that cut it. *)
Definition chunks : list string :=
  ["{}" ++ newline ++ "   " ++ newline ++ "oops" ++ newline;
   "null" ++ newline ++ "{}"].


(** Options with a property whose value is [undefined]. *)
Definition resume_undefined : jsval := JObj [("resume", JUndefined)].

(** Options with Numbers that no JSON text denotes. *)
Definition timeout_unset : jsval := JObj [("timeout", JNum Number.NaN)].
Definition budget_unbounded : jsval := JObj [("budget", JNum (Number.Infinity false))].
Definition offset_negative_zero : jsval := JObj [("offset", JNum Number.NegZero)].

(** Options as a caller sends them. *)
Definition plain_options : jsval :=
  JObj [("cwd", JStr "/srv/app"); ("resume", JBool false);
        ("toolsSettings", JObj [("allowedTools", JArr [JStr "Read"; JStr "Bash"]);
                                ("skipPermissions", JBool false)]);
        ("images", JArr []); ("retries", JNum (Number.literal "3"));
        ("temperature", JNum (Number.literal "0.1"));
        ("budget", JNum (Number.literal "1e+21"))].

(** The sample queue, and a job with these options added to it. *)
Definition queue_with_options : Database :=
  match addJob "alpha" None "run tests" plain_options None 0 400 queue with
  | Return (_, d) => d
  | Throw _ => queue
  end.

(** The state in which [startProjectWorker("alpha")] calls
    [processProjectJobs], in the run above. *)
Definition alpha_started : JobWorker.State :=
  JobWorker.with_workers
    [("alpha", {| JobWorker.projectName := "alpha"; JobWorker.isRunning := false;
                  JobWorker.currentJobId := None; JobWorker.currentPromise := None |})]
    (JobWorker.dequeue (JobWorker.StartProjectWorker "alpha") queued_both).





(** Job 1 of the run above, as [getNextJobForProject] returns it. *)
Definition job1 : Job :=
  with_options (row 1 "alpha" (Some "ses-1") pending 0 100) (JObj []).

End Samples.

(** ** server/claude-cli.js: the command line and the stdin of the child

    The part of [spawnClaude] before the handlers.  What it reads from
    the file system is an argument here: [imagePaths] is [tempImagePaths]
    when the block that writes the images has run to its end (the empty
    list when there are no images, or when writing them raised), and
    [configPath] is the path of [~/.claude.json] when the check found MCP
    servers in it. *)
Module SpawnClaude.

(** [toolsSettings]; a list that is [None] is a missing property. *)
Record ToolsSettings : Type := {
  allowedTools : option (list string);
  disallowedTools : option (list string);
  skipPermissions : bool
}.

(** The properties of [options] that the command line depends on;
    [None] is [undefined] (or [null]), [resume] the truth value of the
    property. *)
Record Options : Type := {
  sessionId : option string;
  resume : bool;
  toolsSettings : option ToolsSettings;
  permissionMode : option string
}.

Definition newline : string := String (ascii_of_nat 10) "".

(** [toolsSettings || { allowedTools: [], disallowedTools: [], skipPermissions: false }] *)
Definition settings (o : Options) : ToolsSettings :=
  match toolsSettings o with
  | Some s => s
  | None => {| allowedTools := Some []; disallowedTools := Some [];
               skipPermissions := false |}
  end.

(** [command && command.trim()] *)
Definition has_text (command : string) : bool :=
  negb (String.eqb command "") && negb (ClaudeCli.blank command).

(** [tempImagePaths.map((p, i) => `${i + 1}. ${p}`)], from index [i]. *)
Fixpoint numbered (i : Z) (paths : list string) : list string :=
  match paths with
  | [] => []
  | p :: rest => (JSON.number_text (i + 1) ++ ". " ++ p) :: numbered (i + 1) rest
  end.

Definition imageNote (paths : list string) : string :=
  newline ++ newline ++ "[Images provided at the following paths:]" ++ newline
  ++ JSON.join newline (numbered 0 paths).

(** [--print] and the command, with the note on the images once they
    are written. *)
Definition print_args (command : string) (imagePaths : list string) : list string :=
  if has_text command
  then ["--print";
        if Nat.ltb 0 (List.length imagePaths) then command ++ imageNote imagePaths
        else command]
  else [].

Definition resume_args (o : Options) : list string :=
  match sessionId o with
  | Some sid => if resume o && truthy_text (Some sid) then ["--resume"; sid] else []
  | None => []
  end.

Definition mode_is (name : string) (o : Options) : bool :=
  match permissionMode o with
  | Some m => String.eqb m name
  | None => false
  end.

Definition mode_args (o : Options) : list string :=
  match permissionMode o with
  | Some m =>
      if truthy_text (Some m) && negb (String.eqb m "default")
      then ["--permission-mode"; m] else []
  | None => []
  end.

Definition planModeTools : list string :=
  ["Read"; "Task"; "exit_plan_mode"; "TodoRead"; "TodoWrite"].

(** The loop that adds the plan mode tools that are not yet allowed. *)
Definition with_plan_tools (allowed : list string) : list string :=
  fold_left (fun acc tool => if existsb (String.eqb tool) acc then acc
                             else (acc ++ [tool])%list)
            planModeTools allowed.

Definition listed (l : option (list string)) : list string :=
  match l with
  | Some tools => tools
  | None => []
  end.

Definition tool_args (o : Options) : list string :=
  if skipPermissions (settings o) && negb (mode_is "plan" o)
  then ["--dangerously-skip-permissions"]
  else
    let allowed := if mode_is "plan" o
                   then with_plan_tools (listed (allowedTools (settings o)))
                   else listed (allowedTools (settings o)) in
    (flat_map (fun tool => ["--allowedTools"; tool]) allowed
     ++ flat_map (fun tool => ["--disallowedTools"; tool])
                 (listed (disallowedTools (settings o))))%list.

(** The argument vector handed to [spawn]. *)
Definition args (command : string) (o : Options) (imagePaths : list string)
    (configPath : option string) : list string :=
  (print_args command imagePaths
   ++ resume_args o
   ++ ["--output-format"; "stream-json"; "--verbose"]
   ++ match configPath with
      | Some path => ["--mcp-config"; path]
      | None => []
      end
   ++ (if negb (resume o) then ["--model"; "sonnet"] else [])
   ++ mode_args o
   ++ tool_args o)%list.

(** What is written to the stdin of the child before it is ended, for a
    command that is a string: nothing for a command that is not empty,
    the command and a line feed otherwise. *)
Definition stdin_text (command : string) : option string :=
  if negb (String.eqb command "") then None else Some (command ++ newline).

(** *** The registry [activeClaudeProcesses]

    A Map from a key to a child; [same_key] is the equality of Map keys.
    A child is named by its pid, and the [SIGTERM] signals sent are
    recorded, oldest first. *)
Section Registry.
Variable Key : Type.
Variable same_key : Key -> Key -> bool.

Record Tracked : Type := {
  activeClaudeProcesses : list (Key * nat);
  killed : list nat
}.

Fixpoint registry_get (k : Key) (m : list (Key * nat)) : option nat :=
  match m with
  | [] => None
  | (k', child) :: rest => if same_key k k' then Some child else registry_get k rest
  end.

Definition registry_delete (k : Key) (m : list (Key * nat)) : list (Key * nat) :=
  filter (fun e => negb (same_key k (fst e))) m.

Definition abortClaudeSession (sessionId : Key) (t : Tracked) : bool * Tracked :=
  match registry_get sessionId (activeClaudeProcesses t) with
  | Some child =>
      (true, {| activeClaudeProcesses := registry_delete sessionId (activeClaudeProcesses t);
                killed := (killed t ++ [child])%list |})
  | None => (false, t)
  end.

Definition killAllActiveClaudeProcesses (t : Tracked) : Tracked :=
  {| activeClaudeProcesses := [];
     killed := (killed t ++ map snd (activeClaudeProcesses t))%list |}.

End Registry.

End SpawnClaude.

(** ** server/database/db.js ([src/unnamed/part_000]): the [users] table and [userDb] *)
Module UserDb.
Local Open Scope Z_scope.

(** A row of [CREATE TABLE users]. *)
Record User : Type := {
  id : Z;
  username : string;
  password_hash : string;
  created_at : Z;
  last_login : option Z;
  is_active : bool
}.

(** The [users] table in rowid order, its AUTOINCREMENT counter, and the
    condition of the connection, as in [JobDb.Database]. *)
Record Database : Type := {
  users : list User;
  sequence : Z;
  fault : option Error
}.

(** The error of an INSERT that breaks [username TEXT UNIQUE]. *)
Definition UniqueError : Error :=
  {| message := "UNIQUE constraint failed: users.username" |}.

Definition largest_rowid (rows : list User) : Z :=
  fold_right (fun u m => Z.max (id u) m) 0 rows.

(** [SELECT COUNT( * ) as count FROM users], then [row.count > 0]. *)
Definition hasUsers (db : Database) : outcome bool :=
  match fault db with
  | Some e => Throw e
  | None => Return (0 <? Z.of_nat (List.length (users db)))
  end.

(** [createUser]: the INSERT; [created_at] and [is_active] take their
    column defaults.  It returns [{ id: result.lastInsertRowid, username }]. *)
Definition createUser (username_ passwordHash : string) (now : Z) (db : Database)
  : outcome ((Z * string) * Database) :=
  match fault db with
  | Some e => Throw e
  | None =>
      if existsb (fun u => String.eqb (username u) username_) (users db)
      then Throw UniqueError
      else
        let lastInsertRowid := Z.max (sequence db) (largest_rowid (users db)) + 1 in
        Return ((lastInsertRowid, username_),
                {| users := users db
                            ++ [{| id := lastInsertRowid; username := username_;
                                   password_hash := passwordHash; created_at := now;
                                   last_login := None; is_active := true |}];
                   sequence := lastInsertRowid;
                   fault := fault db |})
  end.

(** [SELECT * FROM users WHERE username = ? AND is_active = 1], first row. *)
Definition getUserByUsername (username_ : string) (db : Database)
  : outcome (option User) :=
  match fault db with
  | Some e => Throw e
  | None =>
      Return (find (fun u => String.eqb (username u) username_ && is_active u) (users db))
  end.

(** [UPDATE users SET last_login = CURRENT_TIMESTAMP WHERE id = ?] *)
Definition updateLastLogin (userId : Z) (now : Z) (db : Database) : outcome Database :=
  match fault db with
  | Some e => Throw e
  | None =>
      Return {| users := map (fun u => if id u =? userId
                                       then {| id := id u; username := username u;
                                               password_hash := password_hash u;
                                               created_at := created_at u;
                                               last_login := Some now;
                                               is_active := is_active u |}
                                       else u) (users db);
                sequence := sequence db;
                fault := fault db |}
  end.

(** The columns [getUserById] selects: the password hash is not among
    them. *)
Record Profile : Type := {
  profile_id : Z;
  profile_username : string;
  profile_created_at : Z;
  profile_last_login : option Z
}.

(** [SELECT id, username, created_at, last_login FROM users
     WHERE id = ? AND is_active = 1], first row. *)
Definition getUserById (userId : Z) (db : Database) : outcome (option Profile) :=
  match fault db with
  | Some e => Throw e
  | None =>
      Return (option_map (fun u => {| profile_id := id u;
                                      profile_username := username u;
                                      profile_created_at := created_at u;
                                      profile_last_login := last_login u |})
                         (find (fun u => (id u =? userId) && is_active u) (users db)))
  end.

End UserDb.

(** ** server/projects.js ([src/server/projects.js], first half): names,
    paths, the configuration and the session files of a project

    The functions below are the ones of the file that compute on texts;
    what they read from the file system is an argument. *)
Module Projects.

Definition newline : string := String (ascii_of_nat 10) "".

(** [s.split(sep)], for a separator of one character. *)
Fixpoint split (sep : ascii) (s : string) : list string :=
  match s with
  | EmptyString => [""]
  | String c r =>
      if Ascii.eqb c sep then "" :: split sep r
      else match split sep r with
           | first :: others => String c first :: others
           | [] => [String c ""]
           end
  end.

(** [s.replace(/a/g, b)], for single characters [a] and [b]. *)
Fixpoint replace_all (a b : ascii) (s : string) : string :=
  match s with
  | EmptyString => ""
  | String c r => String (if Ascii.eqb c a then b else c) (replace_all a b r)
  end.

(** [projectName.replace(/-/g, '/')]: the path a project name stands
    for, when no session file tells. *)
Definition decoded (projectName : string) : string := replace_all "-" "/" projectName.

(** [absolutePath.replace(/\//g, '-')]: the project name
    [addProjectManually] makes of a path. *)
Definition encoded (absolutePath : string) : string := replace_all "/" "-" absolutePath.

(** [s.startsWith('/')] *)
Definition startsWith_slash (s : string) : bool :=
  match s with
  | String c _ => Ascii.eqb c "/"
  | EmptyString => false
  end.

(** [parts.filter(Boolean)] *)
Definition nonempty (parts : list string) : list string :=
  filter (fun part => negb (String.eqb part "")) parts.

(** [parts.slice(-2)] *)
Definition last_two {A : Type} (parts : list A) : list A :=
  skipn (List.length parts - 2) parts.

(** [parts[parts.length - 1]] *)
Definition last_part (parts : list string) : option string :=
  nth_error parts (List.length parts - 1).

Definition generateAbbreviatedPath (fullPath : string) : string :=
  if negb (startsWith_slash fullPath) then fullPath
  else
    let parts := nonempty (split "/" fullPath) in
    if Nat.ltb 3 (List.length parts) then ".../" ++ JSON.join "/" (last_two parts)
    else if Nat.ltb 1 (List.length parts) then JSON.join "/" (last_two parts)
    else if truthy_text (last_part parts)
         then match last_part parts with
              | Some part => part
              | None => fullPath
              end
         else fullPath.

(** [s.trim()], on the code units that [ClaudeCli.is_space] knows. *)
Fixpoint trim_start (s : string) : string :=
  match s with
  | EmptyString => ""
  | String c r => if ClaudeCli.is_space c then trim_start r else s
  end.

Fixpoint trim_end (s : string) : string :=
  match s with
  | EmptyString => ""
  | String c r =>
      match trim_end r with
      | EmptyString => if ClaudeCli.is_space c then "" else String c ""
      | rest => String c rest
      end
  end.

Definition trim (s : string) : string := trim_end (trim_start s).

(** The value of the own property [k] replaced, in its place. *)
Fixpoint replace_value (k : string) (v : jsval) (props : list (string * jsval))
  : list (string * jsval) :=
  match props with
  | [] => []
  | (k', v') :: rest =>
      if String.eqb k k' then (k, v) :: rest else (k', v') :: replace_value k v rest
  end.

(** A new own property [k], at its place in the enumeration: among the
    array indices if it is one, after all the properties otherwise. *)
Fixpoint add_property (k : string) (v : jsval) (props : list (string * jsval))
  : list (string * jsval) :=
  match props with
  | [] => [(k, v)]
  | (k', v') :: rest =>
      if JSON.before_key k' k then (k', v') :: add_property k v rest
      else (k, v) :: props
  end.

(** The assignment [object[k] = v] on the own properties of a plain
    object: the value of an own property is replaced, and a property the
    object does not have is added.  The key [__proto__] is special: where
    the object has no own property of that name the assignment runs the
    setter it inherits from [Object.prototype], which may change the
    prototype of the object and adds no property to it. *)
Definition assign (k : string) (v : jsval) (props : list (string * jsval))
  : list (string * jsval) :=
  match JSON.lookup k props with
  | Some _ => replace_value k v props
  | None => if String.eqb k "__proto__" then props else add_property k v props
  end.

(** [renameProject], from the configuration [loadProjectConfig] returned
    (a plain object with an entry per project) to the one handed to
    [saveProjectConfig], which writes its own properties. *)
Definition renameProject (projectName : string) (newDisplayName : option string)
    (config : list (string * jsval)) : list (string * jsval) :=
  match newDisplayName with
  | Some name =>
      if negb (truthy_text (Some name)) || String.eqb (trim name) ""
      then JSON.remove_key projectName config
      else assign projectName (JObj [("displayName", JStr (trim name))]) config
  | None => JSON.remove_key projectName config
  end.


Section Sessions.

(** [JSON.parse], as in [ClaudeCli]. *)
Variable JSON_parse : string -> outcome jsval.








End Sessions.

End Projects.

(** ** Class [JobWorker]: [start] and [executeJob] *)
Module JobExecution.
Import JobDb.





End JobExecution.

(** ** Further notions, for the properties of the code around the queue *)
Module Listing.
Import JobDb.
Local Open Scope Z_scope.

(** Pending or running: what the status display shows. *)
Definition active {O : Type} (j : JobOf O) : Prop :=
  status j = pending \/ status j = running.


(** The order of the history of a project: the later creation first. *)
Definition newer_first {O : Type} (a b : JobOf O) : Prop :=
  created_at b <= created_at a.

(** A job as a query hands it out, for the stored row [r]. *)
Definition read_from (r : Row) (j : Job) : Prop :=
  exists o, JSON.parse (options r) = Return o /\ j = with_options r o.

End Listing.

Module ChildRun.
Import ClaudeCli.





End ChildRun.

Module WorkerRun.
Import JobDb.
Local Open Scope Z_scope.


(** The worker object of a project between two jobs. *)
Definition idle (p : string) : JobWorker.Worker :=
  {| JobWorker.projectName := p; JobWorker.isRunning := false;
     JobWorker.currentJobId := None; JobWorker.currentPromise := None |}.

End WorkerRun.

Module Texts.


(** The character [c] occurs in [s]. *)
Fixpoint contains (c : ascii) (s : string) : bool :=
  match s with
  | EmptyString => false
  | String x r => Ascii.eqb x c || contains c r
  end.

(** Options for plan mode, with given tools settings. *)
Definition plan_options (sid : option string) (res : bool)
    (allowed disallowed : option (list string)) (skip : bool) : SpawnClaude.Options :=
  {| SpawnClaude.sessionId := sid;
     SpawnClaude.resume := res;
     SpawnClaude.toolsSettings :=
       Some {| SpawnClaude.allowedTools := allowed;
               SpawnClaude.disallowedTools := disallowed;
               SpawnClaude.skipPermissions := skip |};
     SpawnClaude.permissionMode := Some "plan" |}.

End Texts.

(** The lines of the output of a child, and what the consumer is handed
    for them. *)
Module OutputLines.








End OutputLines.

(** ** More sample inputs *)
Module Cases.
Import JobDb.
Local Open Scope Z_scope.

(** Jobs of two projects, in every status. *)
Definition mixed : Database :=
  Samples.table [ Samples.row 1 "beta" None pending 0 100;
                  Samples.row 2 "alpha" None running 0 200;
                  Samples.row 3 "alpha" None pending 7 300;
                  Samples.row 4 "alpha" None completed 0 50 ].

(** The backlog of 101 completed jobs after the clean-up of its
    project, and after one more job was added. *)
Definition cleaned : Database :=
  match cleanupOldJobs (Some "alpha") Samples.backlog with
  | Return d => d
  | Throw _ => Samples.backlog
  end.

Definition cleaned_plus : Database :=
  match addJob "alpha" None "run tests" (JObj []) None 0 5000 cleaned with
  | Return (_, d) => d
  | Throw _ => cleaned
  end.

(** The sample queue with one more job. *)
Definition queue_plus : Database :=
  match addJob "alpha" None "lint" (JObj []) None 0 400 Samples.queue with
  | Return (_, d) => d
  | Throw _ => Samples.queue
  end.

(** The sample run with job 1 running, with a store that raises. *)
Definition disk_full : Error := {| message := "database or disk is full" |}.

Definition store_down : JobWorker.State :=
  JobWorker.with_db
    {| jobs := jobs (JobWorker.db Samples.alpha_running);
       sequence := sequence (JobWorker.db Samples.alpha_running);
       fault := Some disk_full |}
    Samples.alpha_running.

(** Jobs for eleven projects, queued before any callback runs; then the
    callbacks of the first ten projects run. *)
Definition enqueue (p : string) (s : JobWorker.State) : JobWorker.State :=
  match JobWorker.addJob p None "run tests" (JObj []) None 0 0 s with
  | Return (_, s') => s'
  | Throw _ => s
  end.

Definition is_start (p : string) (t : JobWorker.Task) : bool :=
  match t with
  | JobWorker.StartProjectWorker q => String.eqb p q
  | JobWorker.ProcessProjectJobs _ => false
  end.

Definition start_if_queued (p : string) (s : JobWorker.State) : JobWorker.State :=
  if existsb (is_start p) (JobWorker.immediates s)
  then JobWorker.run_task (JobWorker.StartProjectWorker p) 0 s
  else s.

Definition ten_projects : list string :=
  ["p1"; "p2"; "p3"; "p4"; "p5"; "p6"; "p7"; "p8"; "p9"; "p10"].

Definition all_queued : JobWorker.State :=
  fold_left (fun s p => enqueue p s) (ten_projects ++ ["p11"])
            (JobWorker.create JobWorker.empty_database).

Definition ten_started : JobWorker.State :=
  fold_left (fun s p => start_if_queued p s) ten_projects all_queued.


(** A line of the output of a child, with the id of its session. *)
Definition output_of (session : string) : string :=
  "{" ++ JSON.quote "session_id" ++ ":" ++ JSON.quote session ++ "}".



(** Two tracked children. *)
Definition tracked : SpawnClaude.Tracked string :=
  {| SpawnClaude.activeClaudeProcesses := [("ses-1", 7%nat); ("ses-2", 8%nat)];
     SpawnClaude.killed := [] |}.

(** The users table with one user. *)
Definition one_user : UserDb.Database :=
  {| UserDb.users := [{| UserDb.id := 1; UserDb.username := "ada";
                         UserDb.password_hash := "$2b$12$abc"; UserDb.created_at := 100;
                         UserDb.last_login := None; UserDb.is_active := true |}];
     UserDb.sequence := 1;
     UserDb.fault := None |}.

End Cases.

(* ===================================================================== *)
(** * Part II: properties *)
(* ===================================================================== *)

(** ** JSON: reading back what [stringify] wrote *)
Module JSONFacts.
Import JSON.


Lemma append_assoc (a b c : string) : (a ++ b) ++ c = a ++ (b ++ c).
Proof. induction a as [|x a IH]; simpl; [reflexivity | now rewrite IH]. Qed.

Lemma length_append (a b : string) : String.length (a ++ b) = String.length a + String.length b.
Proof. induction a as [|x a IH]; simpl; [reflexivity | now rewrite IH]. Qed.

Lemma parse_chars_escape_char (c : ascii) (r : string) :
  parse_chars (escape_char c ++ r) = cons_char c (parse_chars r).
Proof.
  destruct c as [[] [] [] [] [] [] [] []]; reflexivity.
Qed.

Lemma parse_chars_escape (s rest : string) :
  parse_chars (escape s ++ String dquote rest) = Some (s, rest).
Proof.
  induction s as [|c s IH]; simpl.
  - reflexivity.
  - rewrite append_assoc, parse_chars_escape_char, IH. reflexivity.
Qed.



Lemma delimited_no_number rest : delimited rest -> no_number_start rest.
Proof.
  destruct rest as [|c r]; simpl; [trivial|].
  intros [-> | [-> | ->]]; reflexivity.
Qed.

Lemma scan_number_print (t rest : string) :
  Number.number_chars t = true -> no_number_start rest ->
  scan_number (t ++ rest) = (t, rest).
Proof.
  intros Ht Hrest. induction t as [|c t IH]; simpl.
  - destruct rest as [|c r]; simpl in *; [reflexivity | now rewrite Hrest].
  - simpl in Ht. apply andb_true_iff in Ht as [Hc Ht]. now rewrite Hc, (IH Ht).
Qed.

(** A finite Number is determined by its numeral. *)
Lemma Finite_eq (t : string) (H1 H2 : Number.is_numeral t = true) :
  Number.Finite t H1 = Number.Finite t H2.
Proof. f_equal. apply Eqdep_dec.UIP_dec. apply bool_dec. Qed.

(** A numeral reads as the Number it is the numeral of. *)
Lemma is_numeral_read (t : string) (H : Number.is_numeral t = true) :
  Number.read t = Some (Number.Finite t H).
Proof.
  unfold Number.read. pose proof H as H'.
  unfold Number.is_numeral in H'. apply andb_true_iff in H' as [_ H'].
  destruct (Number.numeral_of t) as [c|]; simpl in H'; [|discriminate].
  apply String.eqb_eq in H'. subst c.
  destruct (bool_dec (Number.is_numeral t) true) as [H2 | H2]; [|contradiction].
  f_equal. apply Finite_eq.
Qed.



Lemma numeral_chars (t : string) :
  Number.is_numeral t = true -> Number.number_chars t = true.
Proof. unfold Number.is_numeral. now intros H%andb_true_iff. Qed.

Lemma numeral_head (t rest : string) :
  Number.is_numeral t = true ->
  exists c r, t ++ rest = String c r /\ Number.number_char c = true.
Proof.
  intros H. destruct t as [|c t]; [vm_compute in H; discriminate H|].
  apply numeral_chars in H. simpl in H. apply andb_true_iff in H as [Hc _].
  exists c, (t ++ rest). split; [reflexivity | exact Hc].
Qed.

Lemma parse_numeral (t rest : string) (H : Number.is_numeral t = true) :
  no_number_start rest ->
  parse_number (t ++ rest) = Some (JNum (Number.Finite t H), rest).
Proof.
  intros Hrest. unfold parse_number.
  rewrite (scan_number_print t rest (numeral_chars t H) Hrest).
  now rewrite (is_numeral_read t H).
Qed.

Lemma parse_value_number (f : nat) (c : ascii) (r : string) :
  Number.number_char c = true ->
  parse_value (S f) (String c r) = parse_number (String c r).
Proof.
  destruct c as [[] [] [] [] [] [] [] []]; intros H;
    try (vm_compute in H; discriminate H); reflexivity.
Qed.

Lemma stringify_JArr elems :
  stringify (JArr elems) = Some ("[" ++ join "," (map element_text elems) ++ "]").
Proof. reflexivity. Qed.

Lemma stringify_JObj props :
  stringify (JObj props) = Some ("{" ++ join "," (flat_map member_texts props) ++ "}").
Proof. reflexivity. Qed.

Lemma stringify_None v : stringify v = None -> v = JUndefined.
Proof. destruct v as [| |[]| | | |]; simpl; congruence. Qed.

Lemma parse_elements_S f s :
  parse_elements (S f) s =
  match parse_value f s with
  | Some (v, String c r) =>
      if Ascii.eqb c "," then
        match parse_elements f r with
        | Some (vs, rest) => Some (v :: vs, rest)
        | None => None
        end
      else if Ascii.eqb c "]" then Some ([v], r)
      else None
  | _ => None
  end.
Proof. reflexivity. Qed.

Lemma parse_members_S f k r :
  parse_members (S f) (String dquote (escape k ++ String dquote (String ":" r))) =
  match parse_value f r with
  | Some (v, String c r2) =>
      if Ascii.eqb c "," then
        match parse_members f r2 with
        | Some (ms, rest) => Some (define_prop k v ms, rest)
        | None => None
        end
      else if Ascii.eqb c "}" then Some ([(k, v)], r2)
      else None
  | _ => None
  end.
Proof.
  cbn [parse_members]. rewrite Ascii.eqb_refl, parse_chars_escape.
  reflexivity.
Qed.

Lemma value_head_char c :
  Number.number_char c = true ->
  Ascii.eqb c "]" = false /\ Ascii.eqb c "}" = false.
Proof.
  destruct c as [[] [] [] [] [] [] [] []]; intros H;
    try (vm_compute in H; discriminate H); split; reflexivity.
Qed.

Lemma stringify_head v t rest :
  stringify v = Some t ->
  exists c r, t ++ rest = String c r /\ Ascii.eqb c "]" = false /\ Ascii.eqb c "}" = false.
Proof.
  destruct v as [| |[]|[numeral Hn| | |]|s|l|l]; simpl; intros H;
    try discriminate H; injection H as <-;
    try (eexists; eexists; split; [reflexivity | split; reflexivity]).
  destruct (numeral_head numeral rest Hn) as (c & r & Hr & Hc).
  exists c, r. split; [assumption | now apply value_head_char].
Qed.



Lemma parses_element x : parses x -> element_parses x.
Proof.
  intros Hx fuel rest Hfuel Hrest. unfold element_text in *.
  destruct (stringify x) as [t|] eqn:E.
  - rewrite (Hx t E fuel rest Hfuel Hrest).
    destruct x; try reflexivity. discriminate E.
  - apply stringify_None in E. subst x.
    destruct fuel as [|f]; [inversion Hfuel | reflexivity].
Qed.

Lemma element_text_head x rest :
  exists c r, element_text x ++ rest = String c r /\ Ascii.eqb c "]" = false.
Proof.
  unfold element_text. destruct (stringify x) as [t|] eqn:E.
  - destruct (stringify_head x t rest E) as (c & r & H1 & H2 & _). eauto.
  - simpl. eauto.
Qed.

#[local] Arguments parse_value : simpl never.
#[local] Arguments parse_elements : simpl never.
#[local] Arguments parse_members : simpl never.

Lemma parse_elements_print (elems : list jsval) :
  elems <> [] -> Forall element_parses elems ->
  forall fuel rest,
    String.length (join "," (map element_text elems)) + 1 < fuel ->
    parse_elements fuel (join "," (map element_text elems) ++ String "]" rest)
    = Some (map revive elems, rest).
Proof.
  induction elems as [|x l IH]; [congruence|].
  intros _ Hall fuel rest Hfuel.
  inversion Hall as [|? ? Hx Hl]; subst.
  destruct fuel as [|f]; [inversion Hfuel|].
  rewrite parse_elements_S.
  destruct l as [|y l'].
  - simpl in *. rewrite Hx; [reflexivity | lia | simpl; auto].
  - change (join "," (map element_text (x :: y :: l')))
      with (element_text x ++ "," ++ join "," (map element_text (y :: l'))) in *.
    rewrite length_append in Hfuel. simpl String.length in Hfuel.
    rewrite append_assoc, Hx; [| lia | simpl; auto].
    simpl. rewrite IH; [reflexivity | congruence | assumption | ].
    simpl in *. lia.
Qed.

Lemma read_back_props_step p later t :
  stringify (snd p) = Some t ->
  match snd p with
  | JUndefined => later
  | _ => define_prop (fst p) (read_back (snd p)) later
  end = define_prop (fst p) (read_back (snd p)) later.
Proof. destruct (snd p); simpl; congruence. Qed.

Lemma read_back_props_unprinted props :
  flat_map member_texts props = [] -> read_back_props props = [].
Proof.
  induction props as [|p l IH]; [reflexivity|].
  simpl. unfold member_texts at 1.
  destruct (stringify (snd p)) eqn:E; [discriminate|].
  apply stringify_None in E. rewrite E. exact IH.
Qed.

Lemma parse_members_print (props : list (string * jsval)) :
  Forall (fun p => parses (snd p)) props ->
  flat_map member_texts props <> [] ->
  forall fuel rest,
    String.length (join "," (flat_map member_texts props)) + 1 < fuel ->
    parse_members fuel (join "," (flat_map member_texts props) ++ String "}" rest)
    = Some (read_back_props props, rest).
Proof.
  induction props as [|p l IH]; [simpl; congruence|].
  intros Hall Hne fuel rest Hfuel.
  inversion Hall as [|? ? Hp Hl]; subst.
  simpl flat_map in *. simpl read_back_props. fold (read_back_props l).
  destruct (stringify (snd p)) as [t|] eqn:E.
  - assert (Hm : member_texts p = [quote (fst p) ++ ":" ++ t])
      by (unfold member_texts; rewrite E; reflexivity).
    rewrite Hm in *. clear Hm.
    rewrite (read_back_props_step p _ t E).
    destruct fuel as [|f]; [inversion Hfuel|].
    destruct (flat_map member_texts l) as [|m ms] eqn:El.
    + rewrite (read_back_props_unprinted l El).
      simpl app in *. simpl join in *.
      unfold quote in *. simpl in Hfuel. rewrite !length_append in Hfuel. simpl in Hfuel.
      simpl. rewrite !append_assoc. simpl.
      rewrite parse_members_S, (Hp t E); [reflexivity | lia | simpl; auto].
    + simpl app in *.
      change (join "," ((quote (fst p) ++ ":" ++ t) :: m :: ms))
        with ((quote (fst p) ++ ":" ++ t) ++ "," ++ join "," (m :: ms)) in *.
      unfold quote in *. simpl in Hfuel. rewrite !length_append in Hfuel. simpl in Hfuel.
      rewrite ?length_append in Hfuel. simpl in Hfuel.
      simpl. rewrite !append_assoc. simpl. rewrite ?append_assoc. simpl.
      rewrite parse_members_S, ?append_assoc, (Hp t E); [| lia | simpl; auto].
      simpl. rewrite IH; [reflexivity | assumption | congruence | ].
      simpl in *. lia.
  - assert (Hm : member_texts p = [])
      by (unfold member_texts; rewrite E; reflexivity).
    rewrite Hm in *. clear Hm.
    apply stringify_None in E. rewrite E. simpl app in *.
    apply IH; assumption.
Qed.

Lemma parse_value_array f r :
  parse_value (S f) (String "[" r) =
  match r with
  | EmptyString => None
  | String c' rest =>
      if Ascii.eqb c' "]" then Some (JArr [], rest)
      else match parse_elements f r with
           | Some (vs, rest') => Some (JArr vs, rest')
           | None => None
           end
  end.
Proof. reflexivity. Qed.

Lemma parse_value_object f r :
  parse_value (S f) (String "{" r) =
  match r with
  | EmptyString => None
  | String c' rest =>
      if Ascii.eqb c' "}" then Some (JObj [], rest)
      else match parse_members f r with
           | Some (ms, rest') => Some (JObj ms, rest')
           | None => None
           end
  end.
Proof. reflexivity. Qed.

Lemma join_elements_head x l rest :
  exists c r, join "," (map element_text (x :: l)) ++ rest = String c r
              /\ Ascii.eqb c "]" = false.
Proof.
  destruct l as [|y l'].
  - apply element_text_head.
  - change (join "," (map element_text (x :: y :: l')))
      with (element_text x ++ "," ++ join "," (map element_text (y :: l'))).
    rewrite append_assoc. apply element_text_head.
Qed.

Lemma join_members_head props m ms rest :
  flat_map member_texts props = m :: ms ->
  exists r, join "," (m :: ms) ++ rest = String dquote r.
Proof.
  induction props as [|p l IHl]; simpl; [congruence|].
  unfold member_texts at 1. destruct (stringify (snd p)); simpl.
  - intros H. injection H as Hm _. subst m. unfold quote.
    destruct ms; simpl; eexists; reflexivity.
  - exact IHl.
Qed.

Lemma parse_value_print (v : jsval) : parses v.
Proof.
  induction v as [| |b|n|s|elems IH|props IH] using jsval_nested_ind;
    intros t Ht fuel rest Hfuel Hrest;
    [ discriminate Ht | simpl in Ht | simpl in Ht | simpl in Ht | simpl in Ht
    | rewrite stringify_JArr in Ht | rewrite stringify_JObj in Ht ].
  - inversion Ht; subst. destruct fuel; [inversion Hfuel | reflexivity].
  - destruct b; inversion Ht; subst; (destruct fuel; [inversion Hfuel | reflexivity]).
  - inversion Ht; subst. destruct fuel as [|f]; [inversion Hfuel|].
    assert (Hnum : forall numeral (Hn : Number.is_numeral numeral = true),
               parse_value (S f) (numeral ++ rest)
               = Some (JNum (Number.Finite numeral Hn), rest)).
    { intros numeral Hn. destruct (numeral_head numeral rest Hn) as (c & r & Hr & Hc).
      rewrite Hr, parse_value_number by assumption.
      rewrite <- Hr. apply parse_numeral. now apply delimited_no_number. }
    destruct n as [numeral Hn| | |negative]; simpl.
    + apply Hnum.
    + apply (Hnum "0").
    + reflexivity.
    + reflexivity.
  - inversion Ht; subst. destruct fuel as [|f]; [inversion Hfuel|].
    unfold quote. cbn [append]. rewrite append_assoc. cbn [append].
    change (parse_value (S f) (String dquote (escape s ++ String dquote rest)))
      with (match parse_chars (escape s ++ String dquote rest) with
            | Some (str, rest') => Some (JStr str, rest')
            | None => None
            end).
    rewrite parse_chars_escape. reflexivity.
  - inversion Ht; subst. clear Ht. destruct fuel as [|f]; [inversion Hfuel|].
    destruct elems as [|x l]; [reflexivity|].
    cbn [append String.length] in Hfuel. rewrite length_append in Hfuel.
    cbn [append String.length] in Hfuel.
    cbn [append]. rewrite append_assoc. cbn [append].
    rewrite parse_value_array.
    assert (Hall : Forall element_parses (x :: l)).
    { eapply Forall_impl; [|exact IH]. apply parses_element. }
    pose proof (parse_elements_print (x :: l) ltac:(congruence) Hall f rest ltac:(lia)) as Hpe.
    destruct (join_elements_head x l (String "]" rest)) as (c & r & Hc & Hne).
    rewrite Hc in *. rewrite Hne, Hpe. reflexivity.
  - inversion Ht; subst. clear Ht. destruct fuel as [|f]; [inversion Hfuel|].
    cbn [append String.length] in Hfuel. rewrite length_append in Hfuel.
    cbn [append String.length] in Hfuel.
    cbn [append]. rewrite append_assoc. cbn [append].
    rewrite parse_value_object.
    change (read_back (JObj props)) with (JObj (read_back_props props)).
    destruct (flat_map member_texts props) as [|m ms] eqn:E.
    + rewrite (read_back_props_unprinted props E). reflexivity.
    + pose proof (parse_members_print props IH) as Hpm. rewrite E in Hpm.
      specialize (Hpm ltac:(congruence) f rest ltac:(lia)).
      destruct (join_members_head props m ms (String "}" rest) E) as (r & Hr).
      rewrite Hr in *. change (Ascii.eqb dquote "}") with false. cbv iota.
      rewrite Hpm. reflexivity.
Qed.

Lemma append_empty_r (s : string) : s ++ "" = s.
Proof. induction s as [|c s IH]; simpl; [reflexivity | now rewrite IH]. Qed.

Theorem parse_stringify (v : jsval) (t : string) :
  stringify v = Some t -> parse t = Return (read_back v).
Proof.
  intros H. unfold parse.
  pose proof (parse_value_print v t H (S (String.length t)) "" ltac:(lia) I) as Hp.
  rewrite append_empty_r in Hp. rewrite Hp. reflexivity.
Qed.

Lemma lookup_absent k props :
  existsb (String.eqb k) (map fst props) = false -> lookup k props = None.
Proof.
  induction props as [|[k' v] l IH]; simpl; [reflexivity|].
  destruct (String.eqb k k'); simpl; [discriminate | exact IH].
Qed.

(** A key that comes before all the others is placed in front. *)
Lemma place_front k v later :
  forallb (before_key k) (map fst later) = true -> place k v later = (k, v) :: later.
Proof.
  destruct later as [|[k' v'] rest]; simpl; [reflexivity|].
  intros H. apply andb_true_iff in H as [H _]. now rewrite H.
Qed.

Lemma read_back_props_fixed props :
  Forall (fun p => representable (snd p) = true -> read_back (snd p) = snd p) props ->
  forallb (fun p => representable (snd p)) props = true ->
  distinct (map fst props) = true ->
  enumerated (map fst props) = true ->
  read_back_props props = props.
Proof.
  induction props as [|[k v] l IH]; intros Hall Hrep Hkeys Hord; [reflexivity|].
  inversion Hall as [|? ? Hv Hl]; subst.
  simpl in Hrep, Hkeys, Hv, Hord.
  apply andb_true_iff in Hrep as [Hrv Hrl].
  apply andb_true_iff in Hkeys as [Hk Hkl].
  apply andb_true_iff in Hord as [Ho Hol].
  apply negb_true_iff in Hk.
  simpl. fold (read_back_props l). rewrite (IH Hl Hrl Hkl Hol), (Hv Hrv).
  unfold define_prop. rewrite (lookup_absent k l Hk), (place_front k v l Ho).
  destruct v; try reflexivity. discriminate Hrv.
Qed.

Lemma revive_fixed elems :
  Forall (fun x => representable x = true -> read_back x = x) elems ->
  forallb representable elems = true ->
  map revive elems = elems.
Proof.
  induction elems as [|x l IH]; intros Hall Hrep; [reflexivity|].
  inversion Hall as [|? ? Hx Hl]; subst.
  simpl in Hrep. apply andb_true_iff in Hrep as [Hrx Hrl].
  simpl. rewrite (IH Hl Hrl). f_equal.
  unfold revive. rewrite (Hx Hrx). destruct x; try reflexivity. discriminate Hrx.
Qed.

(** [stringify] then [parse] changes nothing in a value JSON can carry. *)
Lemma read_back_representable (v : jsval) :
  representable v = true -> read_back v = v.
Proof.
  induction v as [| |b|n|s|elems IH|props IH] using jsval_nested_ind;
    intros Hrep; try reflexivity.
  - destruct n; simpl in Hrep; (reflexivity || discriminate Hrep).
  - change (read_back (JArr elems)) with (JArr (map revive elems)).
    f_equal. now apply revive_fixed.
  - change (read_back (JObj props)) with (JObj (read_back_props props)).
    simpl in Hrep. apply andb_true_iff in Hrep as [Hrep Ho].
    apply andb_true_iff in Hrep as [Hr Hk].
    f_equal. now apply read_back_props_fixed.
Qed.

Lemma stringify_representable (v : jsval) :
  representable v = true -> exists t, stringify v = Some t.
Proof.
  destruct v as [| |[]| | | |]; simpl; intros H; try discriminate H; eauto.
Qed.

Lemma parse_number_defined (s r : string) : parse_number s <> Some (JUndefined, r).
Proof.
  unfold parse_number. destruct (scan_number s) as [t rest].
  destruct (Number.read t); discriminate.
Qed.

Lemma parse_value_cons (f : nat) (c : ascii) (r : string) :
  parse_value (S f) (String c r) =
  if Ascii.eqb c "n" then option_map (pair JNull) (expect "ull" r)
  else if Ascii.eqb c "t" then option_map (pair (JBool true)) (expect "rue" r)
  else if Ascii.eqb c "f" then option_map (pair (JBool false)) (expect "alse" r)
  else if Ascii.eqb c dquote then
    match parse_chars r with
    | Some (str, rest) => Some (JStr str, rest)
    | None => None
    end
  else if Ascii.eqb c "[" then
    match r with
    | EmptyString => None
    | String c' rest =>
        if Ascii.eqb c' "]" then Some (JArr [], rest)
        else match parse_elements f r with
             | Some (vs, rest') => Some (JArr vs, rest')
             | None => None
             end
    end
  else if Ascii.eqb c "{" then
    match r with
    | EmptyString => None
    | String c' rest =>
        if Ascii.eqb c' "}" then Some (JObj [], rest)
        else match parse_members f r with
             | Some (ms, rest') => Some (JObj ms, rest')
             | None => None
             end
    end
  else parse_number (String c r).
Proof. reflexivity. Qed.

Lemma parse_value_defined (fuel : nat) (s r : string) :
  parse_value fuel s <> Some (JUndefined, r).
Proof.
  destruct fuel as [|f]; [discriminate|].
  destruct s as [|c s']; [discriminate|]. rewrite parse_value_cons.
  repeat match goal with
         | |- (if ?b then _ else _) <> _ => destruct b
         end;
    try apply parse_number_defined.
  - destruct (expect "ull" s'); simpl; discriminate.
  - destruct (expect "rue" s'); simpl; discriminate.
  - destruct (expect "alse" s'); simpl; discriminate.
  - destruct (parse_chars s') as [[str rest]|]; discriminate.
  - destruct s' as [|c' rest]; [discriminate|].
    destruct (Ascii.eqb c' "]"); [discriminate|].
    destruct (parse_elements f (String c' rest)) as [[vs rest']|]; discriminate.
  - destruct s' as [|c' rest]; [discriminate|].
    destruct (Ascii.eqb c' "}"); [discriminate|].
    destruct (parse_members f (String c' rest)) as [[ms rest']|]; discriminate.
Qed.

(** [JSON.parse] never returns [undefined]. *)
Lemma parse_defined (text : string) : parse text <> Return JUndefined.
Proof.
  unfold parse.
  destruct (parse_value (S (String.length text)) text) as [[v rest]|] eqn:E; [|discriminate].
  destruct rest; [|discriminate].
  intros H. injection H as ->. now apply parse_value_defined in E.
Qed.

(** What the two functions do on small inputs. *)

Example stringify_sample :
  stringify (JObj [("a", JNum (Number.literal "5"));
                   ("b", JArr [JNull; JUndefined; JBool true; JNum (Number.literal "-42")]);
                   ("c", JUndefined); ("d", JObj []);
                   ("e", JArr [JNum Number.NaN; JNum Number.NegZero;
                               JNum (Number.Infinity false)])])
  = Some (String "{" (quote "a" ++ ":5," ++ quote "b" ++ ":[null,null,true,-42],"
                      ++ quote "d" ++ ":{}," ++ quote "e" ++ ":[null,0,null]}")).
Proof. vm_compute. reflexivity. Qed.

Example stringify_control_characters :
  stringify (JStr (String (ascii_of_nat 7) (String (ascii_of_nat 10) "ab")))
  = Some (String dquote (String backslash "u0007" ++ String backslash "nab"
                         ++ String dquote "")).
Proof. reflexivity. Qed.

Example parse_duplicate_key :
  parse (String "{" (quote "a" ++ ":1," ++ quote "b" ++ ":2," ++ quote "a" ++ ":3}"))
  = Return (JObj [("a", JNum (Number.literal "3")); ("b", JNum (Number.literal "2"))]).
Proof. vm_compute. reflexivity. Qed.

(** The keys that are array indices are enumerated first. *)
Example parse_index_keys :
  parse (String "{" (quote "b" ++ ":true," ++ quote "10" ++ ":null," ++ quote "a"
                     ++ ":false," ++ quote "2" ++ ":null," ++ quote "01" ++ ":null}"))
  = Return (JObj [("2", JNull); ("10", JNull); ("b", JBool true); ("a", JBool false);
                  ("01", JNull)]).
Proof. vm_compute. reflexivity. Qed.

Example parse_leading_zero : parse "01" = Throw SyntaxError.
Proof. vm_compute. reflexivity. Qed.

Example parse_trailing_text : parse "12a" = Throw SyntaxError.
Proof. vm_compute. reflexivity. Qed.

(** Numbers are read as [JSON.parse] reads them, and written as
    [Number::toString] writes them. *)
Example parse_numbers :
  option_map (map json_text_of)
    (match parse "[1.0,1e2,0.10,1e21,1000000000000000000000,0.1,-2.5E-3,9007199254740993,0.0000001,123456789012345678901234567890,5e-324]" with
     | Return (JArr elems) => Some elems
     | _ => None
     end)
  = Some ["1"; "100"; "0.1"; "1e+21"; "1e+21"; "0.1"; "-0.0025";
          "9007199254740992"; "1e-7"; "1.2345678901234568e+29"; "5e-324"].
Proof. vm_compute. reflexivity. Qed.

Example parse_no_number :
  map parse ["1."; ".5"; "+1"; "1e"; "0x10"; "-"; "1e400"; "-0"]
  = map (fun _ => Throw SyntaxError) (seq 0 8).
Proof. vm_compute. reflexivity. Qed.

Example numerals :
  map Number.is_numeral ["0"; "1e+21"; "0.1"; "123456789012345680000"; "-1.5e-7";
                         "1000000000000000000000"; "1.0"; "0.10"; "1e21";
                         "9007199254740993"; "-0"; "NaN"; ""]
  = [true; true; true; true; true; false; false; false; false; false; false; false; false].
Proof. vm_compute. reflexivity. Qed.

Example number_of_integer :
  map (fun n => Number.json_text (Number.of_Z n)) [0; 1; 255; -1; 4294967295]%Z
  = ["0"; "1"; "255"; "-1"; "4294967295"].
Proof. vm_compute. reflexivity. Qed.

Example parse_escapes :
  parse (String dquote (String backslash "u0041" ++ String backslash "t"
                        ++ String backslash "/" ++ String dquote ""))
  = Return (JStr (String "A" (String (ascii_of_nat 9) "/"))).
Proof. reflexivity. Qed.

End JSONFacts.

(** ** ORDER BY and LIMIT *)
Module OrderFacts.
Import JobDb.

Section Ordering.
Context {A : Type}.
Variable before : A -> A -> bool.
Hypothesis before_total : forall a b, before a b = true \/ before b a = true.
Hypothesis before_trans :
  forall a b c, before a b = true -> before b c = true -> before a c = true.

Lemma insert_by_perm (x : A) (l : list A) :
  Permutation (insert_by before x l) (x :: l).
Proof.
  induction l as [|y l IH]; simpl.
  - apply Permutation_refl.
  - destruct (before x y).
    + apply Permutation_refl.
    + eapply perm_trans; [apply perm_skip, IH | apply perm_swap].
Qed.

Lemma order_by_perm (l : list A) : Permutation (order_by before l) l.
Proof.
  induction l as [|x l IH]; simpl.
  - apply perm_nil.
  - eapply perm_trans; [apply insert_by_perm | apply perm_skip, IH].
Qed.

Lemma order_by_In (x : A) (l : list A) : In x (order_by before l) <-> In x l.
Proof.
  split; apply Permutation_in;
    [apply order_by_perm | apply Permutation_sym, order_by_perm].
Qed.

Lemma insert_by_sorted (x : A) (l : list A) :
  StronglySorted (fun a b => before a b = true) l ->
  StronglySorted (fun a b => before a b = true) (insert_by before x l).
Proof.
  induction 1 as [|y l Hs IH Hy]; simpl.
  - constructor; [constructor | constructor].
  - destruct (before x y) eqn:E.
    + constructor; [constructor; assumption|].
      constructor; [assumption|].
      rewrite Forall_forall in *. intros z Hz. eauto.
    + constructor; [assumption|].
      rewrite Forall_forall in *. intros z Hz.
      apply (Permutation_in _ (insert_by_perm x l)) in Hz.
      destruct Hz as [<- | Hz]; [|auto].
      destruct (before_total x y) as [H | H]; [congruence | assumption].
Qed.

Lemma order_by_sorted (l : list A) :
  StronglySorted (fun a b => before a b = true) (order_by before l).
Proof.
  induction l as [|x l IH]; simpl; [constructor | now apply insert_by_sorted].
Qed.

Lemma before_refl (a : A) : before a a = true.
Proof. destruct (before_total a a); assumption. Qed.

(** The first row of an ordered selection sorts no later than any row. *)
Lemma order_by_first (l : list A) (x : A) :
  hd_error (order_by before l) = Some x ->
  In x l /\ forall y, In y l -> before x y = true.
Proof.
  intros H. pose proof (order_by_sorted l) as Hs.
  destruct (order_by before l) as [|z rest] eqn:E; [discriminate|].
  injection H as ->.
  assert (Hin : forall y, In y l <-> In y (x :: rest)).
  { intros y. rewrite <- E. symmetry. apply order_by_In. }
  split; [apply Hin; now left|].
  intros y Hy. apply Hin in Hy. inversion Hs as [|? ? _ Hall]; subst.
  destruct Hy as [<- | Hy]; [apply before_refl|].
  rewrite Forall_forall in Hall. auto.
Qed.

Lemma order_by_none (l : list A) :
  hd_error (order_by before l) = None -> l = [].
Proof.
  intros H. destruct (order_by before l) as [|z rest] eqn:E; [|discriminate].
  pose proof (order_by_perm l) as Hp. rewrite E in Hp.
  now apply Permutation_nil in Hp.
Qed.

(** Under LIMIT, every row kept sorts no later than every row cut. *)
Lemma limit_keeps_first (n : nat) (l : list A) (x y : A) :
  In x (limit n (order_by before l)) ->
  In y (skipn n (order_by before l)) ->
  before x y = true.
Proof.
  unfold limit. pose proof (order_by_sorted l) as Hs.
  revert n. induction Hs as [|z rest Hs IH Hz]; intros n Hx Hy.
  - destruct n; simpl in Hx; contradiction.
  - destruct n as [|n]; simpl in Hx, Hy; [contradiction|].
    destruct Hx as [<- | Hx].
    + rewrite Forall_forall in Hz. apply Hz.
      rewrite <- (firstn_skipn n rest). apply in_or_app. now right.
    + eauto.
Qed.

End Ordering.

Lemma hd_error_limit_1 {A : Type} (l : list A) : hd_error (limit 1 l) = hd_error l.
Proof. destruct l; reflexivity. Qed.

End OrderFacts.

(** ** jobDb: the claim query *)
Module ClaimFacts.
Import JobDb Spec OrderFacts.
Local Open Scope Z_scope.

Lemma Status_eqb_eq (a b : Status) : Status_eqb a b = true <-> a = b.
Proof. destruct a, b; simpl; split; congruence. Qed.

Lemma in_status_pending_failed (r : Row) :
  in_status [pending; failed] r = true <-> status r = pending \/ status r = failed.
Proof.
  unfold in_status. simpl. rewrite orb_false_r, orb_true_iff, !Status_eqb_eq. tauto.
Qed.

Ltac order_arith :=
  repeat rewrite ?orb_true_iff, ?andb_true_iff, ?Z.ltb_lt, ?Z.eqb_eq, ?Z.leb_le in *;
  lia.

Lemma claim_before_total (a b : Row) :
  claim_before a b = true \/ claim_before b a = true.
Proof. unfold claim_before. order_arith. Qed.

Lemma claim_before_trans (a b c : Row) :
  claim_before a b = true -> claim_before b c = true -> claim_before a c = true.
Proof. unfold claim_before. intros H1 H2. order_arith. Qed.

Lemma claim_before_precedes (a b : Row) :
  status a = pending \/ status a = failed ->
  status b = pending \/ status b = failed ->
  claim_before a b = true -> precedes a b.
Proof.
  unfold claim_before, precedes, retry_rank.
  intros [Ha | Ha] [Hb | Hb]; rewrite Ha, Hb; simpl; intros H.
  - right. split; [reflexivity | order_arith].
  - left. split; reflexivity.
  - exfalso. order_arith.
  - right. split; [reflexivity | order_arith].
Qed.

Lemma runningSessions_spec (p : string) (rows : list Row) (sid : string) :
  In sid (runningSessions p rows) <-> running_session p rows sid.
Proof.
  unfold runningSessions, running_session. rewrite in_flat_map. split.
  - intros (x & Hx & Hsid).
    destruct (String.eqb (project_name x) p) eqn:Ep; simpl in Hsid; [|contradiction].
    destruct (Status_eqb (status x) running) eqn:Es; simpl in Hsid; [|contradiction].
    destruct (session_id x) as [s|] eqn:Ex; simpl in Hsid; [|contradiction].
    destruct Hsid as [<- | []].
    apply String.eqb_eq in Ep. apply Status_eqb_eq in Es. eauto.
  - intros (x & Hx & Hp & Hs & Hsid). exists x. split; [assumption|].
    rewrite Hp, String.eqb_refl, Hs, Hsid. simpl. now left.
Qed.

Lemma existsb_eqb_In (s : string) (l : list string) :
  existsb (String.eqb s) l = true <-> In s l.
Proof.
  rewrite existsb_exists. split.
  - intros (x & Hx & E). apply String.eqb_eq in E. now subst.
  - intros H. exists s. split; [assumption | apply String.eqb_refl].
Qed.

(** The rows either query selects are the candidates of the project. *)
Lemma selected_candidate (p : string) (rows : list Row) (r : Row) :
  let sessions := runningSessions p rows in
  In r (if (0 <? List.length sessions)%nat
        then filter (retryable_outside sessions p) rows
        else filter (retryable p) rows)
  <-> candidate p rows r.
Proof.
  intros sessions. unfold candidate.
  destruct (0 <? List.length sessions)%nat eqn:E.
  - rewrite filter_In. unfold retryable_outside.
    rewrite !andb_true_iff, String.eqb_eq, in_status_pending_failed.
    split.
    + intros (Hin & (Hp & Hs) & Hsess). repeat split; try assumption.
      intros _. destruct (session_id r) as [s|]; [right | now left].
      intros sid Hrun Heq. injection Heq as ->.
      apply runningSessions_spec in Hrun. apply existsb_eqb_In in Hrun.
      fold sessions in Hrun. rewrite Hrun in Hsess. discriminate.
    + intros (Hin & Hp & Hs & Hsess). repeat split; try assumption.
      destruct (session_id r) as [s|] eqn:Er; [|reflexivity].
      apply negb_true_iff. destruct (existsb (String.eqb s) sessions) eqn:Ex; [|reflexivity].
      exfalso. apply existsb_eqb_In in Ex. apply runningSessions_spec in Ex.
      destruct Hsess as [H | H]; [eauto | discriminate H | eapply H; eauto].
  - rewrite filter_In. unfold retryable.
    rewrite andb_true_iff, String.eqb_eq, in_status_pending_failed.
    split.
    + intros (Hin & Hp & Hs). repeat split; try assumption.
      intros (sid & Hrun). apply runningSessions_spec in Hrun. fold sessions in Hrun.
      destruct sessions; [contradiction | discriminate E].
    + intros (Hin & Hp & Hs & _). auto.
Qed.

Lemma nextRow_spec (p : string) (rows : list Row) :
  match nextRow p rows with
  | Some r => candidate p rows r
              /\ forall c, candidate p rows c -> claim_before r c = true
  | None => forall c, ~ candidate p rows c
  end.
Proof.
  unfold nextRow. rewrite hd_error_limit_1.
  pose proof (selected_candidate p rows) as Hsel. cbv zeta in Hsel.
  set (selected := if (0 <? List.length (runningSessions p rows))%nat
                   then filter (retryable_outside (runningSessions p rows) p) rows
                   else filter (retryable p) rows) in *.
  destruct (hd_error (order_by claim_before selected)) as [r|] eqn:E.
  - apply (order_by_first claim_before claim_before_total claim_before_trans) in E.
    destruct E as [Hin Hmin]. split; [now apply Hsel|].
    intros c Hc. apply Hmin. now apply Hsel.
  - apply order_by_none in E. intros c Hc. apply Hsel in Hc.
    rewrite E in Hc. contradiction.
Qed.

End ClaimFacts.

(** C1. With a working store whose [options] texts parse,
    [getNextJobForProject] returns none exactly when the project has no
    candidate, and otherwise the job of a candidate row (every column of
    the row, with the options read from their text) that precedes every
    candidate in the order: pending before failed, then priority
    descending, then createdAt ascending.  In particular, whenever some
    candidate is pending, the job returned is pending, whatever the
    priorities of the failed ones. *)
Theorem getNextJobForProject_minimal (p : string) (d : JobDb.Database) :
  JobDb.fault d = None ->
  Spec.options_parse (JobDb.jobs d) ->
  ((forall r, ~ Spec.candidate p (JobDb.jobs d) r)
   /\ JobDb.getNextJobForProject p d = Return None)
  \/
  (exists r job,
      JobDb.getNextJobForProject p d = Return (Some job)
      /\ Spec.candidate p (JobDb.jobs d) r
      /\ Spec.hands_out r job
      /\ JobDb.project_name job = p
      /\ (JobDb.status job = JobDb.pending \/ JobDb.status job = JobDb.failed)
      /\ (forall c, Spec.candidate p (JobDb.jobs d) c ->
                    (JobDb.status job = JobDb.pending /\ JobDb.status c = JobDb.failed)
                    \/ (JobDb.status job = JobDb.status c
                        /\ (JobDb.priority job > JobDb.priority c
                            \/ (JobDb.priority job = JobDb.priority c
                                /\ JobDb.created_at job <= JobDb.created_at c))))%Z
      /\ (forall c, Spec.candidate p (JobDb.jobs d) c ->
                    JobDb.status c = JobDb.pending ->
                    JobDb.status job = JobDb.pending)).
Proof.
  intros Hfault Hparse. unfold JobDb.getNextJobForProject. rewrite Hfault.
  pose proof (ClaimFacts.nextRow_spec p (JobDb.jobs d)) as Hnext.
  destruct (JobDb.nextRow p (JobDb.jobs d)) as [r|].
  - right. destruct Hnext as [Hcand Hmin].
    destruct (Hparse r (proj1 Hcand)) as [o Ho].
    assert (Hprec : forall c, Spec.candidate p (JobDb.jobs d) c -> Spec.precedes r c).
    { intros c Hc. apply ClaimFacts.claim_before_precedes.
      - apply Hcand.
      - apply Hc.
      - now apply Hmin. }
    exists r, (JobDb.with_options r o).
    split; [unfold JobDb.parse_row; rewrite Ho; reflexivity|].
    split; [exact Hcand|].
    split; [repeat split; exact Ho|].
    split; [apply Hcand|]. split; [apply Hcand|]. split.
    + intros c Hc. exact (Hprec c Hc).
    + intros c Hc Hpending. simpl.
      destruct (Hprec c Hc) as [[_ Hf] | [Heq _]]; congruence.
  - left. split; [assumption | reflexivity].
Qed.

(** The testable properties of the specification on the sample queue: B,
    then C, then A are claimed, and the failed job of priority 9 only
    after them. *)
Example claims_in_priority_then_creation_order :
  let claim d := match JobDb.getNextJobForProject "alpha" d with
                 | Return (Some j) => Some (JobDb.id j)
                 | _ => None
                 end in
  let finish i d := match JobDb.updateJobStatus i JobDb.completed None 900 d with
                    | Return d' => d'
                    | Throw _ => d
                    end in
  claim Samples.queue = Some 2%Z
  /\ claim (finish 2%Z Samples.queue) = Some 3%Z
  /\ claim (finish 3%Z (finish 2%Z Samples.queue)) = Some 1%Z
  /\ claim (finish 1%Z (finish 3%Z (finish 2%Z Samples.queue))) = Some 4%Z
  /\ claim (finish 4%Z (finish 1%Z (finish 3%Z (finish 2%Z Samples.queue)))) = None.
Proof. vm_compute. repeat split. Qed.

(** ** jobDb: updateJobStatus *)

(** C5 (amended).  With a working store, [updateJobStatus(jobId, status,
    errorMessage)] gives the job the status; sets startedAt to the current
    time exactly when the status is running; sets completedAt exactly when
    it is completed or failed; sets errorMessage when a non-empty one is
    supplied, and leaves it as it was when the message is null or empty;
    every other field of the job, every other job, the order of the rows
    and the id counter are unchanged. *)
Theorem updateJobStatus_effect (jobId : Z) (st : JobDb.Status)
    (msg : option string) (now : Z) (d : JobDb.Database) :
  JobDb.fault d = None ->
  exists d',
    JobDb.updateJobStatus jobId st msg now d = Return d'
    /\ JobDb.sequence d' = JobDb.sequence d
    /\ JobDb.fault d' = JobDb.fault d
    /\ List.length (JobDb.jobs d') = List.length (JobDb.jobs d)
    /\ forall n r, nth_error (JobDb.jobs d) n = Some r ->
         exists r',
           nth_error (JobDb.jobs d') n = Some r'
           /\ (JobDb.id r <> jobId -> r' = r)
           /\ (JobDb.id r = jobId ->
               JobDb.status r' = st
               /\ JobDb.started_at r'
                  = (if JobDb.Status_eqb st JobDb.running
                     then Some now else JobDb.started_at r)
               /\ JobDb.completed_at r'
                  = (if JobDb.Status_eqb st JobDb.completed
                        || JobDb.Status_eqb st JobDb.failed
                     then Some now else JobDb.completed_at r)
               /\ JobDb.error_message r'
                  = match msg with
                    | Some text => if String.eqb text ""
                                   then JobDb.error_message r else Some text
                    | None => JobDb.error_message r
                    end
               /\ JobDb.id r' = JobDb.id r
               /\ JobDb.project_name r' = JobDb.project_name r
               /\ JobDb.session_id r' = JobDb.session_id r
               /\ JobDb.command r' = JobDb.command r
               /\ JobDb.options r' = JobDb.options r
               /\ JobDb.priority r' = JobDb.priority r
               /\ JobDb.created_at r' = JobDb.created_at r
               /\ JobDb.user_id r' = JobDb.user_id r).
Proof.
  intros Hfault. unfold JobDb.updateJobStatus. rewrite Hfault.
  eexists. split; [reflexivity|]. simpl.
  split; [reflexivity|]. split; [exact Hfault|].
  split; [apply length_map|].
  intros n r Hn. rewrite nth_error_map, Hn. simpl.
  eexists. split; [reflexivity|].
  destruct (Z.eqb_spec (JobDb.id r) jobId) as [E | E].
  - split; [intros; contradiction|]. intros _.
    destruct st, msg as [text|]; simpl; try destruct (String.eqb text "");
      repeat split; reflexivity.
  - split; [reflexivity | intros; contradiction].
Qed.

(** C5, as stated, fails for an empty message: [updateJobStatus(1,
    'failed', '')] leaves the diagnostic of an earlier failure in place. *)
Lemma updateJobStatus_empty_message_kept :
  exists d' r',
    JobDb.updateJobStatus 1 JobDb.failed (Some "") 900 Samples.failed_before = Return d'
    /\ JobDb.jobs d' = [r']
    /\ JobDb.status r' = JobDb.failed
    /\ JobDb.error_message r' = Some "first failure"
    /\ JobDb.error_message r' <> Some "".
Proof.
  eexists. eexists. split; [reflexivity|]. split; [reflexivity|].
  split; [reflexivity|]. split; [reflexivity | discriminate].
Qed.

(** ** jobDb: cleanupOldJobs *)
Module CleanupFacts.
Import JobDb Spec OrderFacts.
Local Open Scope Z_scope.

Lemma id_determines_row (rows : list Row) (x y : Row) :
  NoDup (map id rows) -> In x rows -> In y rows -> id x = id y -> x = y.
Proof.
  induction rows as [|r l IH]; simpl; [contradiction|].
  intros Hnd Hx Hy E. inversion Hnd as [|? ? Hr Hl]; subst.
  destruct Hx as [<- | Hx], Hy as [<- | Hy]; auto.
  - exfalso. apply Hr. rewrite E. now apply in_map.
  - exfalso. apply Hr. rewrite <- E. now apply in_map.
Qed.

Lemma NoDup_ids_filter (f : Row -> bool) (rows : list Row) :
  NoDup (map id rows) -> NoDup (map id (filter f rows)).
Proof.
  induction rows as [|r l IH]; simpl; intros Hnd; [constructor|].
  inversion Hnd as [|? ? Hr Hl]; subst.
  destruct (f r); simpl; [constructor|]; auto.
  intros Hin. apply Hr. apply in_map_iff in Hin as (x & Hx & Hin).
  apply filter_In in Hin. apply in_map_iff. exists x. tauto.
Qed.

Lemma NoDup_rows (rows : list Row) : NoDup (map id rows) -> NoDup rows.
Proof. apply NoDup_map_inv. Qed.

Lemma filter_absorb {A : Type} (f g : A -> bool) (l : list A) :
  (forall x, f x = true -> g x = true) ->
  filter f (filter g l) = filter f l.
Proof.
  intros H. induction l as [|x l IH]; simpl; [reflexivity|].
  destruct (g x) eqn:G; simpl.
  - now rewrite IH.
  - destruct (f x) eqn:F; [|exact IH]. rewrite (H x F) in G. discriminate.
Qed.

Lemma filter_swap {A : Type} (f g : A -> bool) (l : list A) :
  filter f (filter g l) = filter g (filter f l).
Proof.
  induction l as [|x l IH]; simpl; [reflexivity|].
  destruct (f x) eqn:F, (g x) eqn:G; simpl; rewrite ?F, ?G, IH; reflexivity.
Qed.

Lemma existsb_id_In (i : Z) (ids : list Z) :
  existsb (Z.eqb i) ids = true <-> In i ids.
Proof.
  rewrite existsb_exists. split.
  - intros (x & Hx & E). apply Z.eqb_eq in E. now subst.
  - intros H. exists i. split; [assumption | apply Z.eqb_refl].
Qed.

Lemma null_first_total (a b : option Z) : null_first a b = true \/ null_first b a = true.
Proof. destruct a, b; simpl; auto. rewrite !Z.leb_le. lia. Qed.

Lemma null_first_trans (a b c : option Z) :
  null_first a b = true -> null_first b c = true -> null_first a c = true.
Proof.
  destruct a, b, c; simpl; auto; try discriminate.
  rewrite !Z.leb_le. lia.
Qed.

Lemma completed_last_first_total (a b : Row) :
  completed_last_first a b = true \/ completed_last_first b a = true.
Proof. unfold completed_last_first. destruct (null_first_total (completed_at a) (completed_at b)); auto. Qed.

Lemma completed_last_first_trans (a b c : Row) :
  completed_last_first a b = true -> completed_last_first b c = true ->
  completed_last_first a c = true.
Proof. unfold completed_last_first. intros H1 H2. eapply null_first_trans; eassumption. Qed.

Lemma completed_last_first_no_later (kept gone : Row) :
  completed_last_first kept gone = true -> completed_no_later gone kept.
Proof.
  unfold completed_last_first, completed_no_later, null_first.
  destruct (completed_at gone), (completed_at kept); auto; try discriminate.
  now rewrite Z.leb_le.
Qed.

Section OneProject.
Variable q : string.
Variable rows : list Row.
Hypothesis ids_distinct : NoDup (map id rows).

Let finished := filter (finished_in q) rows.
Let sorted := order_by completed_last_first finished.
Let newest := limit 100 sorted.

Lemma newest_In (r : Row) : In r newest -> In r rows /\ finished_in q r = true.
Proof.
  intros H. unfold newest, limit in H.
  assert (Hs : In r sorted).
  { rewrite <- (firstn_skipn 100 sorted). apply in_or_app. now left. }
  apply order_by_In in Hs. now apply filter_In in Hs.
Qed.

(** A finished job of the project survives iff it is one of the newest. *)
Lemma retained_newest (r : Row) :
  In r rows -> finished_in q r = true ->
  existsb (Z.eqb (id r)) (retained_ids q rows) = true <-> In r newest.
Proof.
  intros Hr Hf. rewrite existsb_id_In. unfold retained_ids.
  fold finished. fold sorted. fold newest. rewrite in_map_iff. split.
  - intros (x & E & Hx). destruct (newest_In x Hx) as [Hxr _].
    now rewrite <- (id_determines_row rows x r ids_distinct Hxr Hr E).
  - intros H. now exists r.
Qed.

Lemma survivors_perm :
  Permutation (filter (finished_in q) (delete_old q rows)) newest.
Proof.
  apply NoDup_Permutation.
  - apply NoDup_rows, NoDup_ids_filter. unfold delete_old. now apply NoDup_ids_filter.
  - unfold newest, limit. apply NoDup_rows.
    assert (Hs : NoDup (map id sorted)).
    { eapply Permutation_NoDup.
      - apply Permutation_map, Permutation_sym, order_by_perm.
      - now apply NoDup_ids_filter. }
    rewrite <- (firstn_skipn 100 sorted), map_app in Hs.
    now apply NoDup_app_remove_r in Hs.
  - intros r. unfold delete_old. rewrite !filter_In. split.
    + intros ((Hr & Hkeep) & Hf). rewrite Hf in Hkeep. simpl in Hkeep.
      apply negb_true_iff, negb_false_iff in Hkeep. now apply retained_newest.
    + intros H. destruct (newest_In r H) as [Hr Hf].
      repeat split; try assumption. rewrite Hf. simpl.
      apply negb_true_iff, negb_false_iff. now apply retained_newest.
Qed.

Lemma delete_old_effect :
  filter (fun r => negb (finished_in q r)) (delete_old q rows)
  = filter (fun r => negb (finished_in q r)) rows
  /\ (forall r, In r (delete_old q rows) -> In r rows)
  /\ List.length (filter (finished_in q) (delete_old q rows))
     = Nat.min 100 (List.length (filter (finished_in q) rows))
  /\ (forall kept gone,
         In kept (delete_old q rows) -> finished_in q kept = true ->
         In gone rows -> finished_in q gone = true -> ~ In gone (delete_old q rows) ->
         completed_no_later gone kept).
Proof.
  split; [|split; [|split]].
  - unfold delete_old. apply filter_absorb. intros r Hr.
    apply negb_true_iff in Hr. now rewrite Hr.
  - intros r Hr. unfold delete_old in Hr. now apply filter_In in Hr.
  - rewrite (Permutation_length survivors_perm). unfold newest, limit.
    rewrite length_firstn. fold finished. unfold sorted.
    now rewrite (Permutation_length (order_by_perm completed_last_first finished)).
  - intros kept gone Hk Hkf Hg Hgf Hgone.
    apply completed_last_first_no_later.
    apply (limit_keeps_first completed_last_first completed_last_first_total
             completed_last_first_trans 100 finished).
    + fold sorted. fold newest.
      apply (Permutation_in _ survivors_perm). now apply filter_In.
    + fold sorted.
      assert (Hs : In gone sorted) by (apply order_by_In, filter_In; auto).
      rewrite <- (firstn_skipn 100 sorted) in Hs. apply in_app_or in Hs.
      destruct Hs as [Hs | Hs]; [|exact Hs].
      exfalso. apply Hgone.
      assert (Hsurv : In gone (filter (finished_in q) (delete_old q rows))).
      { apply (Permutation_in _ (Permutation_sym survivors_perm)). exact Hs. }
      now apply filter_In in Hsurv.
Qed.

Lemma delete_old_retention : retention q rows (delete_old q rows).
Proof.
  destruct delete_old_effect as (Hrest & Hsub & Hlen & Hlast).
  assert (Hsame : forall r, finished_job q r = finished_in q r).
  { intros r. unfold finished_job, finished_in, of_project, in_status.
    destruct (status r); simpl; now rewrite ?orb_false_r. }
  unfold retention.
  rewrite !(filter_ext _ _ Hsame).
  rewrite !(filter_ext (fun r => negb (finished_job q r))
                       (fun r => negb (finished_in q r))
                       (fun r => f_equal negb (Hsame r))).
  split; [exact Hrest|]. split; [exact Hsub|]. split; [exact Hlen|]. split.
  - intros kept gone Hk Hkf Hg Hgf. rewrite Hsame in Hkf, Hgf. now apply Hlast.
  - unfold delete_old. eexists. reflexivity.
Qed.

End OneProject.

Lemma finished_in_of_project (q : string) (r : Row) :
  finished_in q r = true -> of_project q r = true.
Proof. unfold finished_in, of_project. now intros H%andb_true_iff. Qed.

Lemma retained_ids_project (q : string) (rows : list Row) :
  retained_ids q (filter (of_project q) rows) = retained_ids q rows.
Proof.
  unfold retained_ids. rewrite filter_absorb; [reflexivity|].
  apply finished_in_of_project.
Qed.

Lemma delete_old_project_same (q : string) (rows : list Row) :
  filter (of_project q) (delete_old q rows) = delete_old q (filter (of_project q) rows).
Proof.
  unfold delete_old. rewrite retained_ids_project. apply filter_swap.
Qed.

Lemma delete_old_project_other (q q' : string) (rows : list Row) :
  q <> q' ->
  filter (of_project q) (delete_old q' rows) = filter (of_project q) rows.
Proof.
  intros Hne. unfold delete_old. apply filter_absorb.
  intros r Hr. unfold of_project in Hr. apply String.eqb_eq in Hr.
  unfold finished_in.
  destruct (String.eqb_spec (project_name r) q'); [congruence | reflexivity].
Qed.

Lemma distinct_projects_In (q : string) (rows : list Row) :
  In q (distinct_projects rows) <-> exists r, In r rows /\ project_name r = q.
Proof.
  induction rows as [|x l IH]; simpl.
  - split; [contradiction | intros (r & [] & _)].
  - rewrite filter_In, IH. split.
    + intros [<- | ((r & Hr & E) & _)]; eauto.
    + intros (r & [<- | Hr] & E); [now left|].
      destruct (String.eqb_spec q (project_name x)) as [-> | Hne]; [now left|].
      right. split; [eauto | reflexivity].
Qed.

Lemma distinct_projects_NoDup (rows : list Row) : NoDup (distinct_projects rows).
Proof.
  induction rows as [|x l IH]; simpl; constructor.
  - rewrite filter_In. intros [_ H]. now rewrite String.eqb_refl in H.
  - now apply NoDup_filter.
Qed.

Lemma clean_each_project (q : string) (projects : list string) (rows : list Row) :
  NoDup projects ->
  filter (of_project q) (fold_left (fun l p => delete_old p l) projects rows)
  = if in_dec string_dec q projects
    then delete_old q (filter (of_project q) rows)
    else filter (of_project q) rows.
Proof.
  revert rows. induction projects as [|p l IH]; intros rows Hnd; simpl; [reflexivity|].
  inversion Hnd as [|? ? Hp Hl]; subst. rewrite (IH _ Hl).
  destruct (string_dec p q) as [-> | Hne].
  - destruct (in_dec string_dec q l); [contradiction|].
    apply delete_old_project_same.
  - rewrite (delete_old_project_other q p rows) by congruence.
    destruct (in_dec string_dec q l); reflexivity.
Qed.

Lemma project_absent (q : string) (rows : list Row) :
  (forall r, In r rows -> project_name r <> q) ->
  filter (of_project q) rows = [].
Proof.
  intros H.
  induction rows as [|x l IH]; simpl; [reflexivity|].
  unfold of_project at 1.
  destruct (String.eqb_spec (project_name x) q) as [E | _].
  - exfalso. apply (H x); [now left | exact E].
  - apply IH. intros r Hr. apply H. now right.
Qed.

(** The loop over all projects does, on the jobs of each project, what
    the DELETE for that project does. *)
Lemma clean_all_projects (q : string) (rows : list Row) :
  filter (of_project q)
         (fold_left (fun l p => delete_old p l) (distinct_projects rows) rows)
  = delete_old q (filter (of_project q) rows).
Proof.
  rewrite clean_each_project by apply distinct_projects_NoDup.
  destruct (in_dec string_dec q (distinct_projects rows)) as [_ | Hout]; [reflexivity|].
  rewrite project_absent; [reflexivity|].
  intros r Hr E. apply Hout. apply distinct_projects_In. eauto.
Qed.

Lemma filter_twice {A : Type} (f g : A -> bool) (l : list A) :
  filter f (filter g l) = filter (fun x => g x && f x) l.
Proof.
  induction l as [|x l IH]; simpl; [reflexivity|].
  destruct (g x); simpl; [|exact IH]. destruct (f x); now rewrite IH.
Qed.

(** The loop over the projects deletes rows and does nothing else. *)
Lemma clean_loop_is_filter (projects : list string) (rows : list Row) :
  exists remains,
    fold_left (fun l p => delete_old p l) projects rows = filter remains rows.
Proof.
  revert rows. induction projects as [|p l IH]; intros rows; simpl.
  - exists (fun _ => true). clear. induction rows as [|x l IH]; simpl; congruence.
  - destruct (IH (delete_old p rows)) as [g Hg]. rewrite Hg.
    unfold delete_old. rewrite filter_twice. eexists. reflexivity.
Qed.

End CleanupFacts.

(** C4 (amended).  With a working store: for a non-empty project name P,
    [cleanupOldJobs(P)] deletes of the completed and failed jobs of P all
    but the 100 that completed last (all remain if they are fewer), and
    leaves every other row (the pending and running jobs of P, and all
    jobs of other projects) as it is and where it is; [cleanupOldJobs()]
    has that effect on the jobs of every project, and deletes rows only;
    [cleanupOldJobs('')] does what [cleanupOldJobs()] does. *)
Theorem cleanupOldJobs_retention (d : JobDb.Database) :
  JobDb.fault d = None ->
  NoDup (map JobDb.id (JobDb.jobs d)) ->
  (forall p, p <> "" ->
     exists d',
       JobDb.cleanupOldJobs (Some p) d = Return d'
       /\ JobDb.sequence d' = JobDb.sequence d
       /\ Spec.retention p (JobDb.jobs d) (JobDb.jobs d')
       /\ NoDup (map JobDb.id (JobDb.jobs d')))
  /\ (exists d',
       JobDb.cleanupOldJobs None d = Return d'
       /\ JobDb.cleanupOldJobs (Some "") d = Return d'
       /\ JobDb.sequence d' = JobDb.sequence d
       /\ (forall q,
             Spec.retention q (filter (Spec.of_project q) (JobDb.jobs d))
                              (filter (Spec.of_project q) (JobDb.jobs d')))
       /\ (exists remains, JobDb.jobs d' = filter remains (JobDb.jobs d))
       /\ NoDup (map JobDb.id (JobDb.jobs d'))).
Proof.
  intros Hfault Hids. split.
  - intros p Hp. unfold JobDb.cleanupOldJobs. rewrite Hfault. simpl.
    apply String.eqb_neq in Hp. rewrite Hp. simpl.
    eexists. split; [reflexivity|]. split; [reflexivity|]. simpl.
    split; [now apply CleanupFacts.delete_old_retention|].
    unfold JobDb.delete_old. now apply CleanupFacts.NoDup_ids_filter.
  - unfold JobDb.cleanupOldJobs. rewrite Hfault.
    eexists. split; [reflexivity|]. split; [reflexivity|].
    split; [reflexivity|]. simpl.
    destruct (CleanupFacts.clean_loop_is_filter
                (JobDb.distinct_projects (JobDb.jobs d)) (JobDb.jobs d)) as [g Hg].
    split; [|split; [now exists g|]].
    + intros q. rewrite CleanupFacts.clean_all_projects.
      apply CleanupFacts.delete_old_retention.
      now apply CleanupFacts.NoDup_ids_filter.
    + rewrite Hg. now apply CleanupFacts.NoDup_ids_filter.
Qed.

(** C4, as stated, fails for the project with the empty name.  Such a
    project can be in the store: [addJob] accepts the name.  In a store
    with a job of that project and the 101 completed jobs of project
    alpha, [cleanupOldJobs('')] takes the branch for all projects and
    deletes the oldest job of alpha, a job of another project. *)
Lemma cleanupOldJobs_empty_name_cleans_all :
  exists d' r,
    JobDb.addJob "" None "run tests" (JObj []) None 0 5000 Samples.backlog
    = Return (102%Z, Samples.backlog_and_unnamed)
    /\ nth_error (JobDb.jobs Samples.backlog_and_unnamed) 101 = Some r
    /\ JobDb.project_name r = "" /\ JobDb.id r = 102%Z
    /\ JobDb.cleanupOldJobs (Some "") Samples.backlog_and_unnamed = Return d'
    /\ nth_error (JobDb.jobs Samples.backlog_and_unnamed) 0
       = Some (Samples.finished_row 1)
    /\ JobDb.project_name (Samples.finished_row 1) = "alpha"
    /\ existsb (Z.eqb (JobDb.id (Samples.finished_row 1)))
               (map JobDb.id (JobDb.jobs d')) = false
    /\ List.length (filter (Spec.of_project "alpha")
                           (JobDb.jobs Samples.backlog_and_unnamed)) = 101%nat
    /\ List.length (filter (Spec.of_project "alpha") (JobDb.jobs d')) = 100%nat.
Proof.
  eexists. eexists.
  split; [vm_compute; reflexivity|].
  split; [vm_compute; reflexivity|].
  split; [reflexivity|]. split; [reflexivity|].
  split; [reflexivity|].
  split; [reflexivity|].
  split; [reflexivity|]. repeat split; vm_compute; reflexivity.
Qed.

(** ** JobWorker: recoverStuckJobs *)
Module RecoveryFacts.
Import JobDb Spec OrderFacts CleanupFacts JobWorker.
Local Open Scope Z_scope.



Lemma with_jobs_same (d : Database) : with_jobs d (jobs d) = d.
Proof. destruct d; reflexivity. Qed.





End RecoveryFacts.

(** ** JobWorker: getJobStatus *)

(** C10.  [getJobStatus] never raises.  When [getActiveJobs] returns, the
    snapshot holds the active jobs, the projects that have a worker (the
    keys of the map of workers, in the order of the map: a project is
    listed exactly when the map holds a worker for it), their number and
    the configured maximum; when it raises (as it does whenever the store
    fails), the snapshot is the default one: no active jobs, no working
    projects, zero workers, the configured maximum. *)
Theorem getJobStatus_never_raises (s : JobWorker.State) :
  exists snapshot,
    JobWorker.getJobStatus s = Return snapshot
    /\ JobWorker.maxConcurrentProjects_ snapshot = JobWorker.maxConcurrentProjects s
    /\ (forall active,
          JobDb.getActiveJobs (JobWorker.db s) = Return active ->
          JobWorker.activeJobs snapshot = active
          /\ JobWorker.workingProjects snapshot = map fst (JobWorker.projectWorkers s)
          /\ (forall p, In p (JobWorker.workingProjects snapshot)
                        <-> exists w, In (p, w) (JobWorker.projectWorkers s))
          /\ JobWorker.totalWorkers snapshot = List.length (JobWorker.projectWorkers s)
          /\ JobWorker.totalWorkers snapshot
             = List.length (JobWorker.workingProjects snapshot))
    /\ (forall e,
          JobDb.getActiveJobs (JobWorker.db s) = Throw e
          \/ JobDb.fault (JobWorker.db s) = Some e ->
          snapshot = {| JobWorker.activeJobs := [];
                        JobWorker.workingProjects := [];
                        JobWorker.totalWorkers := 0;
                        JobWorker.maxConcurrentProjects_ :=
                          JobWorker.maxConcurrentProjects s |}).
Proof.
  unfold JobWorker.getJobStatus.
  destruct (JobDb.getActiveJobs (JobWorker.db s)) as [active | e] eqn:E.
  - eexists. split; [reflexivity|]. split; [reflexivity|]. split.
    + intros a Ha. injection Ha as <-. cbn.
      split; [reflexivity|]. split; [reflexivity|]. split; [|split].
      * intros p. unfold JobWorker.map_keys. rewrite in_map_iff. split.
        -- intros [[q w] [<- Hin]]. now exists w.
        -- intros [w Hin]. now exists (p, w).
      * reflexivity.
      * unfold JobWorker.map_keys. now rewrite length_map.
    + intros e [He | He]; [discriminate He|].
      unfold JobDb.getActiveJobs in E. rewrite He in E. discriminate E.
  - eexists. split; [reflexivity|]. split; [reflexivity|]. split.
    + intros a Ha. discriminate Ha.
    + reflexivity.
Qed.

(** ** The invariant of the server states *)
Module InvariantFacts.
Import JobDb Spec JobWorker ClaimFacts CleanupFacts OrderFacts.
Local Open Scope Z_scope.

(** *** The table *)

Lemma store_ok_fault (d : Database) (c : option Error) :
  store_ok d ->
  store_ok {| jobs := jobs d; sequence := sequence d; fault := c |}.
Proof. unfold store_ok, ids_ok. simpl. auto. Qed.


Lemma store_ok_map (f : Row -> Row) (d : Database) :
  keeps_identity f ->
  session_exclusive_in_project (map f (jobs d)) ->
  store_ok d -> store_ok (with_jobs d (map f (jobs d))).
Proof.
  intros Hf Hex ((Hnd & Hseq & Hb) & _ & Hp). unfold store_ok, ids_ok. simpl.
  split; [split; [|split]|split].
  - rewrite map_map. erewrite map_ext; [exact Hnd|]. intros r. apply Hf.
  - exact Hseq.
  - intros r' Hr'. apply in_map_iff in Hr' as (r & <- & Hr).
    destruct (Hf r) as (-> & _). now apply Hb.
  - exact Hex.
  - intros r' Hr'. apply in_map_iff in Hr' as (r & <- & Hr).
    destruct (Hf r) as (_ & _ & _ & ->). now apply Hp.
Qed.

Lemma exclusive_map_no_start (f : Row -> Row) (rows : list Row) :
  keeps_identity f ->
  (forall r, status (f r) = running -> status r = running) ->
  session_exclusive_in_project rows ->
  session_exclusive_in_project (map f rows).
Proof.
  intros Hf Hst Hex a' b' sid Ha Hb Hne Hproj Hsa Hsb [Hra Hrb].
  apply in_map_iff in Ha as (a & <- & Ha).
  apply in_map_iff in Hb as (b & <- & Hb).
  destruct (Hf a) as (Ia & Pa & Sa & _), (Hf b) as (Ib & Pb & Sb & _).
  apply (Hex a b sid); try congruence. split; now apply Hst.
Qed.


Lemma set_status_keeps_identity jobId st msg now :
  keeps_identity (set_status_of jobId st msg now).
Proof.
  intros r. unfold set_status_of. destruct (id r =? jobId); simpl; auto.
Qed.

Lemma updateJobStatus_rows jobId st msg now d d' :
  updateJobStatus jobId st msg now d = Return d' ->
  d' = with_jobs d (map (set_status_of jobId st msg now) (jobs d)).
Proof.
  unfold updateJobStatus. destruct (fault d); [discriminate|].
  intros H. injection H as <-. reflexivity.
Qed.

(** A status update that does not start a job keeps the table well formed. *)
Lemma updateJobStatus_ok jobId st msg now d d' :
  st <> running ->
  updateJobStatus jobId st msg now d = Return d' ->
  store_ok d -> store_ok d'.
Proof.
  intros Hst Hupd Hok. apply updateJobStatus_rows in Hupd. subst d'.
  apply store_ok_map; [apply set_status_keeps_identity | | exact Hok].
  apply exclusive_map_no_start; [apply set_status_keeps_identity | | apply Hok].
  intros r. unfold set_status_of. destruct (id r =? jobId); simpl; congruence.
Qed.

Lemma nextRow_job p d job :
  getNextJobForProject p d = Return (Some job) ->
  exists r, candidate p (jobs d) r /\ id job = id r.
Proof.
  unfold getNextJobForProject. destruct (fault d); [discriminate|].
  pose proof (nextRow_spec p (jobs d)) as Hn.
  destruct (nextRow p (jobs d)) as [r|]; [|discriminate].
  unfold parse_row. destruct (JSON.parse (options r)); simpl; [|discriminate].
  intros H. injection H as <-. exists r. split; [apply Hn | reflexivity].
Qed.

(** The claim: marking the job that [getNextJobForProject] returned as
    running keeps the sessions of the project exclusive. *)
Lemma claim_ok p now d d' job :
  getNextJobForProject p d = Return (Some job) ->
  updateJobStatus (id job) running None now d = Return d' ->
  store_ok d -> store_ok d'.
Proof.
  intros Hnext Hupd Hok. apply updateJobStatus_rows in Hupd. subst d'.
  destruct (nextRow_job p d job Hnext) as (c & (Hc & Hcp & Hcs & Hsess) & Hid).
  apply store_ok_map; [apply set_status_keeps_identity | | exact Hok].
  destruct Hok as ((Hnd & Hseq & Hb) & Hex & Hp).
  assert (Hclaimed : forall x, In x (jobs d) -> id x = id job -> x = c).
  { intros x Hx E. apply (id_determines_row (jobs d)); congruence. }
  assert (Hother : forall a b sid,
             In a (jobs d) -> In b (jobs d) -> id a = id job -> id b <> id job ->
             project_name a = project_name b ->
             session_id a = Some sid -> session_id b = Some sid ->
             status b = running -> False).
  { intros a b sid Ha Hb' Ea Eb Hproj Hsa Hsb Hrb.
    rewrite (Hclaimed a Ha Ea) in *.
    assert (Hrun : running_session p (jobs d) sid).
    { exists b. repeat split; congruence. }
    destruct Hsess as [Hnone | Hdiff]; [exists sid; exact Hrun | congruence |].
    apply (Hdiff sid Hrun). assumption. }
  intros a' b' sid Ha Hb' Hne Hproj Hsa Hsb [Hra Hrb].
  apply in_map_iff in Ha as (a & <- & Ha).
  apply in_map_iff in Hb' as (b & <- & Hb').
  destruct (set_status_keeps_identity (id job) running None now a) as (Ia & Pa & Sa & _).
  destruct (set_status_keeps_identity (id job) running None now b) as (Ib & Pb & Sb & _).
  rewrite Ia, Ib in Hne. rewrite Pa, Pb in Hproj. rewrite Sa in Hsa. rewrite Sb in Hsb.
  unfold set_status_of in Hra, Hrb.
  destruct (Z.eqb_spec (id a) (id job)) as [Ea | Ea],
           (Z.eqb_spec (id b) (id job)) as [Eb | Eb].
  - congruence.
  - apply (Hother a b sid); auto.
  - apply (Hother b a sid); auto.
  - apply (Hex a b sid); auto.
Qed.

Lemma store_ok_filter (g : Row -> bool) (d : Database) :
  store_ok d -> store_ok (with_jobs d (filter g (jobs d))).
Proof.
  intros ((Hnd & Hseq & Hb) & Hex & Hp). unfold store_ok, ids_ok. simpl.
  split; [split; [|split]|split].
  - now apply NoDup_ids_filter.
  - exact Hseq.
  - intros r Hr. apply filter_In in Hr. now apply Hb.
  - intros a b sid Ha Hb'. apply filter_In in Ha, Hb'. apply Hex; tauto.
  - intros r Hr. apply filter_In in Hr. now apply Hp.
Qed.

Lemma delete_old_is_filter (q : string) (rows : list Row) :
  exists g, delete_old q rows = filter g rows.
Proof. unfold delete_old. eexists. reflexivity. Qed.

Lemma cleanup_loop_ok (projects : list string) (d : Database) :
  store_ok d ->
  store_ok (with_jobs d (fold_left (fun rows q => delete_old q rows) projects (jobs d))).
Proof.
  revert d. induction projects as [|q l IH]; intros d Hok; simpl.
  - now rewrite RecoveryFacts.with_jobs_same.
  - destruct (delete_old_is_filter q (jobs d)) as [g Hg].
    specialize (IH (with_jobs d (delete_old q (jobs d)))). simpl in IH.
    apply IH. rewrite Hg. now apply store_ok_filter.
Qed.

Lemma cleanupOldJobs_ok (p : option string) (d d' : Database) :
  cleanupOldJobs p d = Return d' -> store_ok d -> store_ok d'.
Proof.
  unfold cleanupOldJobs. destruct (fault d); [discriminate|].
  intros H Hok.
  destruct p as [q|]; [destruct (truthy_text (Some q))|];
    injection H as <-; try now apply cleanup_loop_ok.
  destruct (delete_old_is_filter q (jobs d)) as [g ->]. now apply store_ok_filter.
Qed.

Lemma largest_rowid_bounds (rows : list Row) :
  0 <= largest_rowid rows /\ forall r, In r rows -> id r <= largest_rowid rows.
Proof.
  induction rows as [|x l [IH0 IH]]; simpl; [split; [lia | intros r []]|].
  split; [lia|]. intros r [<- | Hr]; [lia|]. specialize (IH r Hr). lia.
Qed.

Lemma addJob_ok p sid cmd opts uid prio now d jobId d' :
  JobDb.addJob p sid cmd opts uid prio now d = Return (jobId, d') ->
  store_ok d -> store_ok d'.
Proof.
  unfold JobDb.addJob. destruct (fault d); [discriminate|].
  destruct (JSON.stringify opts) as [text|] eqn:Et; [|discriminate].
  intros H ((Hnd & Hseq & Hb) & Hex & Hp). injection H as <- <-.
  destruct (largest_rowid_bounds (jobs d)) as [Hl0 Hl].
  unfold store_ok, ids_ok. simpl. split; [split; [|split]|split].
  - rewrite map_app. simpl. apply NoDup_app; [exact Hnd | repeat constructor; auto |].
    intros i Hi [<- | []]. apply in_map_iff in Hi as (r & E & Hr).
    specialize (Hl r Hr). lia.
  - lia.
  - intros r Hr. apply in_app_or in Hr as [Hr | [<- | []]]; simpl.
    + specialize (Hb r Hr). lia.
    + lia.
  - intros a b s Ha Hb' Hne Hproj Hsa Hsb [Hra Hrb].
    apply in_app_or in Ha as [Ha | [<- | []]]; [|discriminate Hra].
    apply in_app_or in Hb' as [Hb' | [<- | []]]; [|discriminate Hrb].
    apply (Hex a b s); auto.
  - intros r Hr. apply in_app_or in Hr as [Hr | [<- | []]]; [now apply Hp|].
    simpl. exists (JSON.read_back opts). now apply JSONFacts.parse_stringify.
Qed.

(** *** The workers *)

Lemma map_get_set (p p' : string) (w : Worker) (m : list (string * Worker)) :
  map_get p' (map_set p w m) = if String.eqb p' p then Some w else map_get p' m.
Proof.
  induction m as [|[k x] l IH]; simpl.
  - destruct (String.eqb p' p); reflexivity.
  - destruct (String.eqb_spec p k) as [-> | Hpk]; simpl.
    + destruct (String.eqb p' k); reflexivity.
    + rewrite IH. destruct (String.eqb_spec p' k) as [-> | Hk]; [|reflexivity].
      destruct (String.eqb_spec k p); [congruence | reflexivity].
Qed.

Lemma map_get_delete (p p' : string) (w : Worker) (m : list (string * Worker)) :
  map_get p' (map_delete p m) = Some w -> map_get p' m = Some w.
Proof.
  unfold map_delete. induction m as [|[k x] l IH]; simpl; [discriminate|].
  destruct (String.eqb_spec p k) as [-> | Hpk]; simpl.
  - intros H. specialize (IH H).
    destruct (String.eqb_spec p' k) as [-> | Hk]; [|exact IH].
    exfalso. clear IH. revert H. induction l as [|[k' x'] l' IHl]; simpl; [discriminate|].
    destruct (String.eqb_spec k k') as [-> | Hkk]; simpl; [exact IHl|].
    destruct (String.eqb_spec k k'); [congruence | exact IHl].
  - destruct (String.eqb p' k); [auto | exact IH].
Qed.


Lemma workers_ok_set p w m :
  holds_job_id w -> workers_ok m -> workers_ok (map_set p w m).
Proof.
  intros Hw Hm p' w' job Hget. rewrite map_get_set in Hget.
  destruct (String.eqb p' p); [injection Hget as <-; apply Hw | now apply (Hm p')].
Qed.

Lemma workers_ok_delete p m : workers_ok m -> workers_ok (map_delete p m).
Proof.
  intros Hm p' w' job Hget. apply map_get_delete in Hget. now apply (Hm p').
Qed.

Lemma workers_ok_empty : workers_ok [].
Proof. intros p w job H. discriminate H. Qed.

Lemma idle_holds_job_id p :
  holds_job_id {| projectName := p; isRunning := false;
                  currentJobId := None; currentPromise := None |}.
Proof. intros job H. discriminate H. Qed.

(** *** The methods of JobWorker *)

Lemma invariant_same (s s' : State) :
  db s' = db s -> projectWorkers s' = projectWorkers s ->
  invariant s -> invariant s'.
Proof. unfold invariant. now intros -> ->. Qed.

Lemma invariant_db (d : Database) (s : State) :
  store_ok d -> invariant s -> invariant (with_db d s).
Proof. unfold invariant. simpl. tauto. Qed.

Lemma set_worker_ok p w s :
  holds_job_id w -> invariant s -> invariant (set_worker p w s).
Proof.
  intros Hw [Hd Hm]. unfold set_worker.
  destruct (map_has p (projectWorkers s)); [|now split].
  split; [exact Hd | now apply workers_ok_set].
Qed.

Lemma finally_block_ok p s : invariant s -> invariant (finally_block p s).
Proof. apply set_worker_ok, idle_holds_job_id. Qed.

Lemma continue_ok p s : invariant s -> invariant (continue p s).
Proof.
  unfold continue. destruct (isShuttingDown s); [auto|].
  now apply invariant_same.
Qed.

Lemma catch_block_ok p w e now s s' :
  catch_block p w e now s = Return s' -> invariant s -> invariant s'.
Proof.
  unfold catch_block. intros H Hinv.
  destruct (currentJobId w) as [jobId|]; [|injection H as <-; exact Hinv].
  destruct (truthy_number (Some jobId)); [|injection H as <-; exact Hinv].
  destruct (updateJobStatus jobId failed (Some (message e)) now (db s)) as [d|] eqn:E;
    simpl in H; [|discriminate].
  injection H as <-.
  apply (invariant_same (with_db d s)); [reflexivity | reflexivity |].
  apply invariant_db; [|exact Hinv].
  eapply updateJobStatus_ok; [ | exact E | ]; [discriminate | apply Hinv].
Qed.

Lemma recover_ok p w e now s : invariant s -> invariant (fst (recover p w e now s)).
Proof.
  intros Hinv. unfold recover.
  destruct (catch_block p w e now s) as [s'|] eqn:E; simpl.
  - apply continue_ok, finally_block_ok. eapply catch_block_ok; eassumption.
  - now apply finally_block_ok.
Qed.

Lemma processProjectJobs_ok p now s :
  invariant s -> invariant (fst (processProjectJobs p now s)).
Proof.
  intros Hinv. unfold processProjectJobs.
  destruct (map_get p (projectWorkers s)) as [w|]; [|exact Hinv].
  destruct (isShuttingDown s); [exact Hinv|].
  destruct (getNextJobForProject p (db s)) as [[job|]|e] eqn:En.
  - destruct (updateJobStatus (id job) running None now (db s)) as [d|e] eqn:Eu.
    + simpl. apply (invariant_same
                      (set_worker p {| projectName := p; isRunning := true;
                                       currentJobId := Some (id job);
                                       currentPromise := Some job |} (with_db d s)));
        [reflexivity | reflexivity |].
      apply set_worker_ok.
      * intros j Hj. simpl in Hj. injection Hj as <-. split; [reflexivity|].
        destruct (nextRow_job p (db s) job En) as (c & (Hc & _) & ->).
        destruct Hinv as (((_ & _ & Hb) & _) & _). apply (Hb c Hc).
      * apply invariant_db; [|exact Hinv].
        eapply claim_ok; [exact En | exact Eu | apply Hinv].
    + now apply recover_ok.
  - simpl. destruct Hinv as [Hd Hm]. split; [exact Hd|].
    simpl. now apply workers_ok_delete.
  - now apply recover_ok.
Qed.

Lemma resumeProjectJobs_ok p result now s :
  invariant s -> invariant (fst (resumeProjectJobs p result now s)).
Proof.
  intros Hinv. unfold resumeProjectJobs.
  destruct (map_get p (projectWorkers s)) as [w|]; [|exact Hinv].
  destruct (currentPromise w) as [job|]; [|exact Hinv].
  destruct result as [u|e]; [|now apply recover_ok].
  destruct (updateJobStatus (id job) completed None now (db s)) as [d|e] eqn:Eu;
    [|now apply recover_ok].
  simpl. apply continue_ok, finally_block_ok.
  apply (invariant_same (with_db d s)); [reflexivity | reflexivity |].
  apply invariant_db; [|exact Hinv].
  eapply updateJobStatus_ok; [ | exact Eu | ]; [discriminate | apply Hinv].
Qed.

Lemma startProjectWorker_ok p now s :
  invariant s -> invariant (fst (startProjectWorker p now s)).
Proof.
  intros Hinv. unfold startProjectWorker.
  destruct (map_has p (projectWorkers s)); [exact Hinv|].
  apply processProjectJobs_ok. destruct Hinv as [Hd Hm]. split; [exact Hd|].
  simpl. apply workers_ok_set; [apply idle_holds_job_id | exact Hm].
Qed.

Lemma startJobPolling_ok now s : invariant s -> invariant (startJobPolling now s).
Proof.
  intros Hinv. unfold startJobPolling.
  destruct (isShuttingDown s); [exact Hinv|].
  destruct (getActiveJobs (db s)) as [active|]; [|exact Hinv].
  match goal with
  | |- invariant (emit _ ?q) => apply (invariant_same q); [reflexivity | reflexivity |]
  end.
  revert s Hinv. induction (unique (map (fun j => project_name j) active)) as [|q l IH];
    intros s Hinv; simpl; [exact Hinv|].
  apply IH.
  destruct (negb (map_has q (projectWorkers s))
            && Nat.ltb (List.length (projectWorkers s)) (maxConcurrentProjects s));
    [now apply startProjectWorker_ok | exact Hinv].
Qed.

Lemma worker_addJob_ok p sid cmd opts uid prio now s jobId s' :
  JobWorker.addJob p sid cmd opts uid prio now s = Return (jobId, s') ->
  invariant s -> invariant s'.
Proof.
  unfold JobWorker.addJob. intros H Hinv.
  destruct (JobDb.addJob p sid cmd opts uid prio now (db s)) as [[i d]|] eqn:E;
    simpl in H; [|discriminate].
  injection H as <- <-.
  assert (Hd : invariant (with_db d s)).
  { apply invariant_db; [|exact Hinv]. eapply addJob_ok; [exact E | apply Hinv]. }
  match goal with
  | |- invariant (if ?c then _ else _) => destruct c
  end; eapply invariant_same; try exact Hd; reflexivity.
Qed.

Lemma mark_failed_ok js now d : store_ok d -> store_ok (mark_failed js now d).
Proof.
  revert d. induction js as [|j l IH]; intros d Hok; simpl; [exact Hok|].
  destruct (updateJobStatus (id j) failed (Some RECOVERY_MESSAGE) now d) as [d'|] eqn:E;
    [|exact Hok].
  apply IH. eapply updateJobStatus_ok; [ | exact E | ]; [discriminate | exact Hok].
Qed.

Lemma recoverStuckJobs_ok now s : invariant s -> invariant (recoverStuckJobs now s).
Proof.
  intros Hinv. unfold recoverStuckJobs.
  destruct (getActiveJobs (db s)) as [active|]; [|exact Hinv].
  apply invariant_db; [|exact Hinv]. apply mark_failed_ok, Hinv.
Qed.

Lemma cleanupTick_ok s : invariant s -> invariant (cleanupTick s).
Proof.
  intros Hinv. unfold cleanupTick.
  destruct (cleanupOldJobs None (db s)) as [d|] eqn:E; [|exact Hinv].
  apply invariant_db; [|exact Hinv]. eapply cleanupOldJobs_ok; [exact E | apply Hinv].
Qed.

Lemma run_task_ok t now s : invariant s -> invariant (run_task t now s).
Proof.
  intros Hinv. assert (Hd : invariant (dequeue t s)) by (now apply (invariant_same s)).
  destruct t; simpl; [now apply startProjectWorker_ok | now apply processProjectJobs_ok].
Qed.

Lemma empty_database_ok : store_ok empty_database.
Proof.
  unfold store_ok, ids_ok, empty_database. simpl.
  split; [split; [constructor | split; [lia | intros r []]] | split].
  - intros a b sid [].
  - intros r [].
Qed.

(** The invariant holds in every state of the server. *)
Lemma reachable_invariant (s : State) : reachable s -> invariant s.
Proof.
  induction 1 as [ | s p sid cmd opts uid prio now jobId s' _ IH Hadd
                   | s now _ IH | s now _ IH _ | s _ IH _ | s t now _ IH _
                   | s p w job events result now _ IH _ _ _
                   | s _ IH | s c _ IH | s _ IH ].
  - split; [apply empty_database_ok | apply workers_ok_empty].
  - eapply worker_addJob_ok; eassumption.
  - now apply startJobPolling_ok.
  - now apply recoverStuckJobs_ok.
  - now apply cleanupTick_ok.
  - now apply run_task_ok.
  - now apply resumeProjectJobs_ok.
  - now apply (invariant_same s).
  - apply invariant_db; [|exact IH]. apply store_ok_fault, IH.
  - split; [apply IH | apply workers_ok_empty].
Qed.

End InvariantFacts.

(** ** JobWorker: the steps of a worker *)
Module WorkerFacts.
Import JobDb Spec JobWorker ClaimFacts CleanupFacts InvariantFacts.
Local Open Scope Z_scope.

Lemma map_has_get (p : string) (m : list (string * Worker)) :
  map_has p m = true -> exists w, map_get p m = Some w.
Proof. unfold map_has. destruct (map_get p m); [eauto | discriminate]. Qed.

(** The synchronous part of [processProjectJobs], when there is a job. *)
Lemma claim_step (p : string) (now : Z) (s : State) (w : Worker) (job : Job) :
  map_get p (projectWorkers s) = Some w ->
  isShuttingDown s = false ->
  fault (db s) = None ->
  getNextJobForProject p (db s) = Return (Some job) ->
  processProjectJobs p now s
  = (emit (job_started (id job) (project_name job) (session_id job) (command job))
          (with_workers
             (map_set p {| projectName := p; isRunning := true;
                           currentJobId := Some (id job);
                           currentPromise := Some job |} (projectWorkers s))
             (with_db (with_jobs (db s)
                         (map (set_status_of (id job) running None now) (jobs (db s))))
                      s)), None).
Proof.
  intros Hw Hshut Hfault Hnext. unfold processProjectJobs.
  rewrite Hw, Hshut, Hnext. unfold updateJobStatus. rewrite Hfault.
  unfold set_worker. simpl. unfold map_has. rewrite Hw. reflexivity.
Qed.

(** The rest of [processProjectJobs], when the promise of the job
    rejected with [e]. *)
Lemma rejected_step (p : string) (e : Error) (now : Z) (s : State)
    (w : Worker) (job : Job) :
  workers_ok (projectWorkers s) ->
  map_get p (projectWorkers s) = Some w ->
  currentPromise w = Some job ->
  fault (db s) = None ->
  resumeProjectJobs p (Throw e) now s
  = (continue p
       (finally_block p
          (emit (job_failed (id job) p (message e))
                (with_db (with_jobs (db s)
                            (map (set_status_of (id job) failed (Some (message e)) now)
                                 (jobs (db s))))
                         s))), None).
Proof.
  intros Hok Hw Hjob Hfault. unfold resumeProjectJobs. rewrite Hw, Hjob.
  destruct (Hok p w job Hw Hjob) as [Hid Hpos].
  unfold recover, catch_block. rewrite Hid. simpl.
  destruct (Z.eqb_spec (id job) 0) as [E | _]; [lia|]. simpl.
  unfold updateJobStatus. rewrite Hfault. reflexivity.
Qed.

Lemma set_status_of_hit jobId st msg now (r : Row) :
  id r = jobId -> set_status_of jobId st msg now r = updated st msg now r.
Proof. intros <-. unfold set_status_of. now rewrite Z.eqb_refl. Qed.

Lemma set_status_of_miss jobId st msg now (r : Row) :
  id r <> jobId -> set_status_of jobId st msg now r = r.
Proof.
  intros H. unfold set_status_of. destruct (Z.eqb_spec (id r) jobId); congruence.
Qed.

Lemma set_status_of_status jobId st msg now (rows : list Row) (r' : Row) :
  In r' (map (set_status_of jobId st msg now) rows) -> id r' = jobId -> status r' = st.
Proof.
  intros Hin E. apply in_map_iff in Hin as (r & <- & _).
  destruct (set_status_keeps_identity jobId st msg now r) as (Hid & _).
  rewrite set_status_of_hit by congruence. reflexivity.
Qed.

Lemma set_status_of_present jobId st msg now (rows : list Row) (r : Row) :
  In r rows -> id r = jobId ->
  exists r', In r' (map (set_status_of jobId st msg now) rows)
             /\ id r' = jobId /\ status r' = st.
Proof.
  intros Hin E. exists (set_status_of jobId st msg now r).
  split; [now apply in_map|].
  rewrite set_status_of_hit by exact E. split; [exact E | reflexivity].
Qed.

Lemma continue_db p s : db (continue p s) = db s.
Proof. unfold continue. destruct (isShuttingDown s); reflexivity. Qed.

Lemma continue_emitted p s : emitted (continue p s) = emitted s.
Proof. unfold continue. destruct (isShuttingDown s); reflexivity. Qed.

Lemma finally_block_db p s : db (finally_block p s) = db s.
Proof.
  unfold finally_block, set_worker. destruct (map_has p (projectWorkers s)); reflexivity.
Qed.

Lemma finally_block_emitted p s : emitted (finally_block p s) = emitted s.
Proof.
  unfold finally_block, set_worker. destruct (map_has p (projectWorkers s)); reflexivity.
Qed.

Lemma rejected_rows (p : string) (e : Error) (now : Z) (s : State)
    (w : Worker) (job : Job) :
  workers_ok (projectWorkers s) ->
  map_get p (projectWorkers s) = Some w ->
  currentPromise w = Some job ->
  fault (db s) = None ->
  jobs (db (fst (resumeProjectJobs p (Throw e) now s)))
  = map (set_status_of (id job) failed (Some (message e)) now) (jobs (db s)).
Proof.
  intros Hok Hw Hjob Hfault.
  rewrite (rejected_step p e now s w job Hok Hw Hjob Hfault).
  cbn [fst]. rewrite continue_db, finally_block_db. reflexivity.
Qed.

(** A child that cannot be started: the promise rejects with the error
    of the spawn. *)
Lemma spawn_error_rejects (parse : string -> outcome jsval) (cmd : string)
    (opts : jsval) (child : ClaudeCli.Process) (e : Error) :
  ClaudeCli.spawn cmd opts = Return child ->
  ClaudeCli.settled (ClaudeCli.run parse [ClaudeCli.error e] child) = Some (Throw e).
Proof.
  unfold ClaudeCli.spawn. destruct (ClaudeCli.get opts "sessionId"); simpl; [|discriminate].
  intros H. injection H as <-. reflexivity.
Qed.

Lemma padding_length (n : nat) : String.length (Samples.padding n) = n.
Proof. induction n as [|n IH]; simpl; [reflexivity | now rewrite IH]. Qed.

End WorkerFacts.

(** ** Sessions, failures and the running window *)

(** C2 (amended).  In every state of the server, two distinct jobs of the
    same project that share a non-null sessionId are never both running;
    and the step of a worker that claims a job and marks it running, taken
    in any such state, leaves the table with that property. *)
Theorem session_exclusive_within_project (s : JobWorker.State) :
  JobWorker.reachable s ->
  Spec.session_exclusive_in_project (JobDb.jobs (JobWorker.db s))
  /\ forall p now,
       Spec.session_exclusive_in_project
         (JobDb.jobs (JobWorker.db (fst (JobWorker.processProjectJobs p now s)))).
Proof.
  intros Hreach. apply InvariantFacts.reachable_invariant in Hreach. split.
  - apply Hreach.
  - intros p now. apply (InvariantFacts.processProjectJobs_ok p now s Hreach).
Qed.

Lemma sample_run_reachable :
  JobWorker.reachable Samples.alpha_running
  /\ JobWorker.reachable Samples.both_running.
Proof.
  assert (H1 : JobWorker.reachable Samples.queued_alpha).
  { apply (JobWorker.reach_addJob (JobWorker.create JobWorker.empty_database)
             "alpha" (Some "ses-1") "run tests" (JObj []) None 0 100 1);
      [apply JobWorker.reach_start | reflexivity]. }
  assert (H2 : JobWorker.reachable Samples.queued_both).
  { apply (JobWorker.reach_addJob Samples.queued_alpha
             "beta" (Some "ses-1") "run tests" (JObj []) None 0 200 2);
      [exact H1 | reflexivity]. }
  assert (H3 : JobWorker.reachable Samples.alpha_running).
  { apply JobWorker.reach_immediate; [exact H2|]. vm_compute. auto. }
  split; [exact H3|].
  apply JobWorker.reach_immediate; [exact H3|]. vm_compute. auto.
Qed.

(** C2, as stated, fails across projects: after the run [both_running],
    job 1 of project alpha and job 2 of project beta, both of session
    ses-1, are running together. *)
Lemma session_shared_across_projects :
  JobWorker.reachable Samples.both_running
  /\ (exists a b,
         JobDb.jobs (JobWorker.db Samples.both_running) = [a; b]
         /\ JobDb.id a = 1%Z /\ JobDb.id b = 2%Z
         /\ JobDb.project_name a = "alpha" /\ JobDb.project_name b = "beta"
         /\ JobDb.session_id a = Some "ses-1" /\ JobDb.session_id b = Some "ses-1"
         /\ JobDb.status a = JobDb.running /\ JobDb.status b = JobDb.running)
  /\ ~ (forall s, JobWorker.reachable s ->
                  Spec.session_exclusive (JobDb.jobs (JobWorker.db s))).
Proof.
  split; [apply sample_run_reachable|].
  assert (Hrows : exists a b,
             JobDb.jobs (JobWorker.db Samples.both_running) = [a; b]
             /\ JobDb.id a = 1%Z /\ JobDb.id b = 2%Z
             /\ JobDb.project_name a = "alpha" /\ JobDb.project_name b = "beta"
             /\ JobDb.session_id a = Some "ses-1" /\ JobDb.session_id b = Some "ses-1"
             /\ JobDb.status a = JobDb.running /\ JobDb.status b = JobDb.running).
  { eexists. eexists. split; [vm_compute; reflexivity|].
    repeat split; reflexivity. }
  split; [exact Hrows|].
  intros Hall. specialize (Hall _ (proj2 sample_run_reachable)).
  destruct Hrows as (a & b & Hjobs & Ia & Ib & _ & _ & Sa & Sb & Ra & Rb).
  apply (Hall a b "ses-1"); try assumption.
  - rewrite Hjobs. now left.
  - rewrite Hjobs. right. now left.
  - rewrite Ia, Ib. discriminate.
  - now split.
Qed.

(** C6 (amended).  In every state of the server in which the store works:
    when the promise of the job on which a worker is suspended rejects
    with an error (the child could not be started, exited with a non-zero
    code, or the adapter failed), the worker catches it: the job is
    recorded as failed, with the whole message of the error as
    errorMessage when that message is not empty (nothing is cut off), a
    job-failed event with the same message is emitted, no other job
    changes, and [processProjectJobs] does not raise. *)
Theorem adapter_error_recorded (s : JobWorker.State) (p : string)
    (w : JobWorker.Worker) (job : JobDb.Job) (e : Error) (now : Z) :
  JobWorker.reachable s ->
  JobWorker.map_get p (JobWorker.projectWorkers s) = Some w ->
  JobWorker.currentPromise w = Some job ->
  JobDb.fault (JobWorker.db s) = None ->
  let after := JobWorker.resumeProjectJobs p (Throw e) now s in
  snd after = None
  /\ JobWorker.emitted (fst after)
     = (JobWorker.emitted s
        ++ [JobWorker.job_failed (JobDb.id job) p (message e)])%list
  /\ List.length (JobDb.jobs (JobWorker.db (fst after)))
     = List.length (JobDb.jobs (JobWorker.db s))
  /\ forall n r,
       nth_error (JobDb.jobs (JobWorker.db s)) n = Some r ->
       exists r',
         nth_error (JobDb.jobs (JobWorker.db (fst after))) n = Some r'
         /\ (JobDb.id r <> JobDb.id job -> r' = r)
         /\ (JobDb.id r = JobDb.id job ->
             JobDb.status r' = JobDb.failed
             /\ JobDb.completed_at r' = Some now
             /\ JobDb.error_message r'
                = (if String.eqb (message e) "" then JobDb.error_message r
                   else Some (message e))).
Proof.
  intros Hreach Hw Hjob Hfault after. subst after.
  apply InvariantFacts.reachable_invariant in Hreach. destruct Hreach as [_ Hworkers].
  rewrite (WorkerFacts.rejected_step p e now s w job Hworkers Hw Hjob Hfault).
  cbn [fst snd].
  rewrite WorkerFacts.continue_emitted, WorkerFacts.finally_block_emitted.
  rewrite WorkerFacts.continue_db, WorkerFacts.finally_block_db. simpl.
  split; [reflexivity|]. split; [reflexivity|]. split; [apply length_map|].
  intros n r Hn. rewrite nth_error_map, Hn. simpl.
  eexists. split; [reflexivity|]. split.
  - intros Hne. now apply WorkerFacts.set_status_of_miss.
  - intros E. rewrite (WorkerFacts.set_status_of_hit _ _ _ _ r E). simpl.
    repeat split. destruct (String.eqb (message e) ""); reflexivity.
Qed.

Lemma sample_worker_suspended :
  exists w job,
    JobWorker.map_get "alpha" (JobWorker.projectWorkers Samples.alpha_running) = Some w
    /\ JobWorker.currentPromise w = Some job
    /\ JobDb.id job = 1%Z
    /\ JobDb.command job = "run tests"
    /\ JobDb.options job = JObj []
    /\ JobDb.fault (JobWorker.db Samples.alpha_running) = None
    /\ exists r, JobDb.jobs (JobWorker.db Samples.alpha_running)
                 = [r; Samples.row 2 "beta" (Some "ses-1") JobDb.pending 0 200]
                 /\ JobDb.id r = 1%Z /\ JobDb.status r = JobDb.running.
Proof.
  eexists. eexists. split; [vm_compute; reflexivity|].
  repeat split; try reflexivity.
  eexists. split; [vm_compute; reflexivity|]. split; reflexivity.
Qed.

(** C6, as stated, fails on the truncation: in the state [alpha_running]
    of the server, whatever the bound, the message of an error longer
    than the bound is stored whole. *)
Lemma error_message_not_truncated :
  JobWorker.reachable Samples.alpha_running
  /\ ~ exists bound : nat,
      forall (e : Error) (r : JobDb.JobOf string),
        In r (JobDb.jobs (JobWorker.db
                (fst (JobWorker.resumeProjectJobs "alpha" (Throw e) 500
                        Samples.alpha_running)))) ->
        JobDb.status r = JobDb.failed ->
        match JobDb.error_message r with
        | Some m => String.length m <= bound
        | None => True
        end.
Proof.
  split; [apply sample_run_reachable|].
  intros (bound & Hbound).
  destruct sample_worker_suspended as (w & job & Hw & Hjob & Hid & _ & _ & Hfault & r & Hrows & Hr & _).
  pose (e := {| message := String "x" (Samples.padding bound) |}).
  pose proof (InvariantFacts.reachable_invariant _ (proj1 sample_run_reachable)) as [_ Hworkers].
  specialize (Hbound e (JobDb.updated JobDb.failed (Some (message e)) 500 r)).
  rewrite (WorkerFacts.rejected_rows "alpha" e 500 _ w job Hworkers Hw Hjob Hfault) in Hbound.
  rewrite Hrows, Hid in Hbound. simpl map in Hbound.
  rewrite (WorkerFacts.set_status_of_hit 1 _ _ _ r Hr) in Hbound.
  specialize (Hbound (or_introl eq_refl) eq_refl).
  simpl in Hbound. rewrite WorkerFacts.padding_length in Hbound. lia.
Qed.

(** C9 (amended).  In every state that satisfies the invariant of the
    server states (every state of the server does, and so does the state
    in which [startProjectWorker] calls [processProjectJobs]) and in which
    the store works: when a worker claims a job it records it as running
    before the child is started, and the job is seen running until the
    promise of the execution rejects.  When the child cannot be started,
    the promise rejects with the error of the spawn, and the worker then
    records the job as failed, without raising. *)
Theorem spawn_failure_after_running (s : JobWorker.State) (p : string)
    (job : JobDb.Job) (e : Error) (now later : Z) :
  Spec.invariant s ->
  JobDb.fault (JobWorker.db s) = None ->
  JobWorker.isShuttingDown s = false ->
  JobWorker.map_has p (JobWorker.projectWorkers s) = true ->
  JobDb.getNextJobForProject p (JobWorker.db s) = Return (Some job) ->
  let claimed := fst (JobWorker.processProjectJobs p now s) in
  let after := JobWorker.resumeProjectJobs p (Throw e) later claimed in
  (exists r, In r (JobDb.jobs (JobWorker.db claimed))
             /\ JobDb.id r = JobDb.id job /\ JobDb.status r = JobDb.running)
  /\ (forall r, In r (JobDb.jobs (JobWorker.db claimed)) ->
                JobDb.id r = JobDb.id job -> JobDb.status r = JobDb.running)
  /\ (forall child,
        ClaudeCli.spawn (JobDb.command job) (JobDb.options job) = Return child ->
        JobWorker.settles job [ClaudeCli.error e] (Throw e))
  /\ (exists r, In r (JobDb.jobs (JobWorker.db (fst after)))
                /\ JobDb.id r = JobDb.id job /\ JobDb.status r = JobDb.failed)
  /\ (forall r, In r (JobDb.jobs (JobWorker.db (fst after))) ->
                JobDb.id r = JobDb.id job -> JobDb.status r = JobDb.failed)
  /\ snd after = None.
Proof.
  intros Hinv Hfault Hshut Hhas Hnext claimed after.
  destruct (WorkerFacts.map_has_get _ _ Hhas) as [w Hw].
  destruct (InvariantFacts.nextRow_job p _ job Hnext) as (c & (Hc & _) & Hid).
  pose proof (WorkerFacts.claim_step p now s w job Hw Hshut Hfault Hnext) as Hstep.
  assert (Hclaimed_inv : Spec.invariant claimed).
  { apply (InvariantFacts.processProjectJobs_ok p now s Hinv). }
  subst after. subst claimed. rewrite Hstep in *. cbn [fst] in *.
  set (claimed := JobWorker.emit _ _) in *.
  assert (Hrows : JobDb.jobs (JobWorker.db claimed)
                  = map (Spec.set_status_of (JobDb.id job) JobDb.running None now)
                        (JobDb.jobs (JobWorker.db s))) by reflexivity.
  assert (Hw' : JobWorker.map_get p (JobWorker.projectWorkers claimed)
                = Some {| JobWorker.projectName := p; JobWorker.isRunning := true;
                          JobWorker.currentJobId := Some (JobDb.id job);
                          JobWorker.currentPromise := Some job |}).
  { subst claimed. simpl. rewrite InvariantFacts.map_get_set.
    now rewrite String.eqb_refl. }
  rewrite (WorkerFacts.rejected_rows p e later claimed _ job
             (proj2 Hclaimed_inv) Hw' eq_refl Hfault).
  rewrite (WorkerFacts.rejected_step p e later claimed _ job
             (proj2 Hclaimed_inv) Hw' eq_refl Hfault).
  cbn [snd]. rewrite Hrows.
  split; [|split; [|split; [|split; [|split]]]].
  - apply WorkerFacts.set_status_of_present with (r := c); congruence.
  - intros r Hr E. eapply WorkerFacts.set_status_of_status; eassumption.
  - intros child Hchild. exists child. split; [exact Hchild|].
    eapply WorkerFacts.spawn_error_rejects. exact Hchild.
  - destruct (WorkerFacts.set_status_of_present (JobDb.id job) JobDb.running None now
                (JobDb.jobs (JobWorker.db s)) c Hc (eq_sym Hid)) as (r1 & H1 & I1 & _).
    apply WorkerFacts.set_status_of_present with (r := r1); assumption.
  - intros r Hr E. eapply WorkerFacts.set_status_of_status; eassumption.
  - reflexivity.
Qed.

(** C9, as stated, fails: in the state [alpha_running] of the server, job
    1 is stored as running, and its child is one that cannot be started. *)
Lemma spawn_failure_seen_running :
  JobWorker.reachable Samples.alpha_running
  /\ exists w job r,
       JobWorker.map_get "alpha" (JobWorker.projectWorkers Samples.alpha_running) = Some w
       /\ JobWorker.currentPromise w = Some job
       /\ JobWorker.settles job [ClaudeCli.error Samples.ENOENT] (Throw Samples.ENOENT)
       /\ In r (JobDb.jobs (JobWorker.db Samples.alpha_running))
       /\ JobDb.id r = JobDb.id job
       /\ JobDb.status r = JobDb.running.
Proof.
  split; [apply sample_run_reachable|].
  destruct sample_worker_suspended
    as (w & job & Hw & Hjob & Hid & Hcmd & Hopts & _ & r & Hrows & Hr & Hrun).
  exists w, job, r. repeat split; try assumption.
  - unfold JobWorker.settles. rewrite Hcmd, Hopts.
    eexists. split; reflexivity.
  - rewrite Hrows. now left.
  - congruence.
Qed.
(** ** spawnClaude: the lines of the child's output *)
Module StdoutFacts.
Import ClaudeCli Texts OutputLines.














Section Parser.
Variable JSON_parse : string -> outcome jsval.






End Parser.

End StdoutFacts.



(** ** The options of a job, written and read back *)
Module OptionsFacts.
Import JobDb Spec OrderFacts ClaimFacts.
Local Open Scope Z_scope.

Lemma parse_row_fields (r : Row) (j : Job) :
  parse_row r = Return j ->
  id j = id r /\ JSON.parse (options r) = Return (options j).
Proof.
  unfold parse_row. destruct (JSON.parse (options r)) as [o|]; simpl; [|discriminate].
  intros H. injection H as <-. split; reflexivity.
Qed.

Lemma parse_rows_In (rows : list Row) (js : list Job) (j : Job) :
  parse_rows rows = Return js -> In j js ->
  exists r, In r rows /\ parse_row r = Return j.
Proof.
  revert js. induction rows as [|r l IH]; intros js; simpl.
  - intros H. injection H as <-. contradiction.
  - destruct (parse_row r) as [j0|] eqn:E0; simpl; [|discriminate].
    destruct (parse_rows l) as [js0|]; simpl; [|discriminate].
    intros H. injection H as <-. intros [<- | Hin].
    + exists r. split; [now left | exact E0].
    + destruct (IH js0 eq_refl Hin) as (r' & Hr' & E'). exists r'. split; [now right | exact E'].
Qed.

Lemma In_limit {A : Type} (n : nat) (l : list A) (x : A) : In x (limit n l) -> In x l.
Proof.
  unfold limit. intros H. rewrite <- (firstn_skipn n l). apply in_or_app. now left.
Qed.

(** Every job a query returns is a stored row with its options parsed. *)
Lemma getNextJobForProject_row p d job :
  getNextJobForProject p d = Return (Some job) ->
  exists r, In r (jobs d) /\ parse_row r = Return job.
Proof.
  unfold getNextJobForProject. destruct (fault d); [discriminate|].
  pose proof (nextRow_spec p (jobs d)) as Hn.
  destruct (nextRow p (jobs d)) as [r|]; [|discriminate].
  destruct (parse_row r) as [j|] eqn:E; simpl; [|discriminate].
  intros H. injection H as <-. exists r. split; [apply Hn | exact E].
Qed.

Lemma getActiveJobs_row d js job :
  getActiveJobs d = Return js -> In job js ->
  exists r, In r (jobs d) /\ parse_row r = Return job.
Proof.
  unfold getActiveJobs. destruct (fault d); [discriminate|].
  intros H Hin. destruct (parse_rows_In _ _ _ H Hin) as (r & Hr & E).
  exists r. split; [|exact E]. apply order_by_In, filter_In in Hr. apply Hr.
Qed.

Lemma getJobsForProject_row p n d js job :
  getJobsForProject p n d = Return js -> In job js ->
  exists r, In r (jobs d) /\ parse_row r = Return job.
Proof.
  unfold getJobsForProject. destruct (fault d); [discriminate|].
  intros H Hin. destruct (parse_rows_In _ _ _ H Hin) as (r & Hr & E).
  exists r. split; [|exact E].
  apply In_limit, order_by_In, filter_In in Hr. apply Hr.
Qed.

End OptionsFacts.

(** C8 (amended).  For every options value that JSON can carry (built
    from null, booleans, finite Numbers other than negative zero,
    strings, arrays and objects, with no [undefined] inside): a working
    store accepts a job without a user that has these options; and for
    every call of [addJob] with them that returns, the row added holds
    the text [JSON.stringify] writes for the value, the rows that were
    there are as they were, that text parses back to the same value, and
    the job read back through [getNextJobForProject], [getActiveJobs] or
    [getJobsForProject] has options equal to the ones enqueued. *)
Theorem options_round_trip (p : string) (sid : option string) (cmd : string)
    (opts : jsval) (uid : option Z) (prio now : Z) (d d' : JobDb.Database)
    (jobId : Z) :
  JSON.representable opts = true ->
  (JobDb.fault d = None ->
   exists i d1, JobDb.addJob p sid cmd opts None prio now d = Return (i, d1))
  /\ (JobDb.addJob p sid cmd opts uid prio now d = Return (jobId, d') ->
      exists text,
        JSON.stringify opts = Some text
        /\ JSON.parse text = Return opts
        /\ (exists r, JobDb.jobs d' = (JobDb.jobs d ++ [r])%list
                      /\ JobDb.id r = jobId /\ JobDb.options r = text)
        /\ (forall q job,
              JobDb.getNextJobForProject q d' = Return (Some job) ->
              JobDb.id job = jobId -> JobDb.options job = opts)
        /\ (forall js job,
              JobDb.getActiveJobs d' = Return js -> In job js ->
              JobDb.id job = jobId -> JobDb.options job = opts)
        /\ (forall q n js job,
              JobDb.getJobsForProject q n d' = Return js -> In job js ->
              JobDb.id job = jobId -> JobDb.options job = opts)).
Proof.
  intros Hrep.
  destruct (JSONFacts.stringify_representable opts Hrep) as [text Ht].
  split.
  { intros Hfault. unfold JobDb.addJob. rewrite Hfault, Ht. eauto. }
  intros Hadd.
  destruct (InvariantFacts.largest_rowid_bounds (JobDb.jobs d)) as [_ Hb].
  assert (Hparse : JSON.parse text = Return opts).
  { rewrite (JSONFacts.parse_stringify opts text Ht).
    now rewrite JSONFacts.read_back_representable. }
  unfold JobDb.addJob in Hadd. destruct (JobDb.fault d) eqn:Hfault; [discriminate|].
  rewrite Ht in Hadd. injection Hadd as <- <-.
  exists text. split; [exact Ht|]. split; [exact Hparse|].
  set (newId := (Z.max (JobDb.sequence d) (JobDb.largest_rowid (JobDb.jobs d)) + 1)%Z).
  set (row := JobDb.mkJob newId p sid cmd text JobDb.pending prio now
                          None None None uid).
  set (d' := {| JobDb.jobs := (JobDb.jobs d ++ [row])%list;
                JobDb.sequence := newId;
                JobDb.fault := None |}).
  assert (Hrow : forall r job,
             In r (JobDb.jobs d') -> JobDb.parse_row r = Return job ->
             JobDb.id job = newId -> JobDb.options job = opts).
  { intros r job Hr Hj Hid.
    destruct (OptionsFacts.parse_row_fields r job Hj) as [Hidr Hopt].
    simpl in Hr. apply in_app_or in Hr as [Hr | [<- | []]].
    - specialize (Hb r Hr). subst newId. lia.
    - simpl in Hopt. congruence. }
  split; [|split; [|split]].
  - exists row. split; [reflexivity | split; reflexivity].
  - intros q job Hq. destruct (OptionsFacts.getNextJobForProject_row q d' job Hq)
      as (r & Hr & Hj). eauto.
  - intros js job Hjs Hin. destruct (OptionsFacts.getActiveJobs_row d' js job Hjs Hin)
      as (r & Hr & Hj). eauto.
  - intros q n js job Hjs Hin.
    destruct (OptionsFacts.getJobsForProject_row q n d' js job Hjs Hin) as (r & Hr & Hj).
    eauto.
Qed.

(** C8, as stated, fails for the options that JSON cannot carry, which
    [addJob] accepts all the same: of options with an [undefined]
    property the job read back has lost the property; a Number that is
    not finite is read back as [null]; negative zero is read back as
    zero. *)
Lemma option_value_not_read_back :
  (exists d' job,
      JobDb.addJob "alpha" None "run tests" Samples.resume_undefined None 0 100
                   JobWorker.empty_database = Return (1%Z, d')
      /\ JobDb.getNextJobForProject "alpha" d' = Return (Some job)
      /\ JobDb.id job = 1%Z
      /\ JobDb.options job = JObj []
      /\ JobDb.options job <> Samples.resume_undefined)
  /\ (exists d' job,
        JobDb.addJob "alpha" None "run tests" Samples.timeout_unset None 0 100
                     JobWorker.empty_database = Return (1%Z, d')
        /\ JobDb.getNextJobForProject "alpha" d' = Return (Some job)
        /\ JobDb.id job = 1%Z
        /\ JobDb.options job = JObj [("timeout", JNull)]
        /\ JobDb.options job <> Samples.timeout_unset)
  /\ (exists d' job,
        JobDb.addJob "alpha" None "run tests" Samples.budget_unbounded None 0 100
                     JobWorker.empty_database = Return (1%Z, d')
        /\ JobDb.getNextJobForProject "alpha" d' = Return (Some job)
        /\ JobDb.id job = 1%Z
        /\ JobDb.options job = JObj [("budget", JNull)]
        /\ JobDb.options job <> Samples.budget_unbounded)
  /\ (exists d' job,
        JobDb.addJob "alpha" None "run tests" Samples.offset_negative_zero None 0 100
                     JobWorker.empty_database = Return (1%Z, d')
        /\ JobDb.getNextJobForProject "alpha" d' = Return (Some job)
        /\ JobDb.id job = 1%Z
        /\ JobDb.options job = JObj [("offset", JNum Number.zero)]
        /\ JobDb.options job <> Samples.offset_negative_zero).
Proof.
  split; [|split; [|split]];
    (eexists; eexists; split; [reflexivity|]; split; [vm_compute; reflexivity|];
     split; [reflexivity|]; split; [reflexivity | discriminate]).
Qed.

(** ** The theorems at sample inputs *)

Lemma queue_options_parse : Spec.options_parse (JobDb.jobs Samples.queue).
Proof.
  intros r Hr. exists (JObj []). simpl in Hr.
  destruct Hr as [<- | [<- | [<- | [<- | []]]]]; reflexivity.
Qed.

(** C1 at the sample queue: B (job 2) is returned, pending, although the
    failed job 4 has the highest priority. *)
Lemma getNextJobForProject_minimal_witness :
  JobDb.fault Samples.queue = None
  /\ Spec.options_parse (JobDb.jobs Samples.queue)
  /\ exists r job,
       JobDb.getNextJobForProject "alpha" Samples.queue = Return (Some job)
       /\ Spec.candidate "alpha" (JobDb.jobs Samples.queue) r
       /\ Spec.hands_out r job
       /\ job = JobDb.mkJob 2%Z "alpha" None "run tests" (JObj []) JobDb.pending 5%Z 200%Z
                            None None None None.
Proof.
  split; [reflexivity|]. split; [exact queue_options_parse|].
  destruct (getNextJobForProject_minimal "alpha" Samples.queue eq_refl queue_options_parse)
    as [[_ Hnone] | (r & job & Hret & Hc & Hout & _)].
  - vm_compute in Hnone. discriminate Hnone.
  - exists r, job. split; [exact Hret|]. split; [exact Hc|]. split; [exact Hout|].
    vm_compute in Hret. injection Hret as <-. reflexivity.
Defined.

Lemma restart_run_reachable : JobWorker.reachable Samples.second_done.
Proof.
  assert (H1 : JobWorker.reachable Samples.queued_alpha).
  { apply (JobWorker.reach_addJob (JobWorker.create JobWorker.empty_database)
             "alpha" (Some "ses-1") "run tests" (JObj []) None 0 100 1);
      [apply JobWorker.reach_start | reflexivity]. }
  assert (H2 : JobWorker.reachable Samples.alpha_alone_running).
  { apply JobWorker.reach_immediate; [exact H1|]. vm_compute. auto. }
  assert (H3 : JobWorker.reachable Samples.restarted).
  { apply JobWorker.reach_restart. exact H2. }
  assert (H4 : JobWorker.reachable Samples.queued_second).
  { apply (JobWorker.reach_addJob Samples.restarted
             "alpha" (Some "ses-2") "run tests" (JObj []) None 0 400 2);
      [exact H3 | reflexivity]. }
  assert (H5 : JobWorker.reachable Samples.queued_third).
  { apply (JobWorker.reach_addJob Samples.queued_second
             "alpha" (Some "ses-1") "run tests" (JObj []) None 0 500 3);
      [exact H4 | reflexivity]. }
  assert (H6 : JobWorker.reachable Samples.second_running).
  { apply JobWorker.reach_immediate; [exact H5|]. vm_compute. auto. }
  apply (JobWorker.reach_settle Samples.second_running "alpha"
           {| JobWorker.projectName := "alpha"; JobWorker.isRunning := true;
              JobWorker.currentJobId := Some 2%Z;
              JobWorker.currentPromise :=
                Some (JobDb.with_options
                        (Samples.row 2 "alpha" (Some "ses-2") JobDb.pending 0 400)
                        (JObj [])) |}
           (JobDb.with_options (Samples.row 2 "alpha" (Some "ses-2") JobDb.pending 0 400)
                               (JObj []))
           [ClaudeCli.close (Some 0%Z)] (Return tt) 700 H6).
  - vm_compute. reflexivity.
  - reflexivity.
  - eexists. split; vm_compute; reflexivity.
Qed.

(** C2 after a restart: jobs 1 and 3 of project alpha share the session
    ses-1, and job 1 is still stored as running; the worker of alpha is
    about to claim, and its claim leaves job 3 pending. *)
Lemma session_exclusive_within_project_witness :
  JobWorker.reachable Samples.second_done
  /\ (exists a b c w,
         JobDb.jobs (JobWorker.db Samples.second_done) = [a; b; c]
         /\ JobDb.project_name a = "alpha" /\ JobDb.project_name c = "alpha"
         /\ JobDb.session_id a = Some "ses-1" /\ JobDb.session_id c = Some "ses-1"
         /\ JobDb.status a = JobDb.running /\ JobDb.status c = JobDb.pending
         /\ JobWorker.map_get "alpha" (JobWorker.projectWorkers Samples.second_done)
            = Some w
         /\ JobWorker.isRunning w = false)
  /\ Spec.session_exclusive_in_project
       (JobDb.jobs (JobWorker.db Samples.second_done))
  /\ Spec.session_exclusive_in_project
       (JobDb.jobs (JobWorker.db
                      (fst (JobWorker.processProjectJobs "alpha" 800 Samples.second_done))))
  /\ JobDb.jobs (JobWorker.db
                   (fst (JobWorker.processProjectJobs "alpha" 800 Samples.second_done)))
     = JobDb.jobs (JobWorker.db Samples.second_done).
Proof.
  split; [exact restart_run_reachable|].
  split; [do 4 eexists; split; [vm_compute; reflexivity | repeat split; reflexivity]|].
  destruct (session_exclusive_within_project Samples.second_done restart_run_reachable)
    as [Hnow Hstep].
  split; [exact Hnow|]. split; [exact (Hstep "alpha" 800%Z)|].
  vm_compute. reflexivity.
Defined.




Lemma backlog_ids : NoDup (map JobDb.id (JobDb.jobs Samples.backlog)).
Proof.
  unfold Samples.backlog, Samples.table. cbn [JobDb.jobs]. rewrite map_map.
  apply Finite.Injective_map_NoDup; [|apply seq_NoDup].
  intros x y H. cbn [JobDb.id Samples.finished_row] in H. now apply Nat2Z.inj.
Qed.

(** C4 at the backlog of 101 completed jobs: 100 remain, each once. *)
Lemma cleanupOldJobs_retention_witness :
  JobDb.fault Samples.backlog = None
  /\ NoDup (map JobDb.id (JobDb.jobs Samples.backlog))
  /\ exists d',
       JobDb.cleanupOldJobs (Some "alpha") Samples.backlog = Return d'
       /\ List.length (filter (Spec.finished_job "alpha") (JobDb.jobs d')) = 100%nat
       /\ NoDup (map JobDb.id (JobDb.jobs d'))
       /\ exists remains,
            JobDb.jobs d' = filter remains (JobDb.jobs Samples.backlog).
Proof.
  split; [reflexivity|]. split; [exact backlog_ids|].
  destruct (cleanupOldJobs_retention Samples.backlog eq_refl backlog_ids) as [Hone _].
  assert (Hname : "alpha" <> "") by discriminate.
  destruct (Hone "alpha" Hname) as (d' & Hret & _ & (_ & _ & Hlen & _ & Hrows) & Hnd).
  exists d'. split; [exact Hret|].
  split; [rewrite Hlen; vm_compute; reflexivity|]. split; [exact Hnd | exact Hrows].
Defined.

(** C5 at a job that failed before: the new diagnostic replaces the old. *)
Lemma updateJobStatus_effect_witness :
  JobDb.fault Samples.failed_before = None
  /\ exists d' r',
       JobDb.updateJobStatus 1 JobDb.failed (Some "exit 1") 900 Samples.failed_before
       = Return d'
       /\ nth_error (JobDb.jobs d') 0 = Some r'
       /\ JobDb.status r' = JobDb.failed
       /\ JobDb.started_at r' = Some 150%Z
       /\ JobDb.completed_at r' = Some 900%Z
       /\ JobDb.error_message r' = Some "exit 1".
Proof.
  split; [reflexivity|].
  destruct (updateJobStatus_effect 1 JobDb.failed (Some "exit 1") 900
              Samples.failed_before eq_refl) as (d' & Hret & _ & _ & _ & Hrows).
  destruct (Hrows 0%nat _ eq_refl) as (r' & Hn & _ & Hhit).
  destruct (Hhit eq_refl) as (Hs & Hst & Hc & Hm & _).
  exists d', r'. repeat split; assumption.
Defined.

(** C6 in the sample run: the spawn error of job 1 is caught. *)
Lemma adapter_error_recorded_witness :
  JobWorker.reachable Samples.alpha_running
  /\ exists w job,
       JobWorker.map_get "alpha" (JobWorker.projectWorkers Samples.alpha_running) = Some w
       /\ JobWorker.currentPromise w = Some job
       /\ JobDb.fault (JobWorker.db Samples.alpha_running) = None
       /\ snd (JobWorker.resumeProjectJobs "alpha" (Throw Samples.ENOENT) 500
                 Samples.alpha_running) = None
       /\ JobWorker.emitted
            (fst (JobWorker.resumeProjectJobs "alpha" (Throw Samples.ENOENT) 500
                    Samples.alpha_running))
          = (JobWorker.emitted Samples.alpha_running
             ++ [JobWorker.job_failed (JobDb.id job) "alpha" "spawn claude ENOENT"])%list.
Proof.
  split; [apply sample_run_reachable|].
  destruct sample_worker_suspended as (w & job & Hw & Hjob & _ & _ & _ & Hfault & _).
  exists w, job. split; [exact Hw|]. split; [exact Hjob|]. split; [exact Hfault|].
  destruct (adapter_error_recorded Samples.alpha_running "alpha" w job Samples.ENOENT 500
              (proj1 sample_run_reachable) Hw Hjob Hfault) as (Hsnd & Hemit & _).
  split; [exact Hsnd | exact Hemit].
Defined.


(** C8 at sample options, with an integer, a fraction and a large
    Number among them. *)
Lemma options_round_trip_witness :
  JSON.representable Samples.plain_options = true
  /\ JobDb.addJob "alpha" None "run tests" Samples.plain_options None 0 400 Samples.queue
     = Return (5%Z, Samples.queue_with_options)
  /\ exists text r,
       JSON.stringify Samples.plain_options = Some text
       /\ JSON.parse text = Return Samples.plain_options
       /\ JobDb.jobs Samples.queue_with_options = (JobDb.jobs Samples.queue ++ [r])%list
       /\ JobDb.options r = text.
Proof.
  assert (Hrep : JSON.representable Samples.plain_options = true)
    by (vm_compute; reflexivity).
  assert (Hadd : JobDb.addJob "alpha" None "run tests" Samples.plain_options None 0 400
                              Samples.queue
                 = Return (5%Z, Samples.queue_with_options))
    by (vm_compute; reflexivity).
  split; [exact Hrep|]. split; [exact Hadd|].
  destruct (proj2 (options_round_trip "alpha" None "run tests" Samples.plain_options
                     None 0 400 Samples.queue Samples.queue_with_options 5 Hrep) Hadd)
    as (text & Htext & Hparse & (r & Hrows & _ & Hopt) & _).
  exists text, r. repeat split; assumption.
Defined.

Lemma alpha_started_invariant : Spec.invariant Samples.alpha_started.
Proof.
  assert (Hq : JobWorker.reachable Samples.queued_both).
  { apply (JobWorker.reach_addJob Samples.queued_alpha
             "beta" (Some "ses-1") "run tests" (JObj []) None 0 200 2);
      [|reflexivity].
    apply (JobWorker.reach_addJob (JobWorker.create JobWorker.empty_database)
             "alpha" (Some "ses-1") "run tests" (JObj []) None 0 100 1);
      [apply JobWorker.reach_start | reflexivity]. }
  apply InvariantFacts.reachable_invariant in Hq. destruct Hq as [Hstore _].
  split; [exact Hstore|].
  apply (InvariantFacts.workers_ok_set "alpha" _ []);
    [apply InvariantFacts.idle_holds_job_id | apply InvariantFacts.workers_ok_empty].
Qed.

(** C9 in the sample run: job 1 is running after the claim, and failed
    after its child could not be started. *)
Lemma spawn_failure_after_running_witness :
  Spec.invariant Samples.alpha_started
  /\ JobDb.fault (JobWorker.db Samples.alpha_started) = None
  /\ JobWorker.isShuttingDown Samples.alpha_started = false
  /\ JobWorker.map_has "alpha" (JobWorker.projectWorkers Samples.alpha_started) = true
  /\ JobDb.getNextJobForProject "alpha" (JobWorker.db Samples.alpha_started)
     = Return (Some Samples.job1)
  /\ (exists r,
        In r (JobDb.jobs (JobWorker.db
                (fst (JobWorker.processProjectJobs "alpha" 300 Samples.alpha_started))))
        /\ JobDb.id r = 1%Z /\ JobDb.status r = JobDb.running)
  /\ (exists r,
        In r (JobDb.jobs (JobWorker.db
                (fst (JobWorker.resumeProjectJobs "alpha" (Throw Samples.ENOENT) 500
                        (fst (JobWorker.processProjectJobs "alpha" 300
                                Samples.alpha_started))))))
        /\ JobDb.id r = 1%Z /\ JobDb.status r = JobDb.failed).
Proof.
  assert (Hnext : JobDb.getNextJobForProject "alpha" (JobWorker.db Samples.alpha_started)
                  = Return (Some Samples.job1)) by (vm_compute; reflexivity).
  split; [exact alpha_started_invariant|]. split; [reflexivity|].
  split; [reflexivity|]. split; [reflexivity|]. split; [exact Hnext|].
  destruct (spawn_failure_after_running Samples.alpha_started "alpha" Samples.job1
              Samples.ENOENT 300 500 alpha_started_invariant eq_refl eq_refl eq_refl Hnext)
    as (Hrun & _ & _ & Hfail & _ & _).
  split; [exact Hrun | exact Hfail].
Defined.

(* ===================================================================== *)
(** * Part III: further properties of the code

    Properties of the code around the claims above: the listings and the
    ids of [jobDb], [userDb], the promise and the command line of
    [spawnClaude] and its registry, [start], [executeJob] and the worker
    loop of [JobWorker], and the functions of [server/projects.js] on
    names, paths, the configuration and the session files. *)
(* ===================================================================== *)

(** ** jobDb: the listings, the ids, the clean-up *)
Module ListingFacts.
Import JobDb Spec Listing OrderFacts ClaimFacts CleanupFacts RecoveryFacts OptionsFacts.
Local Open Scope Z_scope.



Lemma ascii_compare_refl (a : ascii) : Ascii.compare a a = Eq.
Proof. unfold Ascii.compare. apply N.compare_refl. Qed.

Lemma string_compare_refl (s : string) : (s ?= s)%string = Eq.
Proof. induction s as [|c s IH]; simpl; [reflexivity|]. now rewrite ascii_compare_refl. Qed.






Lemma newest_first_total (a b : Row) :
  newest_first a b = true \/ newest_first b a = true.
Proof. unfold newest_first. rewrite !Z.leb_le. lia. Qed.

Lemma newest_first_trans (a b c : Row) :
  newest_first a b = true -> newest_first b c = true -> newest_first a c = true.
Proof. unfold newest_first. rewrite !Z.leb_le. lia. Qed.

(** The jobs read from a list of rows are the rows, options parsed. *)
Lemma parse_rows_read (rows : list Row) :
  options_parse rows ->
  exists js, parse_rows rows = Return js /\ Forall2 read_from rows js.
Proof.
  induction rows as [|r l IH]; intros Hp; simpl.
  - exists []. split; [reflexivity | constructor].
  - destruct (Hp r (or_introl eq_refl)) as [o Ho].
    destruct IH as (js & Hjs & Hall); [intros x Hx; apply Hp; now right|].
    unfold parse_row. rewrite Ho. simpl. rewrite Hjs. simpl.
    exists (with_options r o :: js). split; [reflexivity|].
    constructor; [now exists o | assumption].
Qed.

Lemma read_from_ids (rows : list Row) (js : list Job) :
  Forall2 read_from rows js -> map id js = map id rows.
Proof.
  induction 1 as [|r j l js' (o & _ & ->) _ IH]; simpl; [reflexivity|].
  now rewrite IH.
Qed.

Lemma Forall2_right {A B : Type} (R : A -> B -> Prop) (l : list A) (l' : list B) (y : B) :
  Forall2 R l l' -> In y l' -> exists x, In x l /\ R x y.
Proof.
  induction 1 as [|a b l0 l0' Hab _ IH]; intros Hin; [contradiction|].
  destruct Hin as [<- | Hin].
  - exists a. split; [now left | assumption].
  - destruct (IH Hin) as (x & Hx & Hr). exists x. split; [now right | assumption].
Qed.

Lemma Forall2_left {A B : Type} (R : A -> B -> Prop) (l : list A) (l' : list B) (x : A) :
  Forall2 R l l' -> In x l -> exists y, In y l' /\ R x y.
Proof.
  induction 1 as [|a b l0 l0' Hab _ IH]; intros Hin; [contradiction|].
  destruct Hin as [<- | Hin].
  - exists b. split; [now left | assumption].
  - destruct (IH Hin) as (y & Hy & Hr). exists y. split; [now right | assumption].
Qed.

Lemma read_from_sorted (Rr : Row -> Row -> Prop) (Rj : Job -> Job -> Prop)
    (rows : list Row) (js : list Job) :
  (forall (r r' : Row) (o o' : jsval),
      Rr r r' -> Rj (with_options r o) (with_options r' o')) ->
  Forall2 read_from rows js ->
  StronglySorted Rr rows -> StronglySorted Rj js.
Proof.
  intros HR Hall. induction Hall as [|r j l js' (o & _ & ->) Hrest IH]; intros Hs.
  - constructor.
  - inversion Hs as [|? ? Hs' Hfirst]; subst. constructor; [now apply IH|].
    rewrite Forall_forall in *. intros j' Hj'.
    destruct (Forall2_right _ _ _ _ Hrest Hj') as (r' & Hr' & (o' & _ & ->)).
    apply HR. now apply Hfirst.
Qed.

Lemma sorted_impl {A : Type} (P Q : A -> A -> Prop) (l : list A) :
  (forall a b, P a b -> Q a b) -> StronglySorted P l -> StronglySorted Q l.
Proof.
  intros H. induction 1 as [|x l' Hs IH Hx]; constructor; [assumption|].
  eapply Forall_impl; [|exact Hx]. auto.
Qed.

Lemma delete_old_small (q : string) (rows : list Row) :
  (List.length (filter (finished_in q) rows) <= 100)%nat ->
  delete_old q rows = rows.
Proof.
  intros Hlen. unfold delete_old.
  assert (Hkeep : forall r, In r rows -> finished_in q r = true ->
                  existsb (Z.eqb (id r)) (retained_ids q rows) = true).
  { intros r Hr Hf. apply existsb_id_In. unfold retained_ids, limit.
    rewrite firstn_all2.
    - apply in_map, order_by_In, filter_In. auto.
    - now rewrite (Permutation_length (order_by_perm completed_last_first _)). }
  induction rows as [|x l IH]; [reflexivity|].
  set (keep := retained_ids q (x :: l)) in *.
  assert (Hall : forall r, In r (x :: l) ->
                 negb (finished_in q r && negb (existsb (Z.eqb (id r)) keep)) = true).
  { intros r Hr. destruct (finished_in q r) eqn:Ef; [|reflexivity].
    now rewrite (Hkeep r Hr Ef). }
  clear - Hall. generalize dependent keep. intros keep.
  generalize (x :: l). intros rows Hall.
  induction rows as [|y rows IH]; simpl; [reflexivity|].
  rewrite (Hall y (or_introl eq_refl)). f_equal. apply IH.
  intros r Hr. apply Hall. now right.
Qed.

Lemma delete_old_at_most_100 (q : string) (rows : list Row) :
  NoDup (map id rows) ->
  (List.length (filter (finished_in q) (delete_old q rows)) <= 100)%nat.
Proof.
  intros Hnd. destruct (delete_old_effect q rows Hnd) as (_ & _ & Hlen & _).
  rewrite Hlen. apply Nat.le_min_l.
Qed.

Lemma filter_finished_of_project (q : string) (rows : list Row) :
  filter (finished_in q) (filter (of_project q) rows) = filter (finished_in q) rows.
Proof.
  induction rows as [|x l IH]; simpl; [reflexivity|].
  destruct (of_project q x) eqn:E; simpl.
  - now rewrite IH.
  - destruct (finished_in q x) eqn:Ef; [|exact IH].
    apply finished_in_of_project in Ef. congruence.
Qed.

End ListingFacts.


(** X2.  With a working store whose options texts parse,
    [getJobsForProject(p, n)] returns jobs of project [p] only, each the
    job of a row (every column of the row, with the options read from
    their text), each row once: the rows returned and the rows left out
    are together the rows of [p], no more and no fewer.  It returns [n]
    of them, or all when the project has fewer, the most recently created
    first; every job of [p] that is left out was created no later than
    every job returned. *)
Theorem getJobsForProject_newest (p : string) (n : nat) (d : JobDb.Database) :
  JobDb.fault d = None ->
  Spec.options_parse (JobDb.jobs d) ->
  exists rows omitted js,
    JobDb.getJobsForProject p n d = Return js
    /\ Forall2 Spec.hands_out rows js
    /\ Permutation (rows ++ omitted) (filter (Spec.of_project p) (JobDb.jobs d))
    /\ List.length js
       = Nat.min n (List.length (filter (Spec.of_project p) (JobDb.jobs d)))
    /\ (forall r, In r rows -> In r (JobDb.jobs d) /\ JobDb.project_name r = p)
    /\ StronglySorted Listing.newer_first js
    /\ (forall r j, In r omitted -> In j js ->
                    (JobDb.created_at r <= JobDb.created_at j)%Z)
    /\ (forall r, In r (JobDb.jobs d) -> JobDb.project_name r = p -> ~ In r rows ->
        forall j, In j js -> (JobDb.created_at r <= JobDb.created_at j)%Z).
Proof.
  intros Hfault Hparse. unfold JobDb.getJobsForProject. rewrite Hfault.
  change (fun r : JobDb.Row => String.eqb (JobDb.project_name r) p) with (Spec.of_project p).
  set (mine := filter (Spec.of_project p) (JobDb.jobs d)).
  set (sorted := JobDb.order_by JobDb.newest_first mine).
  set (rows := JobDb.limit n sorted).
  assert (Hsub : forall r, In r rows -> In r (JobDb.jobs d) /\ JobDb.project_name r = p).
  { intros r Hr. apply OptionsFacts.In_limit, OrderFacts.order_by_In, filter_In in Hr.
    destruct Hr as [Hr Hp]. split; [exact Hr | now apply String.eqb_eq]. }
  destruct (ListingFacts.parse_rows_read rows) as (js & Hjs & Hall).
  { intros r Hr. apply Hparse. now apply Hsub. }
  assert (Hlate : forall r j, In r (skipn n sorted) -> In j js ->
                              (JobDb.created_at r <= JobDb.created_at j)%Z).
  { intros r j Hr Hj.
    destruct (ListingFacts.Forall2_right _ _ _ _ Hall Hj) as (x & Hx & (o & _ & ->)).
    change (JobDb.created_at (JobDb.with_options x o)) with (JobDb.created_at x).
    apply Z.leb_le.
    exact (OrderFacts.limit_keeps_first JobDb.newest_first
             ListingFacts.newest_first_total ListingFacts.newest_first_trans
             n mine x r Hx Hr). }
  exists rows, (skipn n sorted), js.
  split; [exact Hjs|].
  split; [eapply Forall2_impl; [|exact Hall]; intros r j (o & Ho & ->);
          repeat split; exact Ho|].
  split; [|split; [|split; [exact Hsub|split; [|split; [exact Hlate|]]]]].
  - unfold rows, JobDb.limit. rewrite firstn_skipn.
    apply OrderFacts.order_by_perm.
  - rewrite <- (length_map JobDb.id js), (ListingFacts.read_from_ids _ _ Hall), length_map.
    unfold rows, JobDb.limit. rewrite length_firstn. unfold sorted.
    now rewrite (Permutation_length (OrderFacts.order_by_perm JobDb.newest_first mine)).
  - apply (ListingFacts.read_from_sorted
             (fun a b => JobDb.newest_first a b = true) Listing.newer_first rows js).
    + intros r r' o o' H. unfold JobDb.newest_first in H. apply Z.leb_le in H. exact H.
    + exact Hall.
    + unfold rows, JobDb.limit.
      pose proof (OrderFacts.order_by_sorted JobDb.newest_first
                    ListingFacts.newest_first_total ListingFacts.newest_first_trans mine) as Hs.
      fold sorted in Hs. clearbody sorted. clear - Hs. revert n.
      induction Hs as [|x l Hs IH Hx]; intros [|n]; simpl; try constructor.
      * apply IH.
      * rewrite Forall_forall in *. intros y Hy. apply Hx.
        rewrite <- (firstn_skipn n l). apply in_or_app. now left.
  - intros r Hr Hp Hout j Hj. apply Hlate; [|exact Hj].
    assert (Hs : In r sorted).
    { apply OrderFacts.order_by_In, filter_In. split; [exact Hr|].
      unfold Spec.of_project. now apply String.eqb_eq. }
    rewrite <- (firstn_skipn n sorted) in Hs. apply in_app_or in Hs.
    destruct Hs as [Hs | Hs]; [contradiction | exact Hs].
Qed.

(** X3.  An id is never given out twice: when the ids of the table are
    those the AUTOINCREMENT counter has issued, a job added after a
    retention clean-up gets an id above the id of every job the table
    held before the clean-up, deleted or not. *)
Theorem addJob_id_never_reused (scope : option string) (p : string)
    (sid : option string) (cmd : string) (opts : jsval) (uid : option Z)
    (prio now : Z) (d d1 d2 : JobDb.Database) (jobId : Z) :
  Spec.ids_ok d ->
  JobDb.cleanupOldJobs scope d = Return d1 ->
  JobDb.addJob p sid cmd opts uid prio now d1 = Return (jobId, d2) ->
  forall r, In r (JobDb.jobs d) -> (JobDb.id r < jobId)%Z.
Proof.
  intros (_ & _ & Hids) Hclean Hadd r Hr.
  assert (Hseq : JobDb.sequence d1 = JobDb.sequence d).
  { unfold JobDb.cleanupOldJobs in Hclean. destruct (JobDb.fault d); [discriminate|].
    destruct scope as [q|]; [destruct (truthy_text (Some q))|];
      injection Hclean as <-; reflexivity. }
  unfold JobDb.addJob in Hadd. destruct (JobDb.fault d1); [discriminate|].
  destruct (JSON.stringify opts); [|discriminate].
  injection Hadd as <- _. rewrite Hseq. specialize (Hids r Hr). lia.
Qed.

(** X4.  On a working store [addJob], for a job without a user, raises
    exactly when [options] is [undefined]: [JSON.stringify] returns
    [undefined] for it, which is bound as NULL and refused by the column
    [options TEXT NOT NULL].  The error is then that of the constraint;
    nothing is returned, so the table is as it was. *)
Theorem addJob_raises_iff_undefined (p : string) (sid : option string)
    (cmd : string) (opts : jsval) (prio now : Z) (d : JobDb.Database) :
  JobDb.fault d = None ->
  ((exists e, JobDb.addJob p sid cmd opts None prio now d = Throw e)
   <-> opts = JUndefined)
  /\ (opts = JUndefined ->
      JobDb.addJob p sid cmd opts None prio now d
      = Throw {| message := "NOT NULL constraint failed: jobs.options" |}).
Proof.
  intros Hfault. unfold JobDb.addJob. rewrite Hfault. split; [split|].
  - intros (e & H). destruct (JSON.stringify opts) eqn:E; [discriminate|].
    now apply JSONFacts.stringify_None.
  - intros ->. simpl. eauto.
  - intros ->. reflexivity.
Qed.

(** X5.  [updateJobStatus] with an id that no job has changes nothing
    and does not raise. *)
Theorem updateJobStatus_unknown_id (jobId : Z) (st : JobDb.Status)
    (msg : option string) (now : Z) (d : JobDb.Database) :
  JobDb.fault d = None ->
  (forall r, In r (JobDb.jobs d) -> JobDb.id r <> jobId) ->
  JobDb.updateJobStatus jobId st msg now d = Return d.
Proof.
  intros Hfault Hnone. unfold JobDb.updateJobStatus. rewrite Hfault. f_equal.
  rewrite (map_ext_in _ (fun r => r)).
  - now rewrite map_id, RecoveryFacts.with_jobs_same.
  - intros r Hr. destruct (Z.eqb_spec (JobDb.id r) jobId) as [E | _]; [|reflexivity].
    exfalso. exact (Hnone r Hr E).
Qed.

(** X6.  The retention clean-up is idempotent: on a table with distinct
    ids, running [cleanupOldJobs] again with the same argument, right
    after a run, deletes nothing more. *)
Theorem cleanupOldJobs_idempotent (scope : option string) (d d1 : JobDb.Database) :
  NoDup (map JobDb.id (JobDb.jobs d)) ->
  JobDb.cleanupOldJobs scope d = Return d1 ->
  JobDb.cleanupOldJobs scope d1 = Return d1.
Proof.
  intros Hnd Hclean.
  assert (Hall : forall rows,
             NoDup (map JobDb.id rows) ->
             let rows1 := fold_left (fun l q => JobDb.delete_old q l)
                                    (JobDb.distinct_projects rows) rows in
             forall projects,
               fold_left (fun l q => JobDb.delete_old q l) projects rows1 = rows1).
  { intros rows Hrows rows1 projects.
    induction projects as [|q l IH]; simpl; [reflexivity|].
    rewrite ListingFacts.delete_old_small; [exact IH|].
    rewrite <- ListingFacts.filter_finished_of_project. unfold rows1.
    rewrite CleanupFacts.clean_all_projects.
    apply ListingFacts.delete_old_at_most_100.
    now apply CleanupFacts.NoDup_ids_filter. }
  unfold JobDb.cleanupOldJobs in *.
  destruct (JobDb.fault d) eqn:Hfault; [discriminate|].
  assert (Hf1 : JobDb.fault d1 = None).
  { destruct scope as [q|]; [destruct (truthy_text (Some q))|];
      injection Hclean as <-; exact Hfault. }
  rewrite Hf1.
  destruct scope as [q|]; [destruct (truthy_text (Some q))|];
    injection Hclean as <-; simpl; f_equal; unfold JobDb.with_jobs; simpl; f_equal.
  - apply ListingFacts.delete_old_small.
    now apply ListingFacts.delete_old_at_most_100.
  - now apply Hall.
  - now apply Hall.
Qed.

(** X15.  A job that was added can be claimed: after [addJob] for
    project [p], with no session or with a session in which no job of
    [p] is running, [getNextJobForProject(p)] returns a pending job of
    [p] (the new one, if nothing comes before it), provided the options
    texts stored before parse. *)
Theorem added_job_can_be_claimed (p : string) (sid : option string) (cmd : string)
    (opts : jsval) (uid : option Z) (prio now : Z) (d d' : JobDb.Database)
    (jobId : Z) :
  Spec.options_parse (JobDb.jobs d) ->
  (forall s, sid = Some s -> ~ Spec.running_session p (JobDb.jobs d) s) ->
  JobDb.addJob p sid cmd opts uid prio now d = Return (jobId, d') ->
  exists job,
    JobDb.getNextJobForProject p d' = Return (Some job)
    /\ JobDb.project_name job = p
    /\ JobDb.status job = JobDb.pending.
Proof.
  intros Hparse Hfree Hadd. unfold JobDb.addJob in Hadd.
  destruct (JobDb.fault d) eqn:Hfault; [discriminate|].
  destruct (JSON.stringify opts) as [text|] eqn:Etext; [|discriminate].
  injection Hadd as <- <-.
  set (new := JobDb.mkJob (Z.max (JobDb.sequence d) (JobDb.largest_rowid (JobDb.jobs d)) + 1)
                          p sid cmd text JobDb.pending prio now None None None uid).
  unfold JobDb.getNextJobForProject. cbn [JobDb.fault JobDb.jobs].
  assert (Hcand : Spec.candidate p (JobDb.jobs d ++ [new]) new).
  { split; [apply in_or_app; right; now left|]. split; [reflexivity|].
    split; [now left|]. intros _. cbn [JobDb.session_id new].
    destruct sid as [s0|]; [right | now left].
    intros s1 (x & Hx & Hpx & Hsx & Hsidx) Heq. injection Heq as <-.
    apply in_app_or in Hx as [Hx | [<- | []]]; [|discriminate Hsx].
    apply (Hfree s0 eq_refl). exists x. auto. }
  pose proof (ClaimFacts.nextRow_spec p (JobDb.jobs d ++ [new])) as Hnext.
  destruct (JobDb.nextRow p (JobDb.jobs d ++ [new])) as [c|].
  - destruct Hnext as [(Hc & Hcp & Hcs & _) Hmin].
    assert (Ho : exists o, JSON.parse (JobDb.options c) = Return o).
    { apply in_app_or in Hc as [Hc | [<- | []]]; [now apply Hparse|].
      exists (JSON.read_back opts). now apply JSONFacts.parse_stringify. }
    destruct Ho as [o Ho].
    exists (JobDb.with_options c o). unfold JobDb.parse_row. rewrite Ho. simpl.
    split; [reflexivity|]. split; [exact Hcp|].
    specialize (Hmin new Hcand). unfold JobDb.claim_before, JobDb.retry_rank in Hmin.
    cbn [JobDb.status new] in Hmin.
    destruct (JobDb.status c); [reflexivity | | | ]; simpl in Hmin; discriminate Hmin.
  - exfalso. exact (Hnext _ Hcand).
Qed.

(** ** userDb *)
Module UserFacts.
Import UserDb.
Local Open Scope Z_scope.

Lemma find_last {A : Type} (f : A -> bool) (l : list A) (x : A) :
  existsb f l = false -> find f (l ++ [x]) = if f x then Some x else None.
Proof.
  induction l as [|y l IH]; simpl; [reflexivity|].
  intros H. apply orb_false_iff in H as [Hy Hl]. rewrite Hy. now apply IH.
Qed.

Lemma find_app_other {A : Type} (f : A -> bool) (l : list A) (x : A) :
  f x = false -> find f (l ++ [x]) = find f l.
Proof.
  intros Hx. induction l as [|y l IH]; simpl; [now rewrite Hx|].
  destruct (f y); [reflexivity | exact IH].
Qed.

Lemma existsb_weaken {A : Type} (f g : A -> bool) (l : list A) :
  (forall x, g x = true -> f x = true) -> existsb f l = false -> existsb g l = false.
Proof.
  intros H. induction l as [|y l IH]; simpl; [reflexivity|].
  intros E. apply orb_false_iff in E as [Ey El]. rewrite (IH El), orb_false_r.
  destruct (g y) eqn:Eg; [|reflexivity]. rewrite (H y Eg) in Ey. discriminate Ey.
Qed.

End UserFacts.

(** X25.  A user that was created can log in: after [createUser]
    returns, [getUserByUsername] finds, under the name given, the user
    with the id returned and the password hash given, [hasUsers] answers
    [true], and what [getUserByUsername] answers for every other name is
    as before. *)
Theorem created_user_is_found (name hash : string) (now userId : Z) (answer : string)
    (db db' : UserDb.Database) :
  UserDb.createUser name hash now db = Return ((userId, answer), db') ->
  answer = name
  /\ (exists u,
        UserDb.getUserByUsername name db' = Return (Some u)
        /\ UserDb.id u = userId /\ UserDb.username u = name
        /\ UserDb.password_hash u = hash /\ UserDb.last_login u = None)
  /\ UserDb.hasUsers db' = Return true
  /\ (forall other, other <> name ->
        UserDb.getUserByUsername other db' = UserDb.getUserByUsername other db).
Proof.
  unfold UserDb.createUser. destruct (UserDb.fault db) eqn:Hfault; [discriminate|].
  destruct (existsb _ (UserDb.users db)) eqn:Etaken; [discriminate|].
  intros H. injection H as <- <- <-. split; [reflexivity|].
  unfold UserDb.getUserByUsername, UserDb.hasUsers.
  cbn [UserDb.fault UserDb.users]. rewrite Hfault. split; [|split].
  - eexists. rewrite UserFacts.find_last.
    + cbn [UserDb.username UserDb.is_active]. rewrite String.eqb_refl. simpl.
      split; [reflexivity|]. repeat split.
    + apply (UserFacts.existsb_weaken
               (fun u => String.eqb (UserDb.username u) name)); [|exact Etaken].
      intros x Hx. now apply andb_true_iff in Hx as [Hx _].
  - rewrite length_app. simpl. f_equal. apply Z.ltb_lt. lia.
  - intros other Hne. f_equal. apply UserFacts.find_app_other.
    cbn [UserDb.username]. apply String.eqb_neq in Hne.
    rewrite String.eqb_sym, Hne. reflexivity.
Qed.

(** X26.  User names are unique: on a working store [createUser] raises
    exactly when a user of that name exists already, active or not. *)
Theorem createUser_raises_iff_name_taken (name hash : string) (now : Z)
    (db : UserDb.Database) :
  UserDb.fault db = None ->
  (exists e, UserDb.createUser name hash now db = Throw e)
  <-> exists u, In u (UserDb.users db) /\ UserDb.username u = name.
Proof.
  intros Hfault. unfold UserDb.createUser. rewrite Hfault.
  destruct (existsb (fun u => String.eqb (UserDb.username u) name) (UserDb.users db)) eqn:E.
  - split; [intros _ | eauto]. apply existsb_exists in E as (u & Hu & Hn).
    exists u. split; [exact Hu | now apply String.eqb_eq].
  - split; [intros (e & H); discriminate H|].
    intros (u & Hu & Hn). exfalso.
    assert (Hex : existsb (fun u => String.eqb (UserDb.username u) name) (UserDb.users db) = true).
    { apply existsb_exists. exists u. split; [exact Hu | now apply String.eqb_eq]. }
    congruence.
Qed.

(** ** spawnClaude: the promise and the messages over a whole run *)
Module ChildFacts.
Import ClaudeCli ChildRun.

Section Parser.
Variable JSON_parse : string -> outcome jsval.





Lemma announces_response (response : jsval) :
  announces_session (claude_response response) = false.
Proof. reflexivity. Qed.




Lemma on_line_captured (line : string) (p : Process) :
  truthy (capturedSessionId p) = true ->
  capturedSessionId (on_line JSON_parse line p) = capturedSessionId p.
Proof.
  intros Hcap. unfold on_line.
  destruct (bind (JSON_parse line) _) as [[response sid] | e]; simpl; [|reflexivity].
  rewrite Hcap, andb_false_r. reflexivity.
Qed.




End Parser.



End ChildFacts.



(** ** JSON.parse returns values JSON can carry *)
Module ParseFacts.
Import JSON JSONFacts.

#[local] Arguments parse_value : simpl never.
#[local] Arguments parse_elements : simpl never.
#[local] Arguments parse_members : simpl never.





















End ParseFacts.

(** ** executeJob: what reaches the listeners of [job-output] *)
Module OutputFacts.
Import JobDb ClaudeCli JobExecution.







End OutputFacts.


(** ** JobWorker: retries, failures of the store, shutdown, the cap *)
Module RetryFacts.
Import JobDb Spec JobWorker WorkerRun ClaimFacts CleanupFacts InvariantFacts WorkerFacts.
Local Open Scope Z_scope.

Lemma idle_registered (p : string) (s : State) (w : Worker) :
  map_get p (projectWorkers s) = Some w ->
  finally_block p s
  = with_workers (map_set p {| projectName := p; isRunning := false;
                               currentJobId := None; currentPromise := None |}
                          (projectWorkers s)) s.
Proof.
  intros Hw. unfold finally_block, set_worker, map_has. now rewrite Hw.
Qed.

(** With a store that raises, the settlement of a job ends in the
    [finally] block, the error of the store escaping. *)
Lemma settle_on_broken_store (p : string) (result : outcome unit) (now : Z)
    (s : State) (w : Worker) (job : Job) (e : Error) :
  workers_ok (projectWorkers s) ->
  map_get p (projectWorkers s) = Some w ->
  currentPromise w = Some job ->
  fault (db s) = Some e ->
  resumeProjectJobs p result now s = (finally_block p s, Some e).
Proof.
  intros Hok Hw Hjob Hfault. unfold resumeProjectJobs. rewrite Hw, Hjob.
  destruct (Hok p w job Hw Hjob) as [Hid Hpos].
  assert (Hrec : forall err, recover p w err now s = (finally_block p s, Some e)).
  { intros err. unfold recover, catch_block. rewrite Hid. simpl.
    destruct (Z.eqb_spec (id job) 0) as [E | _]; [lia|]. simpl.
    unfold updateJobStatus. rewrite Hfault. reflexivity. }
  destruct result as [[]|err]; [|apply Hrec].
  unfold updateJobStatus. rewrite Hfault. apply Hrec.
Qed.

Lemma set_worker_immediates p w s : immediates (set_worker p w s) = immediates s.
Proof. unfold set_worker. destruct (map_has p (projectWorkers s)); reflexivity. Qed.

Lemma set_worker_length p w s :
  List.length (projectWorkers (set_worker p w s)) = List.length (projectWorkers s).
Proof.
  unfold set_worker, map_has.
  destruct (map_get p (projectWorkers s)) as [w0|] eqn:E; [|reflexivity].
  simpl. revert E. induction (projectWorkers s) as [|[k x] l IH]; simpl; [discriminate|].
  destruct (String.eqb p k); simpl; [reflexivity|]. intros H. now rewrite IH.
Qed.

Lemma set_worker_cap p w s :
  maxConcurrentProjects (set_worker p w s) = maxConcurrentProjects s.
Proof. unfold set_worker. destruct (map_has p (projectWorkers s)); reflexivity. Qed.

Lemma catch_block_workers p w e now s s' :
  catch_block p w e now s = Return s' ->
  projectWorkers s' = projectWorkers s
  /\ maxConcurrentProjects s' = maxConcurrentProjects s
  /\ immediates s' = immediates s
  /\ isShuttingDown s' = isShuttingDown s.
Proof.
  unfold catch_block.
  destruct (currentJobId w) as [jobId|]; [|intros H; injection H as <-; auto].
  destruct (truthy_number (Some jobId)); [|intros H; injection H as <-; auto].
  destruct (updateJobStatus jobId failed (Some (message e)) now (db s)); simpl;
    [|discriminate].
  intros H. injection H as <-. auto.
Qed.

Lemma continue_workers p s :
  projectWorkers (continue p s) = projectWorkers s
  /\ maxConcurrentProjects (continue p s) = maxConcurrentProjects s.
Proof. unfold continue. destruct (isShuttingDown s); auto. Qed.

Lemma recover_length p w e now s :
  List.length (projectWorkers (fst (recover p w e now s))) = List.length (projectWorkers s)
  /\ maxConcurrentProjects (fst (recover p w e now s)) = maxConcurrentProjects s.
Proof.
  unfold recover. destruct (catch_block p w e now s) as [s'|] eqn:E; simpl.
  - destruct (catch_block_workers _ _ _ _ _ _ E) as (Hw & Hc & _).
    destruct (continue_workers p (finally_block p s')) as [-> ->].
    unfold finally_block. now rewrite set_worker_length, set_worker_cap, Hw, Hc.
  - unfold finally_block. now rewrite set_worker_length, set_worker_cap.
Qed.

Lemma map_delete_length (p : string) (m : list (string * Worker)) :
  (List.length (map_delete p m) <= List.length m)%nat.
Proof. unfold map_delete. apply filter_length_le. Qed.

Lemma processProjectJobs_length p now s :
  (List.length (projectWorkers (fst (processProjectJobs p now s)))
   <= List.length (projectWorkers s))%nat
  /\ maxConcurrentProjects (fst (processProjectJobs p now s)) = maxConcurrentProjects s.
Proof.
  unfold processProjectJobs.
  destruct (map_get p (projectWorkers s)) as [w|]; [|split; [apply Nat.le_refl | reflexivity]].
  destruct (isShuttingDown s); [split; [apply Nat.le_refl | reflexivity]|].
  destruct (getNextJobForProject p (db s)) as [[job|]|e].
  - destruct (updateJobStatus (id job) running None now (db s)) as [d|e]; simpl.
    + rewrite set_worker_length, set_worker_cap. split; [apply Nat.le_refl | reflexivity].
    + destruct (recover_length p w e now s) as [-> ->].
      split; [apply Nat.le_refl | reflexivity].
  - simpl. split; [apply map_delete_length | reflexivity].
  - destruct (recover_length p w e now s) as [-> ->].
    split; [apply Nat.le_refl | reflexivity].
Qed.

Lemma map_set_length (p : string) (w : Worker) (m : list (string * Worker)) :
  (List.length (map_set p w m) <= S (List.length m))%nat.
Proof.
  induction m as [|[k x] l IH]; simpl; [apply Nat.le_refl|].
  destruct (String.eqb p k); simpl; [apply Nat.le_succ_diag_r|].
  now apply le_n_S.
Qed.

Lemma startProjectWorker_length p now s :
  (List.length (projectWorkers (fst (startProjectWorker p now s)))
   <= S (List.length (projectWorkers s)))%nat
  /\ maxConcurrentProjects (fst (startProjectWorker p now s)) = maxConcurrentProjects s.
Proof.
  unfold startProjectWorker.
  destruct (map_has p (projectWorkers s)); [split; [apply Nat.le_succ_diag_r | reflexivity]|].
  match goal with
  | |- context [processProjectJobs p now ?s1] =>
      destruct (processProjectJobs_length p now s1) as [H1 H2]
  end.
  split; [|exact H2].
  eapply Nat.le_trans; [exact H1|]. simpl. apply map_set_length.
Qed.









End RetryFacts.

(** X10.  A job that fails is tried again: when the promise of the job a
    worker is executing rejects, and the store takes the update, the next
    claim of the project again returns a pending or failed job (the job
    that failed, if nothing comes before it), so the worker goes on
    instead of stopping. *)
Theorem failed_job_is_claimed_again (s : JobWorker.State) (p : string)
    (w : JobWorker.Worker) (job : JobDb.Job) (r : JobDb.Row) (e : Error) (now : Z) :
  Spec.invariant s ->
  JobWorker.map_get p (JobWorker.projectWorkers s) = Some w ->
  JobWorker.currentPromise w = Some job ->
  JobDb.fault (JobWorker.db s) = None ->
  In r (JobDb.jobs (JobWorker.db s)) ->
  JobDb.id r = JobDb.id job ->
  JobDb.project_name r = p ->
  JobDb.status r = JobDb.running ->
  exists next,
    JobDb.getNextJobForProject p
      (JobWorker.db (fst (JobWorker.resumeProjectJobs p (Throw e) now s)))
    = Return (Some next)
    /\ JobDb.project_name next = p
    /\ (JobDb.status next = JobDb.pending \/ JobDb.status next = JobDb.failed).
Proof.
  intros [Hstore Hworkers] Hw Hjob Hfault Hr Hid Hproj Hrun.
  rewrite (WorkerFacts.rejected_step p e now s w job Hworkers Hw Hjob Hfault).
  cbn [fst]. rewrite WorkerFacts.continue_db, WorkerFacts.finally_block_db.
  cbn [JobWorker.db JobWorker.emit JobWorker.with_db].
  set (change := Spec.set_status_of (JobDb.id job) JobDb.failed (Some (message e)) now).
  set (rows' := map change (JobDb.jobs (JobWorker.db s))).
  unfold JobDb.getNextJobForProject. cbn [JobDb.fault JobDb.with_jobs JobDb.jobs].
  rewrite Hfault.
  destruct Hstore as ((Hnd & _) & Hex & Hparse).
  assert (Hcand : Spec.candidate p rows' (change r)).
  { assert (Hr' : change r = JobDb.updated JobDb.failed (Some (message e)) now r)
      by (apply WorkerFacts.set_status_of_hit; exact Hid).
    split; [now apply in_map|]. rewrite Hr'. split; [exact Hproj|].
    split; [now right|]. intros _. cbn [JobDb.session_id JobDb.updated].
    destruct (JobDb.session_id r) as [s0|] eqn:Es; [right | now left].
    intros sid (x' & Hx' & Hpx & Hsx & Hsidx) Heq. injection Heq as ->.
    apply in_map_iff in Hx' as (x & <- & Hx).
    destruct (Z.eq_dec (JobDb.id x) (JobDb.id job)) as [E | E].
    - unfold change in Hsx. rewrite WorkerFacts.set_status_of_hit in Hsx by exact E.
      discriminate Hsx.
    - unfold change in Hpx, Hsx, Hsidx.
      rewrite WorkerFacts.set_status_of_miss in Hpx, Hsx, Hsidx by exact E.
      apply (Hex r x sid Hr Hx); try congruence. split; assumption. }
  pose proof (ClaimFacts.nextRow_spec p rows') as Hnext.
  destruct (JobDb.nextRow p rows') as [c|].
  - destruct Hnext as [(Hc & Hcp & Hcs & _) _].
    apply in_map_iff in Hc as (c0 & <- & Hc0).
    destruct (Hparse c0 Hc0) as [o Ho].
    destruct (InvariantFacts.set_status_keeps_identity
                (JobDb.id job) JobDb.failed (Some (message e)) now c0) as (_ & _ & _ & Hopt).
    fold change in Hopt.
    exists (JobDb.with_options (change c0) o). unfold JobDb.parse_row.
    rewrite Hopt, Ho. simpl. split; [reflexivity|]. split; assumption.
  - exfalso. exact (Hnext _ Hcand).
Qed.

(** X11.  When the connection to the store is down at the time a job
    ends (every statement raises, as with a closed handle or a full
    disk), whether the job succeeded or failed: recording the end raises,
    and so does the attempt of the [catch] block to record the job as
    failed, so that the error of the store escapes from
    [processProjectJobs], the table is left as it was (the job stays
    running there), no event is emitted, the worker object stays
    registered, idle, and no further call of [processProjectJobs] is
    scheduled for the project.  (When a single statement raises and the
    next one works, the [catch] block records the job as failed instead;
    that case is not the one stated here.) *)
Theorem store_failure_strands_worker (s : JobWorker.State) (p : string)
    (w : JobWorker.Worker) (job : JobDb.Job) (result : outcome unit)
    (e : Error) (now : Z) :
  Spec.invariant s ->
  JobWorker.map_get p (JobWorker.projectWorkers s) = Some w ->
  JobWorker.currentPromise w = Some job ->
  JobDb.fault (JobWorker.db s) = Some e ->
  snd (JobWorker.resumeProjectJobs p result now s) = Some e
  /\ JobWorker.db (fst (JobWorker.resumeProjectJobs p result now s)) = JobWorker.db s
  /\ JobWorker.emitted (fst (JobWorker.resumeProjectJobs p result now s))
     = JobWorker.emitted s
  /\ JobWorker.immediates (fst (JobWorker.resumeProjectJobs p result now s))
     = JobWorker.immediates s
  /\ JobWorker.map_get p
       (JobWorker.projectWorkers (fst (JobWorker.resumeProjectJobs p result now s)))
     = Some (WorkerRun.idle p).
Proof.
  intros [_ Hworkers] Hw Hjob Hfault.
  rewrite (RetryFacts.settle_on_broken_store p result now s w job e Hworkers Hw Hjob Hfault).
  cbn [fst snd]. rewrite (RetryFacts.idle_registered p s w Hw).
  cbn [JobWorker.db JobWorker.emitted JobWorker.immediates JobWorker.projectWorkers
       JobWorker.with_workers].
  rewrite InvariantFacts.map_get_set, String.eqb_refl. repeat split.
Qed.

(** X12.  After [stop()] nothing is started: while [isShuttingDown] is
    set, a poll changes nothing, a queued callback claims no job and
    emits no event, and the end of a running job schedules no further
    processing. *)
Theorem nothing_starts_while_shutting_down (s : JobWorker.State) :
  JobWorker.isShuttingDown s = true ->
  (forall now, JobWorker.startJobPolling now s = s)
  /\ (forall t now,
        JobWorker.db (JobWorker.run_task t now s) = JobWorker.db s
        /\ JobWorker.emitted (JobWorker.run_task t now s) = JobWorker.emitted s)
  /\ (forall p result now,
        JobWorker.immediates (fst (JobWorker.resumeProjectJobs p result now s))
        = JobWorker.immediates s).
Proof.
  intros Hstop. split; [|split].
  - intros now. unfold JobWorker.startJobPolling. now rewrite Hstop.
  - assert (Hproc : forall p now s0,
               JobWorker.isShuttingDown s0 = true ->
               JobWorker.processProjectJobs p now s0 = (s0, None)).
    { intros p now s0 H0. unfold JobWorker.processProjectJobs. rewrite H0.
      now destruct (JobWorker.map_get p (JobWorker.projectWorkers s0)). }
    intros t now. destruct t as [p | p]; unfold JobWorker.run_task.
    + unfold JobWorker.startProjectWorker.
      destruct (JobWorker.map_has p (JobWorker.projectWorkers (JobWorker.dequeue _ s)));
        [split; reflexivity|].
      rewrite Hproc by exact Hstop. split; reflexivity.
    + rewrite Hproc by exact Hstop. split; reflexivity.
  - intros p result now.
    assert (Hcont : forall s0, JobWorker.isShuttingDown s0 = true ->
                               JobWorker.continue p s0 = s0).
    { intros s0 H0. unfold JobWorker.continue. now rewrite H0. }
    assert (Hfin : forall s0,
               JobWorker.isShuttingDown (JobWorker.finally_block p s0)
               = JobWorker.isShuttingDown s0
               /\ JobWorker.immediates (JobWorker.finally_block p s0)
                  = JobWorker.immediates s0).
    { intros s0. unfold JobWorker.finally_block, JobWorker.set_worker.
      destruct (JobWorker.map_has p (JobWorker.projectWorkers s0)); split; reflexivity. }
    assert (Hrec : forall w err,
               JobWorker.immediates (fst (JobWorker.recover p w err now s))
               = JobWorker.immediates s).
    { intros w err. unfold JobWorker.recover.
      destruct (JobWorker.catch_block p w err now s) as [s'|] eqn:E; cbn [fst].
      - destruct (RetryFacts.catch_block_workers _ _ _ _ _ _ E) as (_ & _ & Him & Hsh).
        destruct (Hfin s') as [H1 H2].
        rewrite Hcont by (rewrite H1, Hsh; exact Hstop). now rewrite H2.
      - apply Hfin. }
    unfold JobWorker.resumeProjectJobs.
    destruct (JobWorker.map_get p (JobWorker.projectWorkers s)) as [w|]; [|reflexivity].
    destruct (JobWorker.currentPromise w) as [job|]; [|reflexivity].
    destruct result as [[]|err]; [|apply Hrec].
    destruct (JobDb.updateJobStatus (JobDb.id job) JobDb.completed None now (JobWorker.db s))
      as [d|err]; [|apply Hrec].
    cbn [fst].
    match goal with
    | |- context [JobWorker.finally_block p ?s0] => destruct (Hfin s0) as [H1 H2]
    end.
    rewrite Hcont by (rewrite H1; exact Hstop). now rewrite H2.
Qed.

(** X13.  A poll keeps the number of workers within the limit: if no
    more than [maxConcurrentProjects] workers are registered before
    [startJobPolling], no more are registered after it. *)
Theorem polling_respects_the_limit (now : Z) (s : JobWorker.State) :
  (List.length (JobWorker.projectWorkers s) <= JobWorker.maxConcurrentProjects s)%nat ->
  (List.length (JobWorker.projectWorkers (JobWorker.startJobPolling now s))
   <= JobWorker.maxConcurrentProjects (JobWorker.startJobPolling now s))%nat.
Proof.
  intros Hcap. unfold JobWorker.startJobPolling.
  destruct (JobWorker.isShuttingDown s); [exact Hcap|].
  destruct (JobDb.getActiveJobs (JobWorker.db s)) as [active|e]; [|exact Hcap].
  cbn [JobWorker.projectWorkers JobWorker.maxConcurrentProjects JobWorker.emit].
  generalize (JobWorker.unique (map (fun j : JobDb.Job => JobDb.project_name j) active)).
  intros projects. revert s Hcap.
  induction projects as [|p l IH]; intros s Hcap; simpl; [exact Hcap|].
  apply IH.
  destruct (JobWorker.map_has p (JobWorker.projectWorkers s)); simpl; [exact Hcap|].
  destruct (Nat.ltb_spec (List.length (JobWorker.projectWorkers s))
                         (JobWorker.maxConcurrentProjects s)) as [Hlt | _]; [|exact Hcap].
  destruct (RetryFacts.startProjectWorker_length p now s) as [Hlen ->].
  eapply Nat.le_trans; [exact Hlen | exact Hlt].
Qed.


Module QueueFacts.
Import JobDb JobWorker.
Local Open Scope Z_scope.

(** In a project that holds no other job, the claim query selects the
    pending job at the end of the table. *)
Lemma nextRow_only_new (p : string) (rows : list Row) (new : Row) :
  (forall r, In r rows -> project_name r <> p) ->
  project_name new = p -> status new = pending ->
  nextRow p (rows ++ [new]) = Some new.
Proof.
  intros Hother Hp Hs. unfold nextRow.
  assert (Hrun : runningSessions p (rows ++ [new]) = []).
  { unfold runningSessions. rewrite flat_map_app. simpl.
    rewrite Hs, andb_false_r. simpl. rewrite List.app_nil_r.
    induction rows as [|x l IH]; simpl; [reflexivity|].
    destruct (String.eqb_spec (project_name x) p) as [E | _].
    - exfalso. exact (Hother x (or_introl eq_refl) E).
    - simpl. apply IH. intros r Hr. apply Hother. now right. }
  rewrite Hrun. clear Hrun. simpl.
  assert (Hsel : filter (retryable p) (rows ++ [new]) = [new]).
  { rewrite filter_app. simpl. unfold retryable at 2, in_status.
    rewrite Hp, String.eqb_refl, Hs. simpl.
    assert (Hnone : filter (retryable p) rows = []).
    { induction rows as [|x l IH]; simpl; [reflexivity|].
      unfold retryable at 1.
      destruct (String.eqb_spec (project_name x) p) as [E | _].
      - exfalso. exact (Hother x (or_introl eq_refl) E).
      - simpl. apply IH. intros r Hr. apply Hother. now right. }
    now rewrite Hnone. }
  rewrite Hsel. reflexivity.
Qed.

End QueueFacts.

(** X16.  From the queue to the child: when a job is added for a project
    that has no job in the table and no worker, below the limit of
    workers and not during shutdown, [addJob] schedules the start of a
    worker for the project; when that callback runs, the new job is
    claimed: it is stored as running with the time of the claim as
    [started_at], a [job-started] event for it is the last event
    emitted, and the worker of the project holds the job's id. *)
Theorem queued_job_starts (s s1 : JobWorker.State) (p : string)
    (sid : option string) (cmd : string) (opts : jsval) (uid : option Z)
    (prio now later jobId : Z) :
  JobWorker.isShuttingDown s = false ->
  JobWorker.map_has p (JobWorker.projectWorkers s) = false ->
  (List.length (JobWorker.projectWorkers s) < JobWorker.maxConcurrentProjects s)%nat ->
  (forall r, In r (JobDb.jobs (JobWorker.db s)) -> JobDb.project_name r <> p) ->
  JobWorker.addJob p sid cmd opts uid prio now s = Return (jobId, s1) ->
  In (JobWorker.StartProjectWorker p) (JobWorker.immediates s1)
  /\ (exists r,
        In r (JobDb.jobs (JobWorker.db
                (JobWorker.run_task (JobWorker.StartProjectWorker p) later s1)))
        /\ JobDb.id r = jobId /\ JobDb.status r = JobDb.running
        /\ JobDb.started_at r = Some later)
  /\ (exists before,
        JobWorker.emitted (JobWorker.run_task (JobWorker.StartProjectWorker p) later s1)
        = (before ++ [JobWorker.job_started jobId p sid cmd])%list)
  /\ (exists w,
        JobWorker.map_get p
          (JobWorker.projectWorkers
             (JobWorker.run_task (JobWorker.StartProjectWorker p) later s1)) = Some w
        /\ JobWorker.currentJobId w = Some jobId).
Proof.
  intros Hshut Hnone Hcap Hother Hadd. unfold JobWorker.addJob in Hadd.
  destruct (JobDb.addJob p sid cmd opts uid prio now (JobWorker.db s))
    as [[i d1]|] eqn:Estore; simpl in Hadd; [|discriminate].
  rewrite Hnone in Hadd. apply Nat.ltb_lt in Hcap. rewrite Hcap in Hadd. simpl in Hadd.
  injection Hadd as <- <-.
  split; [simpl; apply in_or_app; right; now left|].
  unfold JobDb.addJob in Estore.
  destruct (JobDb.fault (JobWorker.db s)) eqn:Hfault; [discriminate|].
  destruct (JSON.stringify opts) as [text|] eqn:Etext; [|discriminate].
  injection Estore as <- <-.
  set (i := (Z.max (JobDb.sequence (JobWorker.db s))
                   (JobDb.largest_rowid (JobDb.jobs (JobWorker.db s))) + 1)%Z).
  set (new := JobDb.mkJob i p sid cmd text JobDb.pending prio now None None None uid).
  set (d1 := {| JobDb.jobs := (JobDb.jobs (JobWorker.db s) ++ [new])%list;
                JobDb.sequence := i; JobDb.fault := None |}).
  set (job := JobDb.with_options new (JSON.read_back opts)).
  unfold JobWorker.run_task, JobWorker.startProjectWorker.
  cbn [JobWorker.projectWorkers JobWorker.dequeue JobWorker.setImmediate JobWorker.emit
       JobWorker.with_db].
  rewrite Hnone.
  match goal with
  | |- context [JobWorker.processProjectJobs p later ?s0] => set (s2 := s0)
  end.
  assert (Hget : JobWorker.map_get p (JobWorker.projectWorkers s2)
                 = Some (WorkerRun.idle p)).
  { unfold s2. cbn [JobWorker.projectWorkers JobWorker.with_workers].
    rewrite InvariantFacts.map_get_set, String.eqb_refl. reflexivity. }
  assert (Hnext : JobDb.getNextJobForProject p (JobWorker.db s2) = Return (Some job)).
  { unfold JobDb.getNextJobForProject. change (JobWorker.db s2) with d1.
    cbn [JobDb.fault JobDb.jobs d1].
    rewrite (QueueFacts.nextRow_only_new p _ new Hother eq_refl eq_refl).
    unfold JobDb.parse_row. cbn [JobDb.options new].
    rewrite (JSONFacts.parse_stringify opts text Etext). reflexivity. }
  rewrite (WorkerFacts.claim_step p later s2 (WorkerRun.idle p) job Hget Hshut eq_refl Hnext).
  cbn [fst]. split; [|split].
  - exists (JobDb.updated JobDb.running None later new).
    split; [|repeat split].
    cbn [JobWorker.db JobWorker.emit JobWorker.with_workers JobWorker.with_db
         JobDb.jobs JobDb.with_jobs].
    change (JobWorker.db s2) with d1. cbn [JobDb.jobs d1].
    rewrite map_app. apply in_or_app. right. simpl.
    rewrite (WorkerFacts.set_status_of_hit _ _ _ _ new eq_refl). now left.
  - eexists. cbn [JobWorker.emitted JobWorker.emit]. reflexivity.
  - eexists. cbn [JobWorker.projectWorkers JobWorker.emit JobWorker.with_workers].
    rewrite InvariantFacts.map_get_set, String.eqb_refl. split; reflexivity.
Qed.

Module LimitFacts.
Import JobDb JobWorker.

Lemma map_set_new (p : string) (w : Worker) (m : list (string * Worker)) :
  map_get p m = None -> List.length (map_set p w m) = S (List.length m).
Proof.
  induction m as [|[k x] l IH]; simpl; [reflexivity|].
  destruct (String.eqb p k); [discriminate|]. intros H. simpl. now rewrite IH.
Qed.

Lemma map_set_old (p : string) (w w0 : Worker) (m : list (string * Worker)) :
  map_get p m = Some w0 -> List.length (map_set p w m) = List.length m.
Proof.
  induction m as [|[k x] l IH]; simpl; [discriminate|].
  destruct (String.eqb p k); [reflexivity|]. intros H. simpl. now rewrite IH.
Qed.

Lemma enqueue_reachable (p : string) (s : State) :
  reachable s -> reachable (Cases.enqueue p s).
Proof.
  intros H. unfold Cases.enqueue.
  destruct (addJob p None "run tests" (JObj []) None 0 0 s) as [[i s']|] eqn:E; [|exact H].
  exact (reach_addJob s p None "run tests" (JObj []) None 0 0 i s' H E).
Qed.

Lemma start_if_queued_reachable (p : string) (s : State) :
  reachable s -> reachable (Cases.start_if_queued p s).
Proof.
  intros H. unfold Cases.start_if_queued.
  destruct (existsb (Cases.is_start p) (immediates s)) eqn:E; [|exact H].
  apply reach_immediate; [exact H|].
  apply existsb_exists in E as (t & Ht & Hp). destruct t as [q | q]; [|discriminate Hp].
  simpl in Hp. apply String.eqb_eq in Hp. now subst q.
Qed.

Lemma ten_started_reachable : reachable Cases.ten_started.
Proof.
  unfold Cases.ten_started, Cases.all_queued.
  assert (H1 : forall names s, reachable s ->
                 reachable (fold_left (fun s p => Cases.enqueue p s) names s)).
  { induction names as [|p l IH]; intros s Hs; simpl; [exact Hs|].
    apply IH. now apply enqueue_reachable. }
  assert (H2 : forall names s, reachable s ->
                 reachable (fold_left (fun s p => Cases.start_if_queued p s) names s)).
  { induction names as [|p l IH]; intros s Hs; simpl; [exact Hs|].
    apply IH. now apply start_if_queued_reachable. }
  apply H2, H1, reach_start.
Qed.

End LimitFacts.

(** X27.  [startProjectWorker] does not look at the limit of workers:
    whenever the project has no worker and a job to claim, on a working
    store and not during shutdown, it registers one more worker.  The
    limit is tested by [addJob] and [startJobPolling] before they call
    or schedule it; a callback that [addJob] scheduled while there was
    room registers its worker also when the room is used up. *)
Theorem startProjectWorker_ignores_the_limit (s : JobWorker.State) (p : string)
    (now : Z) (job : JobDb.Job) :
  JobWorker.map_has p (JobWorker.projectWorkers s) = false ->
  JobWorker.isShuttingDown s = false ->
  JobDb.fault (JobWorker.db s) = None ->
  JobDb.getNextJobForProject p (JobWorker.db s) = Return (Some job) ->
  List.length (JobWorker.projectWorkers (fst (JobWorker.startProjectWorker p now s)))
  = S (List.length (JobWorker.projectWorkers s)).
Proof.
  intros Hnone Hshut Hfault Hnext. unfold JobWorker.startProjectWorker. rewrite Hnone.
  match goal with
  | |- context [JobWorker.processProjectJobs p now ?s0] => set (s1 := s0)
  end.
  assert (Hget : JobWorker.map_get p (JobWorker.projectWorkers s1)
                 = Some (WorkerRun.idle p)).
  { unfold s1. cbn [JobWorker.projectWorkers JobWorker.with_workers].
    rewrite InvariantFacts.map_get_set, String.eqb_refl. reflexivity. }
  rewrite (WorkerFacts.claim_step p now s1 (WorkerRun.idle p) job Hget Hshut Hfault Hnext).
  cbn [fst JobWorker.projectWorkers JobWorker.emit JobWorker.with_workers].
  rewrite (LimitFacts.map_set_old p _ (WorkerRun.idle p) _ Hget).
  unfold s1. cbn [JobWorker.projectWorkers JobWorker.with_workers].
  apply LimitFacts.map_set_new. unfold JobWorker.map_has in Hnone.
  now destruct (JobWorker.map_get p (JobWorker.projectWorkers s)).
Qed.

(** ** spawnClaude: the command line *)
Module ArgsFacts.
Import SpawnClaude.



End ArgsFacts.


(** X18.  A command of white space only is not handed to the child at
    all: the command line is the one of an empty command (no [--print]),
    and, unlike for the empty command, nothing is written to the stdin
    of the child before it is closed. *)
Theorem blank_command_is_not_passed (command : string) (o : SpawnClaude.Options)
    (imagePaths : list string) (configPath : option string) :
  ClaudeCli.blank command = true ->
  command <> "" ->
  SpawnClaude.args command o imagePaths configPath
  = SpawnClaude.args "" o imagePaths configPath
  /\ SpawnClaude.stdin_text command = None
  /\ SpawnClaude.stdin_text "" = Some SpawnClaude.newline.
Proof.
  intros Hblank Hne. apply String.eqb_neq in Hne.
  unfold SpawnClaude.args, SpawnClaude.print_args, SpawnClaude.has_text,
    SpawnClaude.stdin_text.
  rewrite Hblank, Hne, andb_false_r. simpl. repeat split.
Qed.

(** ** The registry of children *)
Module RegistryFacts.
Import SpawnClaude.

Section Keys.
Variable Key : Type.
Variable same_key : Key -> Key -> bool.
Hypothesis same_key_eq : forall a b, same_key a b = true <-> a = b.

Lemma registry_get_delete_same (k : Key) (m : list (Key * nat)) :
  registry_get Key same_key k (registry_delete Key same_key k m) = None.
Proof.
  unfold registry_delete. induction m as [|[k' c] l IH]; simpl; [reflexivity|].
  destruct (same_key k k') eqn:E; simpl; [exact IH|]. now rewrite E.
Qed.

Lemma registry_get_delete_other (k k0 : Key) (m : list (Key * nat)) :
  k0 <> k ->
  registry_get Key same_key k0 (registry_delete Key same_key k m)
  = registry_get Key same_key k0 m.
Proof.
  intros Hne. unfold registry_delete. induction m as [|[k' c] l IH]; simpl; [reflexivity|].
  destruct (same_key k k') eqn:E; simpl.
  - apply same_key_eq in E. subst k'.
    destruct (same_key k0 k) eqn:E0; [|exact IH].
    apply same_key_eq in E0. contradiction.
  - now rewrite IH.
Qed.

End Keys.

End RegistryFacts.

(** X19.  [abortClaudeSession] signals and untracks one session, once:
    it answers [true] exactly when the session is tracked, and then the
    child of the session has been sent SIGTERM; afterwards the session is
    not tracked, the other sessions are tracked as before, and a second
    call for the session answers [false] and signals nothing.  After
    [killAllActiveClaudeProcesses] every tracked child has been
    signalled and a call for any session answers [false]. *)
Theorem abort_untracks_the_session (Key : Type) (same_key : Key -> Key -> bool)
    (sessionId : Key) (t : SpawnClaude.Tracked Key) :
  (forall a b, same_key a b = true <-> a = b) ->
  let t' := snd (SpawnClaude.abortClaudeSession Key same_key sessionId t) in
  (match SpawnClaude.registry_get Key same_key sessionId
           (SpawnClaude.activeClaudeProcesses Key t) with
   | Some child =>
       fst (SpawnClaude.abortClaudeSession Key same_key sessionId t) = true
       /\ SpawnClaude.killed Key t' = (SpawnClaude.killed Key t ++ [child])%list
   | None =>
       fst (SpawnClaude.abortClaudeSession Key same_key sessionId t) = false /\ t' = t
   end)
  /\ SpawnClaude.registry_get Key same_key sessionId
       (SpawnClaude.activeClaudeProcesses Key t') = None
  /\ (forall other, other <> sessionId ->
        SpawnClaude.registry_get Key same_key other
          (SpawnClaude.activeClaudeProcesses Key t')
        = SpawnClaude.registry_get Key same_key other
            (SpawnClaude.activeClaudeProcesses Key t))
  /\ SpawnClaude.abortClaudeSession Key same_key sessionId t' = (false, t')
  /\ (forall any,
        SpawnClaude.abortClaudeSession Key same_key any
          (SpawnClaude.killAllActiveClaudeProcesses Key t)
        = (false, SpawnClaude.killAllActiveClaudeProcesses Key t))
  /\ SpawnClaude.killed Key (SpawnClaude.killAllActiveClaudeProcesses Key t)
     = (SpawnClaude.killed Key t
        ++ map snd (SpawnClaude.activeClaudeProcesses Key t))%list.
Proof.
  intros Hsame t'. unfold t', SpawnClaude.abortClaudeSession.
  destruct (SpawnClaude.registry_get Key same_key sessionId
              (SpawnClaude.activeClaudeProcesses Key t)) as [child|] eqn:E; cbn [fst snd].
  - cbn [SpawnClaude.activeClaudeProcesses SpawnClaude.killed].
    rewrite RegistryFacts.registry_get_delete_same.
    split; [split; reflexivity|]. split; [reflexivity|].
    split; [intros other Hne; now apply RegistryFacts.registry_get_delete_other|].
    repeat split.
  - rewrite E. split; [split; reflexivity|]. split; [reflexivity|].
    split; [reflexivity|]. repeat split.
Qed.

(** ** projects.js: names and paths *)
Module PathFacts.
Import Projects Texts.

Lemma split_parts_clean (sep : ascii) (s part : string) :
  In part (split sep s) -> contains sep part = false.
Proof.
  revert part. induction s as [|c r IH]; intros part; simpl.
  - intros [<- | []]. reflexivity.
  - destruct (Ascii.eqb c sep) eqn:E.
    + intros [<- | H]; [reflexivity | now apply IH].
    + destruct (split sep r) as [|first others].
      * intros [<- | []]. simpl. now rewrite E.
      * intros [<- | H].
        -- simpl. rewrite E. simpl. apply IH. now left.
        -- apply IH. now right.
Qed.

Lemma clean_part_start (part : string) :
  contains "/" part = false -> startsWith_slash part = false.
Proof.
  destruct part as [|c r]; simpl; [reflexivity|].
  intros H. now apply orb_false_iff in H as [H _].
Qed.

Lemma startsWith_slash_app (a b : string) :
  a <> "" -> startsWith_slash (a ++ b) = startsWith_slash a.
Proof. destruct a; [congruence | reflexivity]. Qed.

Lemma join_start (x : string) (rest : list string) :
  x <> "" -> startsWith_slash (JSON.join "/" (x :: rest)) = startsWith_slash x.
Proof.
  intros Hx. destruct rest as [|y l]; [reflexivity|].
  change (JSON.join "/" (x :: y :: l)) with (x ++ "/" ++ JSON.join "/" (y :: l)).
  now apply startsWith_slash_app.
Qed.

Lemma nonempty_part (parts : list string) (x : string) :
  In x (nonempty parts) -> In x parts /\ x <> "".
Proof.
  unfold nonempty. rewrite filter_In. intros [H1 H2]. split; [exact H1|].
  apply negb_true_iff in H2. now apply String.eqb_neq.
Qed.

Lemma last_two_In {A : Type} (parts : list A) (x : A) :
  In x (last_two parts) -> In x parts.
Proof.
  unfold last_two. intros H.
  rewrite <- (firstn_skipn (List.length parts - 2) parts). apply in_or_app. now right.
Qed.

Lemma last_two_some {A : Type} (parts : list A) :
  (1 < List.length parts)%nat -> exists x rest, last_two parts = x :: rest.
Proof.
  intros Hlen. unfold last_two.
  destruct (skipn (List.length parts - 2) parts) as [|x rest] eqn:E; [|eauto].
  exfalso. apply (f_equal (@List.length A)) in E. rewrite length_skipn in E.
  simpl in E. lia.
Qed.

Lemma last_part_In (parts : list string) (x : string) :
  last_part parts = Some x -> In x parts.
Proof. unfold last_part. apply nth_error_In. Qed.

Lemma relative_path_kept (path : string) :
  startsWith_slash path = false -> generateAbbreviatedPath path = path.
Proof. intros H. unfold generateAbbreviatedPath. now rewrite H. Qed.

(** What an abbreviated path is: relative, or the path itself. *)
Lemma abbreviated_relative (path : string) :
  startsWith_slash (generateAbbreviatedPath path) = false
  \/ generateAbbreviatedPath path = path.
Proof.
  unfold generateAbbreviatedPath.
  destruct (startsWith_slash path) eqn:Estart; simpl; [|now right].
  set (parts := nonempty (split "/" path)).
  assert (Hpart : forall x, In x parts -> x <> "" /\ startsWith_slash x = false).
  { intros x Hx. apply nonempty_part in Hx as [Hx Hne]. split; [exact Hne|].
    apply clean_part_start. now apply (split_parts_clean "/" path). }
  destruct (Nat.ltb 3 (List.length parts)); [now left|].
  destruct (Nat.ltb_spec 1 (List.length parts)) as [Hlen | Hlen].
  - left. destruct (last_two_some parts Hlen) as (x & rest & E). rewrite E.
    destruct (Hpart x) as [Hne Hx]; [apply last_two_In; rewrite E; now left|].
    now rewrite join_start.
  - destruct (last_part parts) as [x|] eqn:E; simpl; [|now right].
    destruct (String.eqb x ""); simpl; [now right|].
    left. apply Hpart. now apply last_part_In.
Qed.

Lemma lookup_replace_same (k : string) (v : jsval) (props : list (string * jsval)) :
  JSON.lookup k props <> None -> JSON.lookup k (replace_value k v props) = Some v.
Proof.
  induction props as [|[k' v'] l IH]; simpl; [congruence|].
  destruct (String.eqb k k') eqn:E; simpl.
  - now rewrite String.eqb_refl.
  - now rewrite E.
Qed.

Lemma lookup_replace_other (k q : string) (v : jsval) (props : list (string * jsval)) :
  q <> k -> JSON.lookup q (replace_value k v props) = JSON.lookup q props.
Proof.
  intros Hne. induction props as [|[k' v'] l IH]; simpl; [reflexivity|].
  destruct (String.eqb_spec k k') as [<- | Hk]; simpl.
  - apply String.eqb_neq in Hne. now rewrite Hne.
  - now rewrite IH.
Qed.

Lemma lookup_add_same (k : string) (v : jsval) (props : list (string * jsval)) :
  JSON.lookup k props = None -> JSON.lookup k (add_property k v props) = Some v.
Proof.
  induction props as [|[k' v'] l IH]; simpl.
  - now rewrite String.eqb_refl.
  - destruct (String.eqb k k') eqn:E; [discriminate|]. intros H.
    destruct (JSON.before_key k' k); simpl.
    + rewrite E. now apply IH.
    + now rewrite String.eqb_refl.
Qed.

Lemma lookup_add_other (k q : string) (v : jsval) (props : list (string * jsval)) :
  q <> k -> JSON.lookup q (add_property k v props) = JSON.lookup q props.
Proof.
  intros Hne. apply String.eqb_neq in Hne.
  induction props as [|[k' v'] l IH]; simpl.
  - now rewrite Hne.
  - destruct (JSON.before_key k' k); simpl.
    + now rewrite IH.
    + now rewrite Hne.
Qed.

Lemma lookup_assign_same (k : string) (v : jsval) (props : list (string * jsval)) :
  JSON.lookup k (assign k v props)
  = if String.eqb k "__proto__"
    then match JSON.lookup k props with
         | Some _ => Some v
         | None => None
         end
    else Some v.
Proof.
  unfold assign. destruct (JSON.lookup k props) as [x|] eqn:E.
  - rewrite lookup_replace_same by congruence. now destruct (String.eqb k "__proto__").
  - destruct (String.eqb k "__proto__"); [exact E | now apply lookup_add_same].
Qed.

Lemma lookup_assign_other (k q : string) (v : jsval) (props : list (string * jsval)) :
  q <> k -> JSON.lookup q (assign k v props) = JSON.lookup q props.
Proof.
  intros Hne. unfold assign. destruct (JSON.lookup k props).
  - now apply lookup_replace_other.
  - destruct (String.eqb k "__proto__"); [reflexivity | now apply lookup_add_other].
Qed.

Lemma lookup_remove_same (k : string) (props : list (string * jsval)) :
  JSON.lookup k (JSON.remove_key k props) = None.
Proof.
  unfold JSON.remove_key. induction props as [|[k' v'] l IH]; simpl; [reflexivity|].
  destruct (String.eqb k k') eqn:E; simpl; [exact IH|]. now rewrite E.
Qed.

Lemma lookup_remove_other (k q : string) (props : list (string * jsval)) :
  q <> k -> JSON.lookup q (JSON.remove_key k props) = JSON.lookup q props.
Proof.
  intros Hne. unfold JSON.remove_key.
  induction props as [|[k' v'] l IH]; simpl; [reflexivity|].
  destruct (String.eqb_spec k k') as [<- | Hk]; simpl.
  - apply String.eqb_neq in Hne. now rewrite Hne.
  - now rewrite IH.
Qed.

End PathFacts.

(** X20.  The name [addProjectManually] gives a path is decoded back to
    that path exactly when the path contains no hyphen: the fallback
    [projectName.replace(/-/g, '/')] turns every hyphen of the original
    path into a slash. *)
Theorem decoded_name_is_the_path_iff_no_hyphen (path : string) :
  Projects.decoded (Projects.encoded path) = path
  <-> Texts.contains "-" path = false.
Proof.
  unfold Projects.decoded, Projects.encoded.
  induction path as [|c r IH]; simpl; [split; reflexivity|].
  destruct (Ascii.eqb_spec c "-") as [-> | Hc]; simpl.
  - split; [intros H; discriminate H | discriminate].
  - destruct (Ascii.eqb_spec c "/") as [-> | Hs]; simpl.
    + rewrite <- IH. split; [intros H; now injection H | intros ->; reflexivity].
    + destruct (Ascii.eqb_spec c "-") as [E | _]; [contradiction|].
      rewrite <- IH. split; [intros H; now injection H | intros ->; reflexivity].
Qed.

(** X21.  Abbreviating a path twice is abbreviating it once: the result
    of [generateAbbreviatedPath] is a relative path (or the path itself,
    when it has no component), which the function returns as it is. *)
Theorem generateAbbreviatedPath_idempotent (path : string) :
  Projects.generateAbbreviatedPath (Projects.generateAbbreviatedPath path)
  = Projects.generateAbbreviatedPath path.
Proof.
  destruct (PathFacts.abbreviated_relative path) as [H | H].
  - now apply PathFacts.relative_path_kept.
  - now rewrite !H.
Qed.

(** X22.  [renameProject] replaces the whole entry of the project in the
    configuration: with a name that is not blank the entry becomes
    [{ displayName: name.trim() }] and nothing else (what the entry held
    before, such as [manuallyAdded] and [originalPath], is gone); with no
    name or a blank one the entry is deleted; the entries of the other
    projects are as before.  The one exception is a project named
    [__proto__] for which the configuration holds no entry: the
    assignment then sets the prototype of the object and no entry is
    saved. *)
Theorem renameProject_replaces_the_entry (projectName : string)
    (newDisplayName : option string) (config : list (string * jsval)) :
  JSON.lookup projectName (Projects.renameProject projectName newDisplayName config)
  = match newDisplayName with
    | Some name =>
        if String.eqb (Projects.trim name) "" then None
        else if String.eqb projectName "__proto__"
             then match JSON.lookup projectName config with
                  | Some _ => Some (JObj [("displayName", JStr (Projects.trim name))])
                  | None => None
                  end
             else Some (JObj [("displayName", JStr (Projects.trim name))])
    | None => None
    end
  /\ forall other,
       other <> projectName ->
       JSON.lookup other (Projects.renameProject projectName newDisplayName config)
       = JSON.lookup other config.
Proof.
  unfold Projects.renameProject. destruct newDisplayName as [name|].
  - destruct (String.eqb_spec name "") as [-> | Hname]; simpl.
    + split; [apply PathFacts.lookup_remove_same|].
      intros other Hne. now apply PathFacts.lookup_remove_other.
    + apply String.eqb_neq in Hname. rewrite Hname. simpl.
      destruct (String.eqb (Projects.trim name) "").
      * split; [apply PathFacts.lookup_remove_same|].
        intros other Hne. now apply PathFacts.lookup_remove_other.
      * split; [apply PathFacts.lookup_assign_same|].
        intros other Hne. now apply PathFacts.lookup_assign_other.
  - split; [apply PathFacts.lookup_remove_same|].
    intros other Hne. now apply PathFacts.lookup_remove_other.
Qed.

(** ** projects.js: the lines of a session file *)
Module SessionFacts.
Import Projects Texts ClaudeCli.


Lemma split_lines_some (s : string) : split_lines s <> [].
Proof.
  destruct s as [|c r]; simpl; [discriminate|].
  destruct (Ascii.eqb c (ascii_of_nat 10)); [discriminate|].
  destruct (split_lines r); discriminate.
Qed.






Section Parser.
Variable JSON_parse : string -> outcome jsval.



End Parser.

End SessionFacts.



(** ** The further theorems at sample inputs *)

Lemma mixed_options_parse : Spec.options_parse (JobDb.jobs Cases.mixed).
Proof.
  intros r Hr. exists (JObj []). simpl in Hr.
  destruct Hr as [<- | [<- | [<- | [<- | []]]]]; reflexivity.
Qed.


(** X2 at the same table: the two newest of the three jobs of alpha. *)
Lemma getJobsForProject_newest_witness :
  JobDb.fault Cases.mixed = None
  /\ Spec.options_parse (JobDb.jobs Cases.mixed)
  /\ exists rows omitted js,
       JobDb.getJobsForProject "alpha" 2 Cases.mixed = Return js
       /\ Forall2 Spec.hands_out rows js
       /\ Permutation (rows ++ omitted)
                      (filter (Spec.of_project "alpha") (JobDb.jobs Cases.mixed))
       /\ List.length js = 2%nat
       /\ StronglySorted Listing.newer_first js.
Proof.
  split; [reflexivity|]. split; [exact mixed_options_parse|].
  destruct (getJobsForProject_newest "alpha" 2 Cases.mixed eq_refl mixed_options_parse)
    as (rows & omitted & js & Hret & Hread & Hperm & Hlen & _ & Hsorted & _).
  exists rows, omitted, js. split; [exact Hret|]. split; [exact Hread|].
  split; [exact Hperm|].
  split; [rewrite Hlen; reflexivity | exact Hsorted].
Defined.

Lemma backlog_ids_ok : Spec.ids_ok Samples.backlog.
Proof.
  split; [exact backlog_ids|]. split; [vm_compute; discriminate|].
  intros r Hr. unfold Samples.backlog, Samples.table in *. cbn [JobDb.jobs JobDb.sequence] in *.
  apply in_map_iff in Hr as (i & <- & Hi). apply in_seq in Hi.
  rewrite length_map, length_seq. cbn [JobDb.id Samples.finished_row]. lia.
Qed.

(** X3 at the backlog: job 1 is deleted by the clean-up, and the next job
    gets the id 102, not an id that is free again. *)
Lemma addJob_id_never_reused_witness :
  Spec.ids_ok Samples.backlog
  /\ JobDb.cleanupOldJobs (Some "alpha") Samples.backlog = Return Cases.cleaned
  /\ JobDb.addJob "alpha" None "run tests" (JObj []) None 0 5000 Cases.cleaned
     = Return (102%Z, Cases.cleaned_plus)
  /\ List.length (JobDb.jobs Cases.cleaned) = 100%nat
  /\ forall r, In r (JobDb.jobs Samples.backlog) -> (JobDb.id r < 102)%Z.
Proof.
  assert (H1 : JobDb.cleanupOldJobs (Some "alpha") Samples.backlog = Return Cases.cleaned)
    by (vm_compute; reflexivity).
  assert (H2 : JobDb.addJob "alpha" None "run tests" (JObj []) None 0 5000 Cases.cleaned
               = Return (102%Z, Cases.cleaned_plus)) by (vm_compute; reflexivity).
  split; [exact backlog_ids_ok|]. split; [exact H1|]. split; [exact H2|].
  split; [vm_compute; reflexivity|].
  exact (addJob_id_never_reused (Some "alpha") "alpha" None "run tests" (JObj []) None 0 5000
           Samples.backlog Cases.cleaned Cases.cleaned_plus 102 backlog_ids_ok H1 H2).
Defined.

(** X4 at the sample queue. *)
Lemma addJob_raises_iff_undefined_witness :
  JobDb.fault Samples.queue = None
  /\ JobDb.addJob "alpha" None "run tests" JUndefined None 0 500 Samples.queue
     = Throw {| message := "NOT NULL constraint failed: jobs.options" |}.
Proof.
  split; [reflexivity|].
  exact (proj2 (addJob_raises_iff_undefined "alpha" None "run tests" JUndefined 0 500
                  Samples.queue eq_refl) eq_refl).
Defined.

(** X5 at the sample queue, which has no job 99. *)
Lemma updateJobStatus_unknown_id_witness :
  JobDb.fault Samples.queue = None
  /\ (forall r, In r (JobDb.jobs Samples.queue) -> JobDb.id r <> 99%Z)
  /\ JobDb.updateJobStatus 99 JobDb.failed (Some "exit 1") 900 Samples.queue
     = Return Samples.queue.
Proof.
  assert (H : forall r, In r (JobDb.jobs Samples.queue) -> JobDb.id r <> 99%Z).
  { intros r Hr. simpl in Hr. destruct Hr as [<- | [<- | [<- | [<- | []]]]]; discriminate. }
  split; [reflexivity|]. split; [exact H|].
  exact (updateJobStatus_unknown_id 99 JobDb.failed (Some "exit 1") 900 Samples.queue eq_refl H).
Defined.

(** X6 at the backlog, for the clean-up of all projects. *)
Lemma cleanupOldJobs_idempotent_witness :
  NoDup (map JobDb.id (JobDb.jobs Samples.backlog))
  /\ JobDb.cleanupOldJobs None Samples.backlog = Return Cases.cleaned
  /\ JobDb.cleanupOldJobs None Cases.cleaned = Return Cases.cleaned.
Proof.
  assert (H1 : JobDb.cleanupOldJobs None Samples.backlog = Return Cases.cleaned)
    by (vm_compute; reflexivity).
  split; [exact backlog_ids|]. split; [exact H1|].
  exact (cleanupOldJobs_idempotent None Samples.backlog Cases.cleaned backlog_ids H1).
Defined.

(** X15 at the sample queue. *)
Lemma added_job_can_be_claimed_witness :
  Spec.options_parse (JobDb.jobs Samples.queue)
  /\ JobDb.addJob "alpha" None "lint" (JObj []) None 0 400 Samples.queue
     = Return (5%Z, Cases.queue_plus)
  /\ exists job,
       JobDb.getNextJobForProject "alpha" Cases.queue_plus = Return (Some job)
       /\ JobDb.project_name job = "alpha"
       /\ JobDb.status job = JobDb.pending.
Proof.
  assert (H : JobDb.addJob "alpha" None "lint" (JObj []) None 0 400 Samples.queue
              = Return (5%Z, Cases.queue_plus)) by (vm_compute; reflexivity).
  split; [exact queue_options_parse|]. split; [exact H|].
  apply (added_job_can_be_claimed "alpha" None "lint" (JObj []) None 0 400
           Samples.queue Cases.queue_plus 5 queue_options_parse); [|exact H].
  intros s Hs. discriminate Hs.
Defined.



Lemma alpha_running_invariant : Spec.invariant Samples.alpha_running.
Proof. apply InvariantFacts.reachable_invariant, sample_run_reachable. Qed.

(** X10 in the sample run, when the child of job 1 cannot be started. *)
Lemma failed_job_is_claimed_again_witness :
  Spec.invariant Samples.alpha_running
  /\ JobDb.fault (JobWorker.db Samples.alpha_running) = None
  /\ exists next,
       JobDb.getNextJobForProject "alpha"
         (JobWorker.db (fst (JobWorker.resumeProjectJobs "alpha" (Throw Samples.ENOENT) 500
                               Samples.alpha_running)))
       = Return (Some next)
       /\ JobDb.project_name next = "alpha"
       /\ (JobDb.status next = JobDb.pending \/ JobDb.status next = JobDb.failed).
Proof.
  split; [exact alpha_running_invariant|]. split; [reflexivity|].
  destruct sample_worker_suspended
    as (w & job & Hw & Hjob & Hid & _ & _ & Hfault & r & Hrows & Hrid & Hrun).
  assert (Hin : In r (JobDb.jobs (JobWorker.db Samples.alpha_running)))
    by (rewrite Hrows; now left).
  assert (Hproj : JobDb.project_name r = "alpha").
  { assert (E : map (fun x => JobDb.project_name x)
                    (JobDb.jobs (JobWorker.db Samples.alpha_running)) = ["alpha"; "beta"])
      by (vm_compute; reflexivity).
    rewrite Hrows in E. simpl in E. now injection E. }
  exact (failed_job_is_claimed_again Samples.alpha_running "alpha" w job r Samples.ENOENT 500
           alpha_running_invariant Hw Hjob Hfault Hin (eq_trans Hrid (eq_sym Hid))
           Hproj Hrun).
Defined.

Lemma store_down_invariant : Spec.invariant Cases.store_down.
Proof.
  apply InvariantFacts.reachable_invariant. unfold Cases.store_down.
  apply JobWorker.reach_fault, sample_run_reachable.
Qed.

(** X11 in the sample run, with a store that raises when job 1 ends. *)
Lemma store_failure_strands_worker_witness :
  Spec.invariant Cases.store_down
  /\ JobDb.fault (JobWorker.db Cases.store_down) = Some Cases.disk_full
  /\ snd (JobWorker.resumeProjectJobs "alpha" (Return tt) 500 Cases.store_down)
     = Some Cases.disk_full
  /\ JobWorker.map_get "alpha"
       (JobWorker.projectWorkers
          (fst (JobWorker.resumeProjectJobs "alpha" (Return tt) 500 Cases.store_down)))
     = Some (WorkerRun.idle "alpha").
Proof.
  split; [exact store_down_invariant|]. split; [reflexivity|].
  destruct sample_worker_suspended as (w & job & Hw & Hjob & _).
  destruct (store_failure_strands_worker Cases.store_down "alpha" w job (Return tt)
              Cases.disk_full 500 store_down_invariant Hw Hjob eq_refl)
    as (H1 & _ & _ & _ & H2).
  split; [exact H1 | exact H2].
Defined.

(** X12 after [stop()] with two jobs queued. *)
Lemma nothing_starts_while_shutting_down_witness :
  JobWorker.isShuttingDown (JobWorker.stop Samples.queued_both) = true
  /\ JobWorker.startJobPolling 300 (JobWorker.stop Samples.queued_both)
     = JobWorker.stop Samples.queued_both
  /\ JobWorker.db (JobWorker.run_task (JobWorker.StartProjectWorker "alpha") 300
                     (JobWorker.stop Samples.queued_both))
     = JobWorker.db (JobWorker.stop Samples.queued_both).
Proof.
  split; [reflexivity|].
  destruct (nothing_starts_while_shutting_down (JobWorker.stop Samples.queued_both) eq_refl)
    as (Hpoll & Htask & _).
  split; [apply Hpoll | apply Htask].
Defined.

(** X13 with two jobs queued and no worker. *)
Lemma polling_respects_the_limit_witness :
  (List.length (JobWorker.projectWorkers Samples.queued_both)
   <= JobWorker.maxConcurrentProjects Samples.queued_both)%nat
  /\ (List.length (JobWorker.projectWorkers (JobWorker.startJobPolling 300 Samples.queued_both))
      <= JobWorker.maxConcurrentProjects (JobWorker.startJobPolling 300 Samples.queued_both))%nat.
Proof.
  assert (H : (List.length (JobWorker.projectWorkers Samples.queued_both)
               <= JobWorker.maxConcurrentProjects Samples.queued_both)%nat)
    by (vm_compute; repeat constructor).
  split; [exact H|].
  exact (polling_respects_the_limit 300 Samples.queued_both H).
Defined.



(** X16 for the first job of the sample run. *)
Lemma queued_job_starts_witness :
  JobWorker.isShuttingDown (JobWorker.create JobWorker.empty_database) = false
  /\ JobWorker.map_has "alpha"
       (JobWorker.projectWorkers (JobWorker.create JobWorker.empty_database)) = false
  /\ (List.length (JobWorker.projectWorkers (JobWorker.create JobWorker.empty_database))
      < JobWorker.maxConcurrentProjects (JobWorker.create JobWorker.empty_database))%nat
  /\ JobWorker.addJob "alpha" (Some "ses-1") "run tests" (JObj []) None 0 100
       (JobWorker.create JobWorker.empty_database)
     = Return (1%Z, Samples.queued_alpha)
  /\ In (JobWorker.StartProjectWorker "alpha") (JobWorker.immediates Samples.queued_alpha)
  /\ exists r,
       In r (JobDb.jobs (JobWorker.db
                (JobWorker.run_task (JobWorker.StartProjectWorker "alpha") 300
                                    Samples.queued_alpha)))
       /\ JobDb.id r = 1%Z /\ JobDb.status r = JobDb.running
       /\ JobDb.started_at r = Some 300%Z.
Proof.
  assert (Hcap : (List.length (JobWorker.projectWorkers
                                 (JobWorker.create JobWorker.empty_database))
                  < JobWorker.maxConcurrentProjects
                      (JobWorker.create JobWorker.empty_database))%nat)
    by (vm_compute; repeat constructor).
  assert (Hnone : forall r,
             In r (JobDb.jobs (JobWorker.db (JobWorker.create JobWorker.empty_database))) ->
             JobDb.project_name r <> "alpha") by (intros r []).
  split; [reflexivity|]. split; [reflexivity|]. split; [exact Hcap|].
  split; [reflexivity|].
  destruct (queued_job_starts (JobWorker.create JobWorker.empty_database)
              Samples.queued_alpha "alpha" (Some "ses-1") "run tests" (JObj []) None
              0 100 300 1 eq_refl eq_refl Hcap Hnone eq_refl) as (Hq & Hrun & _).
  split; [exact Hq | exact Hrun].
Defined.

(** X18 for a command of three spaces, in plan mode. *)
Lemma blank_command_is_not_passed_witness :
  ClaudeCli.blank "   " = true
  /\ "   " <> ""
  /\ SpawnClaude.args "   " (Texts.plan_options None false None None false) [] None
     = ["--output-format"; "stream-json"; "--verbose"; "--model"; "sonnet";
        "--permission-mode"; "plan";
        "--allowedTools"; "Read"; "--allowedTools"; "Task";
        "--allowedTools"; "exit_plan_mode"; "--allowedTools"; "TodoRead";
        "--allowedTools"; "TodoWrite"]
  /\ SpawnClaude.stdin_text "   " = None.
Proof.
  assert (Hne : "   " <> "") by discriminate.
  split; [reflexivity|]. split; [exact Hne|].
  destruct (blank_command_is_not_passed "   "
              (Texts.plan_options None false None None false) [] None eq_refl Hne)
    as (Hargs & Hstdin & _).
  split; [rewrite Hargs; reflexivity | exact Hstdin].
Defined.

Lemma string_key_eq (a b : string) : String.eqb a b = true <-> a = b.
Proof. apply String.eqb_eq. Qed.

(** X19 for a registry keyed by strings, with two children. *)
Lemma abort_untracks_the_session_witness :
  (forall a b : string, String.eqb a b = true <-> a = b)
  /\ SpawnClaude.abortClaudeSession string String.eqb "ses-1" Cases.tracked
     = (true, {| SpawnClaude.activeClaudeProcesses := [("ses-2", 8%nat)];
                 SpawnClaude.killed := [7%nat] |})
  /\ SpawnClaude.registry_get string String.eqb "ses-1"
       (SpawnClaude.activeClaudeProcesses string
          (snd (SpawnClaude.abortClaudeSession string String.eqb "ses-1" Cases.tracked)))
     = None.
Proof.
  split; [exact string_key_eq|]. split; [reflexivity|].
  destruct (abort_untracks_the_session string String.eqb "ses-1" Cases.tracked string_key_eq)
    as (_ & Hgone & _).
  exact Hgone.
Defined.



(** X25 for a second user. *)
Lemma created_user_is_found_witness :
  UserDb.createUser "bob" "$2b$12$xyz" 200 Cases.one_user
  = Return ((2%Z, "bob"),
            {| UserDb.users :=
                 (UserDb.users Cases.one_user
                  ++ [{| UserDb.id := 2; UserDb.username := "bob";
                         UserDb.password_hash := "$2b$12$xyz"; UserDb.created_at := 200;
                         UserDb.last_login := None; UserDb.is_active := true |}])%list;
               UserDb.sequence := 2;
               UserDb.fault := None |})
  /\ exists db' u,
       UserDb.getUserByUsername "bob" db' = Return (Some u)
       /\ UserDb.id u = 2%Z /\ UserDb.password_hash u = "$2b$12$xyz"
       /\ UserDb.hasUsers db' = Return true.
Proof.
  assert (H : UserDb.createUser "bob" "$2b$12$xyz" 200 Cases.one_user
              = Return ((2%Z, "bob"),
                        {| UserDb.users :=
                             (UserDb.users Cases.one_user
                              ++ [{| UserDb.id := 2; UserDb.username := "bob";
                                     UserDb.password_hash := "$2b$12$xyz";
                                     UserDb.created_at := 200;
                                     UserDb.last_login := None;
                                     UserDb.is_active := true |}])%list;
                           UserDb.sequence := 2;
                           UserDb.fault := None |})) by reflexivity.
  split; [exact H|].
  destruct (created_user_is_found "bob" "$2b$12$xyz" 200 2 "bob" Cases.one_user _ H)
    as (_ & (u & Hget & Hid & _ & Hhash & _) & Hhas & _).
  eexists. exists u. split; [exact Hget|]. split; [exact Hid|].
  split; [exact Hhash | exact Hhas].
Defined.

(** X26 for the name of the first user. *)
Lemma createUser_raises_iff_name_taken_witness :
  UserDb.fault Cases.one_user = None
  /\ (exists u, In u (UserDb.users Cases.one_user) /\ UserDb.username u = "ada")
  /\ exists e, UserDb.createUser "ada" "$2b$12$other" 300 Cases.one_user = Throw e.
Proof.
  assert (Htaken : exists u, In u (UserDb.users Cases.one_user) /\ UserDb.username u = "ada").
  { eexists. split; [left; reflexivity | reflexivity]. }
  split; [reflexivity|]. split; [exact Htaken|].
  exact (proj2 (createUser_raises_iff_name_taken "ada" "$2b$12$other" 300 Cases.one_user
                  eq_refl) Htaken).
Defined.

(** X27 in a state the server reaches: ten workers are registered, the
    limit is ten, and the callback for the eleventh project is queued. *)
Lemma startProjectWorker_ignores_the_limit_witness :
  JobWorker.reachable Cases.ten_started
  /\ In (JobWorker.StartProjectWorker "p11") (JobWorker.immediates Cases.ten_started)
  /\ JobWorker.maxConcurrentProjects Cases.ten_started = 10%nat
  /\ List.length (JobWorker.projectWorkers Cases.ten_started) = 10%nat
  /\ JobWorker.map_has "p11" (JobWorker.projectWorkers Cases.ten_started) = false
  /\ JobWorker.isShuttingDown Cases.ten_started = false
  /\ JobDb.fault (JobWorker.db Cases.ten_started) = None
  /\ List.length (JobWorker.projectWorkers
                    (fst (JobWorker.startProjectWorker "p11" 0 Cases.ten_started)))
     = 11%nat.
Proof.
  assert (Hlen : List.length (JobWorker.projectWorkers Cases.ten_started) = 10%nat)
    by (vm_compute; reflexivity).
  assert (Hnone : JobWorker.map_has "p11" (JobWorker.projectWorkers Cases.ten_started) = false)
    by (vm_compute; reflexivity).
  assert (Hshut : JobWorker.isShuttingDown Cases.ten_started = false)
    by (vm_compute; reflexivity).
  assert (Hfault : JobDb.fault (JobWorker.db Cases.ten_started) = None)
    by (vm_compute; reflexivity).
  assert (Hnext : JobDb.getNextJobForProject "p11" (JobWorker.db Cases.ten_started)
                  = Return (Some (JobDb.with_options
                                    (JobDb.mkJob 11 "p11" None "run tests" "{}" JobDb.pending
                                                 0 0 None None None None) (JObj []))))
    by (vm_compute; reflexivity).
  split; [exact LimitFacts.ten_started_reachable|].
  split; [vm_compute; auto 20|]. split; [vm_compute; reflexivity|].
  split; [exact Hlen|]. split; [exact Hnone|]. split; [exact Hshut|].
  split; [exact Hfault|].
  rewrite (startProjectWorker_ignores_the_limit Cases.ten_started "p11" 0 _
             Hnone Hshut Hfault Hnext).
  now rewrite Hlen.
Defined.
